(** * jsonapi: the data structures of a JSON API document layer

    A shallow embedding of [data_structs.go]: the two polymorphic
    containers with their [MarshalJSON] / [UnmarshalJSON] methods, the
    tagged record types of a document, the sparse-fieldset parser
    [FilterFields.ParseQuery] and the field projection of [CustomObject].

    Go strings and byte slices are sequences of bytes; they are modelled
    as [string] (a list of 8-bit [ascii]).  A Go map is a [gmap]; a nil
    map, a nil slice and a nil pointer are [None]. *)

From Stdlib Require Import Ascii String List Bool Arith Lia.
From stdpp Require Import base option list strings gmap fin_maps.

Local Open Scope string_scope.
Local Open Scope list_scope.

(** ** Outcomes of Go calls *)

(** A Go call either returns or panics. *)
Inductive outcome (A : Type) : Type :=
| Returns (a : A)
| Panics (msg : string).
Arguments Returns {A} a.
Arguments Panics {A} msg.

(** ** Package [strings] and [bytes] *)

Module GoStrings.

(** [bytes.HasPrefix(s, prefix)]. *)
Fixpoint HasPrefix (s prefix : string) : bool :=
  match prefix, s with
  | EmptyString, _ => true
  | String _ _, EmptyString => false
  | String p prefix', String c s' =>
      if Ascii.eqb c p then HasPrefix s' prefix' else false
  end.

(** [strings.Join(elems, sep)]. *)
Fixpoint Join (elems : list string) (sep : string) : string :=
  match elems with
  | [] => ""
  | [e] => e
  | e :: rest => e +:+ sep +:+ Join rest sep
  end.

(** The fields of [s] around a one-byte separator: the first field and
    the fields after it. *)
Fixpoint fields_around (sep : ascii) (s : string) : string * list string :=
  match s with
  | EmptyString => ("", [])
  | String c s' =>
      let '(hd, tl) := fields_around sep s' in
      if Ascii.eqb c sep then ("", hd :: tl) else (String c hd, tl)
  end.

(** [strings.Split(s, sep)] for a one-byte separator, which is how the
    source calls it (with [","]).  The result is never empty:
    [Split("", ",")] is [[""]]. *)
Definition Split (s : string) (sep : ascii) : list string :=
  let '(hd, tl) := fields_around sep s in hd :: tl.

End GoStrings.

(** ** The two regular expressions of the source *)

Module Regexp.

Definition lower (c : ascii) : ascii :=
  let n := nat_of_ascii c in
  if ((65 <=? n)%nat && (n <=? 90)%nat)%bool then ascii_of_nat (n + 32) else c.

(** One letter of a case-folded literal.  Go's [(?i)] folds by Unicode
    simple folding: a pattern letter matches both of its ASCII cases, and
    [s] also matches U+017F (LATIN SMALL LETTER LONG S), whose UTF-8
    encoding is the two bytes C5 BF.  Of the letters of [fields] only [s]
    has such a partner.  The result is the rest of the input. *)
Definition fold_letter (p : ascii) (s : string) : option string :=
  match s with
  | String c s' =>
      if Ascii.eqb (lower c) p then Some s'
      else if Ascii.eqb p "s" then
        match s' with
        | String c' s'' =>
            if Ascii.eqb c "197" && Ascii.eqb c' "191" then Some s'' else None
        | EmptyString => None
        end
      else None
  | EmptyString => None
  end.

(** A case-folded literal word. *)
Fixpoint fold_literal (word s : string) : option string :=
  match word with
  | EmptyString => Some s
  | String p word' =>
      match fold_letter p s with
      | Some s' => fold_literal word' s'
      | None => None
      end
  end.

(** [([^\]]+)]$]: the bytes before a closing bracket that ends the
    input.  A negated class also matches a newline and a byte that is
    not valid UTF-8, so every byte other than the bracket is taken. *)
Fixpoint until_final_bracket (s : string) : option string :=
  match s with
  | EmptyString => None
  | String c s' =>
      if Ascii.eqb c "]" then
        match s' with EmptyString => Some "" | _ => None end
      else
        match until_final_bracket s' with
        | Some cap => Some (String c cap)
        | None => None
        end
  end.

(** [regexp.MustCompile(`(?i)^fields\[([^\]]+)]$`).FindStringSubmatch(k)]:
    [Some capture] where Go returns the two-element slice
    [[k, capture]], [None] where it returns nil. *)
Definition fields_submatch (k : string) : option string :=
  match fold_literal "fields" k with
  | Some (String c rest) =>
      if Ascii.eqb c "[" then
        match until_final_bracket rest with
        | Some EmptyString => None
        | Some cap => Some cap
        | None => None
        end
      else None
  | _ => None
  end.

(** The run of bytes before the first comma. *)
Fixpoint before_comma (s : string) : string :=
  match s with
  | EmptyString => ""
  | String c s' => if Ascii.eqb c "," then "" else String c (before_comma s')
  end.

(** [regexp.MustCompile(`(?i)^([^,]+)(,|$)`).FindStringSubmatch(tag)],
    first group.  The greedy run stops at the first comma or at the end
    of the tag, where the second group always matches; the expression
    fails only when the run is empty. *)
Definition tag_submatch (tag : string) : option string :=
  match before_comma tag with
  | EmptyString => None
  | name => Some name
  end.

End Regexp.

(** ** Package [encoding/json]: what a call returns *)

(** The errors the model tells apart. *)
Inductive error : Type :=
| SyntaxError                      (* the text is not one JSON value *)
| UnmarshalTypeError (field : string)  (* a JSON value of the wrong kind *)
| MarshalerError                   (* a MarshalJSON result that is not JSON *)
| UnsupportedValue                 (* a dynamic value that has no encoding *)
| ErrorString (msg : string).      (* [errors.New(msg)] *)

(** A Go result [(T, error)]. *)
Inductive result (A : Type) : Type :=
| Ok (a : A)
| Err (e : error).
Arguments Ok {A} a.
Arguments Err {A} e.

#[global] Instance result_ret : MRet result := λ A a, Ok a.
#[global] Instance result_bind : MBind result :=
  λ A B k r, match r with Ok a => k a | Err e => Err e end.

(** All results of a list, or its first error. *)
Fixpoint collect {A} (rs : list (result A)) : result (list A) :=
  match rs with
  | [] => Ok []
  | r :: rs' => a ← r; as' ← collect rs'; Ok (a :: as')
  end.

(** ** Package [encoding/json]: encoding *)

Module Encode.

Definition dq : ascii := "034".
Definition backslash : ascii := "092".

Definition hex (n : nat) : ascii :=
  match get n "0123456789abcdef" with Some c => c | None => "0"%char end.

(** The bytes that stand for the ASCII byte [b] inside a string literal
    (the table [htmlSafeSet] and the switch of [appendString], with
    HTML escaping on as [json.Marshal] has it). *)
Definition escape_ascii (b : ascii) : string :=
  let n := nat_of_ascii b in
  if Ascii.eqb b dq || Ascii.eqb b backslash then String backslash (String b "")
  else if (n =? 8)%nat then String backslash "b"
  else if (n =? 12)%nat then String backslash "f"
  else if (n =? 10)%nat then String backslash "n"
  else if (n =? 13)%nat then String backslash "r"
  else if (n =? 9)%nat then String backslash "t"
  else if (n <? 32)%nat || Ascii.eqb b "<" || Ascii.eqb b ">" || Ascii.eqb b "&"
  then String backslash (String "u" (String "0" (String "0"
         (String (hex (n / 16)) (String (hex (n mod 16)) "")))))
  else String b "".

Definition between (lo hi : nat) (b : ascii) : bool :=
  ((lo <=? nat_of_ascii b)%nat && (nat_of_ascii b <=? hi)%nat)%bool.

Definition cont (b : ascii) : bool := between 128 191 b.

(** Well-formed UTF-8 sequences of two, three and four bytes
    ([utf8.DecodeRuneInString] returns the rune and this size; on
    anything else it returns [RuneError] and size 1). *)
Definition utf8_2 (b1 b2 : ascii) : bool := between 194 223 b1 && cont b2.
Definition utf8_3 (b1 b2 b3 : ascii) : bool :=
  ((Ascii.eqb b1 "224" && between 160 191 b2)
   || ((between 225 236 b1 || between 238 239 b1) && cont b2)
   || (Ascii.eqb b1 "237" && between 128 159 b2)) && cont b3.
Definition utf8_4 (b1 b2 b3 b4 : ascii) : bool :=
  ((Ascii.eqb b1 "240" && between 144 191 b2)
   || (between 241 243 b1 && cont b2)
   || (Ascii.eqb b1 "244" && between 128 143 b2)) && cont b3 && cont b4.

Definition replacement_escape : string := String backslash "ufffd".

(** U+2028 and U+2029 (E2 80 A8, E2 80 A9) are always escaped. *)
Definition separator_escape (b3 : ascii) : string :=
  String backslash (String "u" (String "2" (String "0" (String "2"
    (String (hex (nat_of_ascii b3 mod 16)) ""))))).

(** The body of [appendString]: safe bytes are copied, the others
    escaped, a byte that does not start well-formed UTF-8 becomes the
    escape of U+FFFD. *)
Fixpoint quote_body (s : string) : string :=
  match s with
  | EmptyString => ""
  | String b1 s1 =>
      if (nat_of_ascii b1 <? 128)%nat then escape_ascii b1 +:+ quote_body s1
      else
        let invalid := replacement_escape +:+ quote_body s1 in
        match s1 with
        | String b2 s2 =>
            if utf8_2 b1 b2 then String b1 (String b2 (quote_body s2))
            else
              match s2 with
              | String b3 s3 =>
                  if utf8_3 b1 b2 b3 then
                    if Ascii.eqb b1 "226" && Ascii.eqb b2 "128"
                       && (Ascii.eqb b3 "168" || Ascii.eqb b3 "169")
                    then separator_escape b3 +:+ quote_body s3
                    else String b1 (String b2 (String b3 (quote_body s3)))
                  else
                    match s3 with
                    | String b4 s4 =>
                        if utf8_4 b1 b2 b3 b4 then
                          String b1 (String b2 (String b3 (String b4 (quote_body s4))))
                        else invalid
                    | EmptyString => invalid
                    end
              | EmptyString => invalid
              end
        | EmptyString => invalid
        end
  end.

(** A Go string as a JSON string literal. *)
Definition quote (s : string) : string :=
  String dq (quote_body s +:+ String dq "").

(** [[e1,e2,...]]. *)
Definition array_text (elems : list string) : string :=
  "[" +:+ GoStrings.Join elems "," +:+ "]".

Definition member_text (kv : string * string) : string :=
  quote kv.1 +:+ ":" +:+ kv.2.

(** [{"k1":v1,"k2":v2,...}] for members already encoded. *)
Definition object_text (members : list (string * string)) : string :=
  "{" +:+ GoStrings.Join (map member_text members) "," +:+ "}".

(** Map keys are written in the byte order of the keys. *)
Fixpoint insert_sorted {A} (kv : string * A) (l : list (string * A))
  : list (string * A) :=
  match l with
  | [] => [kv]
  | kv' :: l' =>
      if String.leb kv.1 kv'.1 then kv :: l else kv' :: insert_sorted kv l'
  end.

Definition sorted_entries {A} (m : gmap string A) : list (string * A) :=
  foldr insert_sorted [] (map_to_list m).

(** [json.Marshal] of a [map[string]T]: [null] for the nil map, else an
    object with the keys in order; the first value that has no encoding
    fails the call. *)
Definition marshal_map {A} (enc : A → result string)
    (m : option (gmap string A)) : result string :=
  match m with
  | None => Ok "null"
  | Some m =>
      members ← collect (map (λ kv, v ← enc kv.2; Ok (kv.1, v))
                             (sorted_entries m));
      Ok (object_text members)
  end.

(** [json.Marshal] of a [[]T]: [null] for the nil slice, else an array. *)
Definition marshal_slice {A} (enc : A → result string)
    (l : option (list A)) : result string :=
  match l with
  | None => Ok "null"
  | Some l => elems ← collect (map enc l); Ok (array_text elems)
  end.

(** [json.Marshal] of a [*T]: [null] for the nil pointer, else the
    encoding of what it points to. *)
Definition marshal_ptr {A} (enc : A → result string)
    (p : option A) : result string :=
  match p with
  | None => Ok "null"
  | Some a => enc a
  end.

End Encode.

(** ** Package [encoding/json]: the scanner *)

Module Scanner.

(** The step functions of the scanner ([stateBeginValue], ...).  The
    functions that spell out a literal are one state with the letters still
    expected, those of a [\u] escape one state with the digits still
    expected. *)
Inductive state : Type :=
| BeginValueOrEmpty | BeginValue | BeginStringOrEmpty | BeginString
| EndValue | EndTop
| InString | InStringEsc | InStringEscU (digits : nat)
| Neg | St1 | St0 | Dot | Dot0 | StE | ESign | E0
| InLiteral (expect : string).

(** The entries of the parse-state stack; the head of the list is its top. *)
Inductive parse_state : Type := ParseObjectKey | ParseObjectValue | ParseArrayValue.

(** The opcodes a step returns ([scanError] is [None]). *)
Inductive opcode : Type :=
| ScanContinue | ScanBeginLiteral | ScanBeginObject | ScanObjectKey
| ScanObjectValue | ScanEndObject | ScanBeginArray | ScanArrayValue
| ScanEndArray | ScanSkipSpace | ScanEnd.

Definition config : Type := state * list parse_state.

Definition isSpace (c : ascii) : bool :=
  let n := nat_of_ascii c in
  ((n =? 32) || (n =? 9) || (n =? 13) || (n =? 10))%nat.

Definition isDigit (c : ascii) : bool := Encode.between 48 57 c.

Definition isHex (c : ascii) : bool :=
  isDigit c || Encode.between 97 102 c || Encode.between 65 70 c.

Definition stateEndTop (stk : list parse_state) (c : ascii)
  : option (config * opcode) :=
  if isSpace c then Some ((EndTop, stk), ScanEnd) else None.

Definition popParseState (stk : list parse_state) (op : opcode)
  : option (config * opcode) :=
  match stk with
  | [] => Some ((EndTop, []), op)
  | _ => Some ((EndValue, stk), op)
  end.

Definition stateEndValue (stk : list parse_state) (c : ascii)
  : option (config * opcode) :=
  match stk with
  | [] => stateEndTop stk c
  | ps :: stk' =>
      if isSpace c then Some ((EndValue, stk), ScanSkipSpace)
      else
        match ps with
        | ParseObjectKey =>
            if Ascii.eqb c ":"
            then Some ((BeginValue, ParseObjectValue :: stk'), ScanObjectKey)
            else None
        | ParseObjectValue =>
            if Ascii.eqb c ","
            then Some ((BeginString, ParseObjectKey :: stk'), ScanObjectValue)
            else if Ascii.eqb c "}" then popParseState stk' ScanEndObject
            else None
        | ParseArrayValue =>
            if Ascii.eqb c ","
            then Some ((BeginValue, stk), ScanArrayValue)
            else if Ascii.eqb c "]" then popParseState stk' ScanEndArray
            else None
        end
  end.

Definition stateBeginValue (stk : list parse_state) (c : ascii)
  : option (config * opcode) :=
  if isSpace c then Some ((BeginValue, stk), ScanSkipSpace)
  else if Ascii.eqb c "{"
  then Some ((BeginStringOrEmpty, ParseObjectKey :: stk), ScanBeginObject)
  else if Ascii.eqb c "["
  then Some ((BeginValueOrEmpty, ParseArrayValue :: stk), ScanBeginArray)
  else if Ascii.eqb c Encode.dq then Some ((InString, stk), ScanBeginLiteral)
  else if Ascii.eqb c "-" then Some ((Neg, stk), ScanBeginLiteral)
  else if Ascii.eqb c "0" then Some ((St0, stk), ScanBeginLiteral)
  else if Ascii.eqb c "t" then Some ((InLiteral "rue", stk), ScanBeginLiteral)
  else if Ascii.eqb c "f" then Some ((InLiteral "alse", stk), ScanBeginLiteral)
  else if Ascii.eqb c "n" then Some ((InLiteral "ull", stk), ScanBeginLiteral)
  else if Encode.between 49 57 c then Some ((St1, stk), ScanBeginLiteral)
  else None.

Definition stateBeginString (stk : list parse_state) (c : ascii)
  : option (config * opcode) :=
  if isSpace c then Some ((BeginString, stk), ScanSkipSpace)
  else if Ascii.eqb c Encode.dq then Some ((InString, stk), ScanBeginLiteral)
  else None.

Definition state0 (stk : list parse_state) (c : ascii)
  : option (config * opcode) :=
  if Ascii.eqb c "." then Some ((Dot, stk), ScanContinue)
  else if Ascii.eqb c "e" || Ascii.eqb c "E" then Some ((StE, stk), ScanContinue)
  else stateEndValue stk c.

Definition stateESign (stk : list parse_state) (c : ascii)
  : option (config * opcode) :=
  if isDigit c then Some ((E0, stk), ScanContinue) else None.

(** [s.step(s, c)]. *)
Definition step (cfg : config) (c : ascii) : option (config * opcode) :=
  let '(st, stk) := cfg in
  match st with
  | BeginValueOrEmpty =>
      if isSpace c then Some ((BeginValueOrEmpty, stk), ScanSkipSpace)
      else if Ascii.eqb c "]" then stateEndValue stk c
      else stateBeginValue stk c
  | BeginValue => stateBeginValue stk c
  | BeginStringOrEmpty =>
      if isSpace c then Some ((BeginStringOrEmpty, stk), ScanSkipSpace)
      else if Ascii.eqb c "}" then
        match stk with
        | _ :: stk' => stateEndValue (ParseObjectValue :: stk') c
        | [] => None
        end
      else stateBeginString stk c
  | BeginString => stateBeginString stk c
  | EndValue => stateEndValue stk c
  | EndTop => stateEndTop stk c
  | InString =>
      if Ascii.eqb c Encode.dq then Some ((EndValue, stk), ScanContinue)
      else if Ascii.eqb c Encode.backslash then Some ((InStringEsc, stk), ScanContinue)
      else if (nat_of_ascii c <? 32)%nat then None
      else Some ((InString, stk), ScanContinue)
  | InStringEsc =>
      if Ascii.eqb c "b" || Ascii.eqb c "f" || Ascii.eqb c "n" || Ascii.eqb c "r"
         || Ascii.eqb c "t" || Ascii.eqb c Encode.backslash || Ascii.eqb c "/"
         || Ascii.eqb c Encode.dq
      then Some ((InString, stk), ScanContinue)
      else if Ascii.eqb c "u" then Some ((InStringEscU 4, stk), ScanContinue)
      else None
  | InStringEscU n =>
      if isHex c then
        match n with
        | S (S n') => Some ((InStringEscU (S n'), stk), ScanContinue)
        | _ => Some ((InString, stk), ScanContinue)
        end
      else None
  | Neg =>
      if Ascii.eqb c "0" then Some ((St0, stk), ScanContinue)
      else if Encode.between 49 57 c then Some ((St1, stk), ScanContinue)
      else None
  | St1 => if isDigit c then Some ((St1, stk), ScanContinue) else state0 stk c
  | St0 => state0 stk c
  | Dot => if isDigit c then Some ((Dot0, stk), ScanContinue) else None
  | Dot0 =>
      if isDigit c then Some ((Dot0, stk), ScanContinue)
      else if Ascii.eqb c "e" || Ascii.eqb c "E" then Some ((StE, stk), ScanContinue)
      else stateEndValue stk c
  | StE =>
      if Ascii.eqb c "+" || Ascii.eqb c "-" then Some ((ESign, stk), ScanContinue)
      else stateESign stk c
  | ESign => stateESign stk c
  | E0 => if isDigit c then Some ((E0, stk), ScanContinue) else stateEndValue stk c
  | InLiteral expect =>
      match expect with
      | String e rest =>
          if Ascii.eqb c e then
            match rest with
            | EmptyString => Some ((EndValue, stk), ScanContinue)
            | _ => Some ((InLiteral rest, stk), ScanContinue)
            end
          else None
      | EmptyString => None
      end
  end.

(** The scanner run over a text. *)
Fixpoint run (cfg : config) (s : string) : option config :=
  match s with
  | EmptyString => Some cfg
  | String c s' =>
      match step cfg c with
      | Some (cfg', _) => run cfg' s'
      | None => None
      end
  end.

Definition start : config := (BeginValue, []).

(** [s.eof()]: the text has ended where a top-level value is complete. *)
Definition at_end (cfg : config) : bool :=
  match cfg with
  | (EndTop, _) => true
  | _ =>
      match step cfg " " with
      | Some ((EndTop, _), _) => true
      | _ => false
      end
  end.

(** [checkValid(data, scan)] returns nil. *)
Definition checkValid (data : string) : bool :=
  match run start data with
  | Some cfg => at_end cfg
  | None => false
  end.

Definition is_cut (op : opcode) : bool :=
  match op with
  | ScanObjectKey | ScanObjectValue | ScanArrayValue
  | ScanEndObject | ScanEndArray => true
  | _ => false
  end.

Definition is_end (op : opcode) : bool :=
  match op with ScanEndObject | ScanEndArray => true | _ => false end.

(** The pieces of an object or an array between the separators of its own
    level, which is how the decoder finds where each key and each value
    starts and ends: [cfg] is the scanner after the opening bracket, [cur]
    the piece being read. *)
Fixpoint chunks (cfg : config) (cur : string) (s : string) : list string :=
  match s with
  | EmptyString => []
  | String c s' =>
      match step cfg c with
      | None => []
      | Some (cfg', op) =>
          if is_cut op && (length cfg.2 =? 1)%nat then
            cur :: (if is_end op then [] else chunks cfg' "" s')
          else chunks cfg' (cur +:+ String c "") s'
      end
  end.

Fixpoint trim_left (s : string) : string :=
  match s with
  | String c s' => if isSpace c then trim_left s' else s
  | EmptyString => ""
  end.

Fixpoint trim_right (s : string) : string :=
  match s with
  | String c s' =>
      match trim_right s' with
      | EmptyString => if isSpace c then "" else String c ""
      | t => String c t
      end
  | EmptyString => ""
  end.

Definition trim (s : string) : string := trim_right (trim_left s).

(** The texts of the elements of an array text, or the texts of the keys
    and values of an object text in turn, without the white space around
    them. *)
Definition pieces (raw : string) : list string :=
  match raw with
  | String c body =>
      match step start c with
      | Some (cfg, _) =>
          match map trim (chunks cfg "" body) with
          | [EmptyString] => []
          | ps => ps
          end
      | None => []
      end
  | EmptyString => []
  end.

Fixpoint pairs (ps : list string) : list (string * string) :=
  match ps with
  | k :: v :: ps' => (k, v) :: pairs ps'
  | _ => []
  end.

(** The scanned value of a valid text: the text without the white space
    around it. *)
Definition value_of (data : string) : string := trim data.

(** [compact(dst, src, escape)] with [escape] on, as [json.Marshal] applies
    it to what a [MarshalJSON] returns: white space outside strings is
    dropped, the bytes [<], [>], [&] and the encodings of U+2028 and
    U+2029 are replaced by their escapes.  [skip] counts the bytes of such
    an encoding still to be passed over. *)
Fixpoint compact_from (cfg : config) (skip : nat) (src : string)
  : option string :=
  match src with
  | EmptyString => Some ""
  | String c src' =>
      match step cfg c with
      | None => None
      | Some (cfg', op) =>
          match skip with
          | S skip' => compact_from cfg' skip' src'
          | O =>
              if Ascii.eqb c "<" || Ascii.eqb c ">" || Ascii.eqb c "&" then
                option_map (String.append (Encode.escape_ascii c))
                           (compact_from cfg' 0 src')
              else
                match src' with
                | String c1 (String c2 _) =>
                    if Ascii.eqb c "226" && Ascii.eqb c1 "128"
                       && (Ascii.eqb c2 "168" || Ascii.eqb c2 "169")
                    then option_map (String.append (Encode.separator_escape c2))
                                    (compact_from cfg' 2 src')
                    else
                      match op with
                      | ScanSkipSpace | ScanEnd => compact_from cfg' 0 src'
                      | _ => option_map (String c) (compact_from cfg' 0 src')
                      end
                | _ =>
                    match op with
                    | ScanSkipSpace | ScanEnd => compact_from cfg' 0 src'
                    | _ => option_map (String c) (compact_from cfg' 0 src')
                    end
                end
          end
      end
  end.

Definition compact (src : string) : option string :=
  if checkValid src then compact_from start 0 src else None.

End Scanner.

(** ** Package [encoding/json]: string literals read back *)

Module Unquote.

Definition hexval (c : ascii) : option N :=
  let n := N_of_ascii c in
  if Scanner.isDigit c then Some (n - 48)%N
  else if Encode.between 97 102 c then Some (n - 87)%N
  else if Encode.between 65 70 c then Some (n - 55)%N
  else None.

(** [getu4(s)]: the number of a [\uXXXX] escape at the start of [s], and
    what follows it. *)
Definition getu4 (s : string) : option (N * string) :=
  match s with
  | String b (String u (String h1 (String h2 (String h3 (String h4 rest))))) =>
      if Ascii.eqb b Encode.backslash && Ascii.eqb u "u" then
        match hexval h1, hexval h2, hexval h3, hexval h4 with
        | Some a, Some b, Some c, Some d =>
            Some ((((a * 16 + b) * 16 + c) * 16 + d)%N, rest)
        | _, _, _, _ => None
        end
      else None
  | _ => None
  end.

Definition byte (n : N) : ascii := ascii_of_N n.

(** [utf8.EncodeRune]. *)
Definition EncodeRune (r : N) : string :=
  if (r <? 128)%N then String (byte r) ""
  else if (r <? 2048)%N then
    String (byte (192 + r / 64)) (String (byte (128 + r mod 64)) "")
  else if ((55296 <=? r) && (r <? 57344) || (1114111 <? r))%N then
    String "239" (String "191" (String "189" ""))
  else if (r <? 65536)%N then
    String (byte (224 + r / 4096))
      (String (byte (128 + (r / 64) mod 64)) (String (byte (128 + r mod 64)) ""))
  else
    String (byte (240 + r / 262144))
      (String (byte (128 + (r / 4096) mod 64))
         (String (byte (128 + (r / 64) mod 64))
            (String (byte (128 + r mod 64)) ""))).

Definition replacement : string := String "239" (String "191" (String "189" "")).

(** The escape after a backslash that is not [\u]. *)
Definition simple_escape (c : ascii) : option ascii :=
  if Ascii.eqb c Encode.dq || Ascii.eqb c Encode.backslash || Ascii.eqb c "/"
     || Ascii.eqb c "'" then Some c
  else if Ascii.eqb c "b" then Some "008"%char
  else if Ascii.eqb c "f" then Some "012"%char
  else if Ascii.eqb c "n" then Some "010"%char
  else if Ascii.eqb c "r" then Some "013"%char
  else if Ascii.eqb c "t" then Some "009"%char
  else None.

(** The loop of [unquoteBytes] over what is between the quotes; every
    turn takes at least one byte, and [fuel] bounds the turns. *)
Fixpoint unquote_body (fuel : nat) (s : string) : option string :=
  match fuel with
  | O => match s with EmptyString => Some "" | _ => None end
  | S fuel' =>
      match s with
      | EmptyString => Some ""
      | String c s1 =>
          if Ascii.eqb c Encode.backslash then
            match s1 with
            | EmptyString => None
            | String e s2 =>
                if Ascii.eqb e "u" then
                  match getu4 s with
                  | None => None
                  | Some (rr, rest) =>
                      if ((55296 <=? rr) && (rr <? 57344))%N then
                        match getu4 rest with
                        | Some (rr1, rest1) =>
                            if ((rr <? 56320) && (56320 <=? rr1) && (rr1 <? 57344))%N
                            then option_map
                                   (String.append
                                      (EncodeRune ((rr - 55296) * 1024
                                                   + (rr1 - 56320) + 65536)%N))
                                   (unquote_body fuel' rest1)
                            else option_map (String.append replacement)
                                            (unquote_body fuel' rest)
                        | None => option_map (String.append replacement)
                                             (unquote_body fuel' rest)
                        end
                      else option_map (String.append (EncodeRune rr))
                                      (unquote_body fuel' rest)
                  end
                else
                  match simple_escape e with
                  | Some b => option_map (String b) (unquote_body fuel' s2)
                  | None => None
                  end
            end
          else if Ascii.eqb c Encode.dq || (nat_of_ascii c <? 32)%nat then None
          else if (nat_of_ascii c <? 128)%nat then
            option_map (String c) (unquote_body fuel' s1)
          else
            let invalid :=
              option_map (String.append replacement) (unquote_body fuel' s1) in
            match s1 with
            | String c2 s2 =>
                if Encode.utf8_2 c c2 then
                  option_map (λ t, String c (String c2 t)) (unquote_body fuel' s2)
                else
                  match s2 with
                  | String c3 s3 =>
                      if Encode.utf8_3 c c2 c3 then
                        option_map (λ t, String c (String c2 (String c3 t)))
                                   (unquote_body fuel' s3)
                      else
                        match s3 with
                        | String c4 s4 =>
                            if Encode.utf8_4 c c2 c3 c4 then
                              option_map
                                (λ t, String c (String c2 (String c3 (String c4 t))))
                                (unquote_body fuel' s4)
                            else invalid
                        | EmptyString => invalid
                        end
                  | EmptyString => invalid
                  end
            | EmptyString => invalid
            end
      end
  end.

(** What is between the first and the last byte of [s]. *)
Fixpoint drop_last (s : string) : string :=
  match s with
  | EmptyString => ""
  | String c EmptyString => ""
  | String c s' => String c (drop_last s')
  end.

Fixpoint last_byte (s : string) : option ascii :=
  match s with
  | EmptyString => None
  | String c EmptyString => Some c
  | String c s' => last_byte s'
  end.

(** [unquoteBytes(s)]: the string a literal stands for. *)
Definition unquote (s : string) : option string :=
  match s with
  | String q s' =>
      if Ascii.eqb q Encode.dq then
        match last_byte s' with
        | Some q' =>
            if Ascii.eqb q' Encode.dq
            then unquote_body (String.length s') (drop_last s')
            else None
        | None => None
        end
      else None
  | EmptyString => None
  end.

End Unquote.

(** ** Texts the scanner passes over unchanged *)

Module Quiet.

Import Scanner.

(** After a byte E2, the next two bytes are there and are not those of
    U+2028 or U+2029. *)
Definition no_separator (v : string) : bool :=
  match v with
  | String c1 (String c2 _) =>
      negb (Ascii.eqb c1 "128" && (Ascii.eqb c2 "168" || Ascii.eqb c2 "169"))
  | _ => false
  end.

(** The byte [c], read with opcode [op] on a stack of length [n], is one
    that [compact] copies and that does not end a piece of a container
    of depth [d] or less. *)
Definition quiet_byte (d n : nat) (c : ascii) (op : opcode) (rest : string) : bool :=
  match op with ScanSkipSpace | ScanEnd => false | _ => true end
  && negb (is_cut op && (n <=? d)%nat)
  && negb (Ascii.eqb c "<" || Ascii.eqb c ">" || Ascii.eqb c "&")
  && (negb (Ascii.eqb c "226") || no_separator rest).

(** The scanner run over [v] from [cfg], provided every byte is quiet. *)
Fixpoint quiet (d : nat) (cfg : config) (v : string) : option config :=
  match v with
  | EmptyString => Some cfg
  | String c v' =>
      match step cfg c with
      | Some (cfg', op) =>
          if quiet_byte d (length cfg.2) c op v' then quiet d cfg' v' else None
      | None => None
      end
  end.

(** The states in which a value may be complete: after a literal, a
    string or a container, and inside a number. *)
Definition value_end (st : state) : bool :=
  match st with
  | EndValue | St0 | St1 | Dot0 | E0 => true
  | _ => false
  end.

(** A text is a value in compact form: read as the element of an array,
    it is one value with no white space outside strings and none of the
    bytes that [compact] rewrites; [compact] gives it back as it is, and
    it has no white space around it. *)
Definition canonical_value (v : string) : bool :=
  match quiet 1 (BeginValue, [ParseArrayValue]) v with
  | Some (st, [ParseArrayValue]) => value_end st
  | _ => false
  end
  && bool_decide (compact v = Some v)
  && bool_decide (trim v = v).

(** Well-formed UTF-8, by the cases of [quote_body]. *)
Fixpoint valid_utf8 (s : string) : bool :=
  match s with
  | EmptyString => true
  | String b1 s1 =>
      if (nat_of_ascii b1 <? 128)%nat then valid_utf8 s1
      else
        match s1 with
        | String b2 s2 =>
            if Encode.utf8_2 b1 b2 then valid_utf8 s2
            else
              match s2 with
              | String b3 s3 =>
                  if Encode.utf8_3 b1 b2 b3 then valid_utf8 s3
                  else
                    match s3 with
                    | String b4 s4 =>
                        if Encode.utf8_4 b1 b2 b3 b4 then valid_utf8 s4 else false
                    | EmptyString => false
                    end
              | EmptyString => false
              end
        | EmptyString => false
        end
  end.

(** The state after the closing bracket of a container: the end of the
    text when the stack is empty, the end of a value else. *)
Definition after (k : list Scanner.parse_state) : Scanner.state :=
  match k with [] => Scanner.EndTop | _ => Scanner.EndValue end.

End Quiet.

(** ** The records of a document *)

(** [type Links struct]: six strings, each tagged [omitempty]. *)
Record Links : Type := {
  Self : string;       (* json:"self,omitempty" *)
  Related : string;    (* json:"related,omitempty" *)
  First : string;      (* json:"first,omitempty" *)
  Previous : string;   (* json:"prev,omitempty" *)
  Next : string;       (* json:"next,omitempty" *)
  Last : string        (* json:"last,omitempty" *)
}.

(** [type RelationshipData struct]. *)
Record RelationshipData : Type := {
  RType : string;      (* Type string `json:"type"` *)
  RID : string         (* ID   string `json:"id"` *)
}.

(** The two containers of the source have the same two fields, a pointer
    and a slice of one element type: [DataContainer] holds [Data],
    [RelationshipDataContainer] holds [RelationshipData]. *)
Record Container (T : Type) : Type := {
  DataObject : option T;        (* DataObject *T *)
  DataArray : option (list T)   (* DataArray  []T *)
}.
Arguments DataObject {T} c.
Arguments DataArray {T} c.
Arguments Build_Container {T} DataObject DataArray.

Abbreviation RelationshipDataContainer := (Container RelationshipData).

(** [type Relationship struct]; [any] is Go's [interface{}]. *)
Record Relationship (any : Type) : Type := {
  RelLinks : option Links;                    (* json:"links,omitempty" *)
  RelData : option RelationshipDataContainer; (* json:"data,omitempty" *)
  RelMeta : option (gmap string any)          (* json:"meta,omitempty" *)
}.
Arguments RelLinks {any} r.
Arguments RelData {any} r.
Arguments RelMeta {any} r.
Arguments Build_Relationship {any} RelLinks RelData RelMeta.

(** [type Data struct]; [Attributes] is a [json.RawMessage], a byte slice
    that may be nil. *)
Record Data (any : Type) : Type := {
  DType : string;                                    (* json:"type" *)
  DID : string;                                      (* json:"id" *)
  Attributes : option string;                        (* json:"attributes" *)
  Relationships : option (gmap string (Relationship any));
                                                     (* json:"relationships,omitempty" *)
  DLinks : option Links                              (* json:"links,omitempty" *)
}.
Arguments DType {any} d.
Arguments DID {any} d.
Arguments Attributes {any} d.
Arguments Relationships {any} d.
Arguments DLinks {any} d.
Arguments Build_Data {any} DType DID Attributes Relationships DLinks.

Abbreviation DataContainer any := (Container (Data any)).

(** [type Document struct]. *)
Record Document (any : Type) : Type := {
  DocLinks : option Links;              (* json:"links,omitempty" *)
  DocData : option (DataContainer any); (* json:"data" *)
  Included : option (list (Data any));  (* json:"included,omitempty" *)
  Meta : option (gmap string any)       (* json:"meta,omitempty" *)
}.
Arguments DocLinks {any} d.
Arguments DocData {any} d.
Arguments Included {any} d.
Arguments Meta {any} d.
Arguments Build_Document {any} DocLinks DocData Included Meta.

(** The zero values. *)
Definition zero_Links : Links :=
  {| Self := ""; Related := ""; First := ""; Previous := ""; Next := ""; Last := "" |}.
Definition zero_RelationshipData : RelationshipData := {| RType := ""; RID := "" |}.
Definition zero_Container {T} : Container T :=
  {| DataObject := None; DataArray := None |}.
Definition zero_Relationship {any} : Relationship any :=
  {| RelLinks := None; RelData := None; RelMeta := None |}.
Definition zero_Data {any} : Data any :=
  {| DType := ""; DID := ""; Attributes := None; Relationships := None;
     DLinks := None |}.
Definition zero_Document {any} : Document any :=
  {| DocLinks := None; DocData := None; Included := None; Meta := None |}.

(** ** Encoding the records *)

(** A member of a struct: written unless it is tagged [omitempty] and
    empty. *)
Definition member (key : string) (omit : bool) (v : result string)
  : list (result (string * string)) :=
  if omit then [] else [v' ← v; Ok (key, v')].

(** What [json.Marshal] writes for the result of a [MarshalJSON]: the text
    compacted, or an error when the method failed or its text is not
    JSON. *)
Definition marshaler (r : result string) : result string :=
  match r with
  | Ok b =>
      match Scanner.compact b with
      | Some t => Ok t
      | None => Err MarshalerError
      end
  | Err _ => Err MarshalerError
  end.

Definition is_empty_string (s : string) : bool :=
  match s with EmptyString => true | _ => false end.

Definition is_nil {A} (p : option A) : bool :=
  match p with None => true | Some _ => false end.

(** [len(v) == 0] for a slice and for a map. *)
Definition empty_slice {A} (l : option (list A)) : bool :=
  match l with Some (_ :: _) => false | _ => true end.
Definition empty_map {A} (m : option (gmap string A)) : bool :=
  match m with Some m => bool_decide (m = ∅) | None => true end.

(** The members [json.Marshal] writes for a [Links]. *)
Definition Links_members (l : Links) : list (result (string * string)) :=
  member "self" (is_empty_string (Self l)) (Ok (Encode.quote (Self l)))
  ++ member "related" (is_empty_string (Related l)) (Ok (Encode.quote (Related l)))
  ++ member "first" (is_empty_string (First l)) (Ok (Encode.quote (First l)))
  ++ member "prev" (is_empty_string (Previous l)) (Ok (Encode.quote (Previous l)))
  ++ member "next" (is_empty_string (Next l)) (Ok (Encode.quote (Next l)))
  ++ member "last" (is_empty_string (Last l)) (Ok (Encode.quote (Last l))).

Definition marshal_struct (ms : list (result (string * string))) : result string :=
  ms' ← collect ms; Ok (Encode.object_text ms').

Definition marshal_Links (l : Links) : result string :=
  marshal_struct (Links_members l).

Definition RelationshipData_members (r : RelationshipData)
  : list (result (string * string)) :=
  member "type" false (Ok (Encode.quote (RType r)))
  ++ member "id" false (Ok (Encode.quote (RID r))).

Definition marshal_RelationshipData (r : RelationshipData) : result string :=
  marshal_struct (RelationshipData_members r).

(** [func (c *RelationshipDataContainer) MarshalJSON() ([]byte, error)]. *)
Definition RelationshipDataContainer_MarshalJSON (c : RelationshipDataContainer)
  : result string :=
  match DataArray c with
  | Some _ => Encode.marshal_slice marshal_RelationshipData (DataArray c)
  | None => Encode.marshal_ptr marshal_RelationshipData (DataObject c)
  end.

(** [json.RawMessage] is its own encoding, [null] when nil. *)
Definition RawMessage_MarshalJSON (m : option string) : result string :=
  match m with
  | None => Ok "null"
  | Some b => Ok b
  end.

Section Encoding.

Context {any : Type}.

(** [json.Marshal] of an [interface{}] value. *)
Variable marshal_any : any → result string.

Definition Relationship_members (r : Relationship any)
  : list (result (string * string)) :=
  member "links" (is_nil (RelLinks r)) (Encode.marshal_ptr marshal_Links (RelLinks r))
  ++ member "data" (is_nil (RelData r))
       (match RelData r with
        | Some c => marshaler (RelationshipDataContainer_MarshalJSON c)
        | None => Ok "null"
        end)
  ++ member "meta" (empty_map (RelMeta r)) (Encode.marshal_map marshal_any (RelMeta r)).

Definition marshal_Relationship (r : Relationship any) : result string :=
  marshal_struct (Relationship_members r).

Definition Data_members (d : Data any) : list (result (string * string)) :=
  member "type" false (Ok (Encode.quote (DType d)))
  ++ member "id" false (Ok (Encode.quote (DID d)))
  ++ member "attributes" false (marshaler (RawMessage_MarshalJSON (Attributes d)))
  ++ member "relationships" (empty_map (Relationships d))
       (Encode.marshal_map marshal_Relationship (Relationships d))
  ++ member "links" (is_nil (DLinks d)) (Encode.marshal_ptr marshal_Links (DLinks d)).

Definition marshal_Data (d : Data any) : result string :=
  marshal_struct (Data_members d).

(** [func (c *DataContainer) MarshalJSON() ([]byte, error)]. *)
Definition DataContainer_MarshalJSON (c : DataContainer any) : result string :=
  match DataArray c with
  | Some _ => Encode.marshal_slice marshal_Data (DataArray c)
  | None => Encode.marshal_ptr marshal_Data (DataObject c)
  end.

(** A nil [*DataContainer] is written as [null] without a call of its
    method. *)
Definition Document_members (d : Document any) : list (result (string * string)) :=
  member "links" (is_nil (DocLinks d)) (Encode.marshal_ptr marshal_Links (DocLinks d))
  ++ member "data" false
       (match DocData d with
        | Some c => marshaler (DataContainer_MarshalJSON c)
        | None => Ok "null"
        end)
  ++ member "included" (empty_slice (Included d))
       (Encode.marshal_slice marshal_Data (Included d))
  ++ member "meta" (empty_map (Meta d)) (Encode.marshal_map marshal_any (Meta d)).

(** [json.Marshal(doc)]. *)
Definition marshal_Document (d : Document any) : result string :=
  marshal_struct (Document_members d).

End Encoding.

(** ** Package [encoding/json]: decoding *)

(** What a decoding leaves: the value as it now is (Go writes through the
    pointer it is given, also when it fails), the first error it saved
    and went on from, and the error it stopped on. *)
Record decoded (A : Type) : Type := Decoded {
  now : A;
  saved : option error;
  abort : option error
}.
Arguments Decoded {A} now saved abort.
Arguments now {A} d.
Arguments saved {A} d.
Arguments abort {A} d.

Definition first_error (a b : option error) : option error :=
  match a with Some _ => a | None => b end.

Module Decode.

Definition done {A} (a : A) : decoded A := Decoded a None None.

(** The value is of a kind the Go type cannot take: the error is saved,
    the value skipped. *)
Definition mismatch {A} (field : string) (a : A) : decoded A :=
  Decoded a (Some (UnmarshalTypeError field)) None.

Definition map_now {A B} (f : A → B) (d : decoded A) : decoded B :=
  Decoded (f (now d)) (saved d) (abort d).

(** [first] has been decoded; unless it stopped, go on with [next]. *)
Definition and_then {A} (first : decoded A) (next : A → decoded A) : decoded A :=
  match abort first with
  | Some _ => first
  | None =>
      let d := next (now first) in
      Decoded (now d) (first_error (saved first) (saved d)) (abort d)
  end.

Inductive kind : Type := KObject | KArray | KString | KNull | KOther.

(** The kind of a value, told from its first byte. *)
Definition kind_of (raw : string) : kind :=
  match raw with
  | String c _ =>
      if Ascii.eqb c "{" then KObject
      else if Ascii.eqb c "[" then KArray
      else if Ascii.eqb c Encode.dq then KString
      else if Ascii.eqb c "n" then KNull
      else KOther
  | EmptyString => KOther
  end.

(** One letter of a field name against the start of a key, under simple
    case folding: the two ASCII cases, U+017F for [s], U+212A for [k]. *)
Definition fold_letter (p : ascii) (s : string) : option string :=
  match s with
  | String c s' =>
      if Ascii.eqb (Regexp.lower c) p then Some s'
      else
        match s' with
        | String c1 s1 =>
            if Ascii.eqb p "s" && Ascii.eqb c "197" && Ascii.eqb c1 "191"
            then Some s1
            else
              match s1 with
              | String c2 s2 =>
                  if Ascii.eqb p "k" && Ascii.eqb c "226" && Ascii.eqb c1 "132"
                     && Ascii.eqb c2 "170"
                  then Some s2 else None
              | EmptyString => None
              end
        | EmptyString => None
        end
  | EmptyString => None
  end.

Fixpoint fold_eq (name key : string) : bool :=
  match name with
  | EmptyString => is_empty_string key
  | String p name' =>
      match fold_letter p key with
      | Some key' => fold_eq name' key'
      | None => false
      end
  end.

(** The field a key stands for: the one of that very name, else the first
    whose name is equal to it under folding. *)
Definition field_of (names : list string) (key : string) : option string :=
  match List.find (String.eqb key) names with
  | Some n => Some n
  | None => List.find (λ n, fold_eq n key) names
  end.

(** A value into a [string]. *)
Definition into_string (field raw : string) (cur : string) : decoded string :=
  match kind_of raw with
  | KString =>
      match Unquote.unquote raw with
      | Some s => done s
      | None => Decoded cur None (Some SyntaxError)
      end
  | KNull => done cur
  | _ => mismatch field cur
  end.

(** The members of an object in turn, each handed to [set] with its key. *)
Fixpoint into_members {A} (set : string → string → A → decoded A)
    (ms : list (string * string)) (a : A) : decoded A :=
  match ms with
  | [] => done a
  | (klit, vraw) :: ms' =>
      match Unquote.unquote klit with
      | Some key => and_then (set key vraw a) (into_members set ms')
      | None => Decoded a None (Some SyntaxError)
      end
  end.

(** A value into a struct. *)
Definition into_struct {A} (field : string)
    (set : string → string → A → decoded A) (raw : string) (cur : A) : decoded A :=
  match kind_of raw with
  | KObject => into_members set (Scanner.pairs (Scanner.pieces raw)) cur
  | KNull => done cur
  | _ => mismatch field cur
  end.

(** A value into a pointer: [null] makes it nil, anything else is decoded
    into what it points to, which is allocated first when it is nil. *)
Definition into_ptr {A} (zero : A) (dec : string → A → decoded A)
    (raw : string) (cur : option A) : decoded (option A) :=
  match kind_of raw with
  | KNull => done None
  | _ => map_now Some (dec raw (default zero cur))
  end.

(** The elements of an array into a slice: the element at an index the
    slice already has is decoded into, the others start from zero. *)
Fixpoint into_elems {A} (zero : A) (dec : string → A → decoded A)
    (raws : list string) (old : list A) : decoded (list A) :=
  match raws with
  | [] => done []
  | raw :: raws' =>
      let d := dec raw (default zero (head old)) in
      match abort d with
      | Some _ => map_now (λ a, a :: tail old) d
      | None =>
          let ds := into_elems zero dec raws' (tail old) in
          Decoded (now d :: now ds) (first_error (saved d) (saved ds)) (abort ds)
      end
  end.

(** A value into a slice: [null] makes it nil, an array sets it, empty
    and not nil when the array is empty. *)
Definition into_slice {A} (field : string) (zero : A)
    (dec : string → A → decoded A) (raw : string) (cur : option (list A))
  : decoded (option (list A)) :=
  match kind_of raw with
  | KNull => done None
  | KArray =>
      map_now Some (into_elems zero dec (Scanner.pieces raw) (default [] cur))
  | _ => mismatch field cur
  end.

(** The members of an object into a map: each value is decoded from zero
    and stored under its key, unless its decoding stopped. *)
Fixpoint into_entries {A} (zero : A) (dec : string → A → decoded A)
    (ms : list (string * string)) (m : gmap string A) : decoded (gmap string A) :=
  match ms with
  | [] => done m
  | (klit, vraw) :: ms' =>
      match Unquote.unquote klit with
      | Some key =>
          let d := dec vraw zero in
          match abort d with
          | Some _ => Decoded m (saved d) (abort d)
          | None =>
              let ds := into_entries zero dec ms' (<[key := now d]> m) in
              Decoded (now ds) (first_error (saved d) (saved ds)) (abort ds)
          end
      | None => Decoded m None (Some SyntaxError)
      end
  end.

(** A value into a map: [null] makes it nil, an object adds its members to
    the map, which is made first when it is nil. *)
Definition into_map {A} (field : string) (zero : A)
    (dec : string → A → decoded A) (raw : string) (cur : option (gmap string A))
  : decoded (option (gmap string A)) :=
  match kind_of raw with
  | KNull => done None
  | KObject =>
      map_now Some
        (into_entries zero dec (Scanner.pairs (Scanner.pieces raw)) (default ∅ cur))
  | _ => mismatch field cur
  end.

(** A value into a pointer whose type has an [UnmarshalJSON]: [null]
    makes it nil without a call, any other value is handed to the method
    as it is written, and an error of the method stops the decoding. *)
Definition into_unmarshaler {A} (zero : A)
    (UnmarshalJSON : A → string → A * option error)
    (raw : string) (cur : option A) : decoded (option A) :=
  match kind_of raw with
  | KNull => done None
  | _ =>
      let '(a, e) := UnmarshalJSON (default zero cur) raw in
      Decoded (Some a) None e
  end.

(** [json.Unmarshal(data, &v)]: nothing is written unless the whole text
    is valid; the error returned is the one the decoding stopped on, else
    the first it saved. *)
Definition Unmarshal {A} (dec : string → A → decoded A) (data : string) (v : A)
  : A * option error :=
  if Scanner.checkValid data then
    let d := dec (Scanner.value_of data) v in
    (now d, first_error (abort d) (saved d))
  else (v, Some SyntaxError).

End Decode.

(** ** Decoding the records *)

Definition Links_names : list string :=
  ["self"; "related"; "first"; "prev"; "next"; "last"].

Definition Links_set (key raw : string) (l : Links) : decoded Links :=
  match Decode.field_of Links_names key with
  | Some "self" =>
      Decode.map_now (λ s, {| Self := s; Related := Related l; First := First l;
                              Previous := Previous l; Next := Next l; Last := Last l |})
        (Decode.into_string "self" raw (Self l))
  | Some "related" =>
      Decode.map_now (λ s, {| Self := Self l; Related := s; First := First l;
                              Previous := Previous l; Next := Next l; Last := Last l |})
        (Decode.into_string "related" raw (Related l))
  | Some "first" =>
      Decode.map_now (λ s, {| Self := Self l; Related := Related l; First := s;
                              Previous := Previous l; Next := Next l; Last := Last l |})
        (Decode.into_string "first" raw (First l))
  | Some "prev" =>
      Decode.map_now (λ s, {| Self := Self l; Related := Related l; First := First l;
                              Previous := s; Next := Next l; Last := Last l |})
        (Decode.into_string "prev" raw (Previous l))
  | Some "next" =>
      Decode.map_now (λ s, {| Self := Self l; Related := Related l; First := First l;
                              Previous := Previous l; Next := s; Last := Last l |})
        (Decode.into_string "next" raw (Next l))
  | Some "last" =>
      Decode.map_now (λ s, {| Self := Self l; Related := Related l; First := First l;
                              Previous := Previous l; Next := Next l; Last := s |})
        (Decode.into_string "last" raw (Last l))
  | _ => Decode.done l
  end.

Definition into_Links : string → Links → decoded Links :=
  Decode.into_struct "Links" Links_set.

Definition RelationshipData_set (key raw : string) (r : RelationshipData)
  : decoded RelationshipData :=
  match Decode.field_of ["type"; "id"] key with
  | Some "type" =>
      Decode.map_now (λ s, {| RType := s; RID := RID r |})
        (Decode.into_string "type" raw (RType r))
  | Some "id" =>
      Decode.map_now (λ s, {| RType := RType r; RID := s |})
        (Decode.into_string "id" raw (RID r))
  | _ => Decode.done r
  end.

Definition into_RelationshipData : string → RelationshipData → decoded RelationshipData :=
  Decode.into_struct "RelationshipData" RelationshipData_set.

(** [func (c *RelationshipDataContainer) UnmarshalJSON(payload []byte) error]:
    the container after the call and the error returned. *)
Definition RelationshipDataContainer_UnmarshalJSON
    (c : RelationshipDataContainer) (payload : string)
  : RelationshipDataContainer * option error :=
  if GoStrings.HasPrefix payload "{" then
    let '(o, e) :=
      Decode.Unmarshal (Decode.into_ptr zero_RelationshipData into_RelationshipData)
        payload (DataObject c) in
    ({| DataObject := o; DataArray := DataArray c |}, e)
  else if GoStrings.HasPrefix payload "[" then
    let '(a, e) :=
      Decode.Unmarshal
        (Decode.into_slice "RelationshipData" zero_RelationshipData into_RelationshipData)
        payload (DataArray c) in
    ({| DataObject := DataObject c; DataArray := a |}, e)
  else (c, Some (ErrorString "Invalid json for relationship data array/object")).

Section Decoding.

Context {any : Type}.

(** [json.Unmarshal] of a valid text into an [interface{}]. *)
Variable unmarshal_any : string → any.

Definition into_any (raw : string) (cur : any) : decoded any :=
  Decode.done (unmarshal_any raw).

(** A map of [interface{}] decodes each value afresh; the zero value
    handed to [into_entries] is not looked at. *)
Definition into_meta (raw : string) (cur : option (gmap string any))
  : decoded (option (gmap string any)) :=
  match Decode.kind_of raw with
  | Decode.KNull => Decode.done None
  | Decode.KObject =>
      Decode.map_now Some
        (Decode.into_entries (unmarshal_any "null") into_any
           (Scanner.pairs (Scanner.pieces raw)) (default ∅ cur))
  | _ => Decode.mismatch "meta" cur
  end.

Definition Relationship_set (key raw : string) (r : Relationship any)
  : decoded (Relationship any) :=
  match Decode.field_of ["links"; "data"; "meta"] key with
  | Some "links" =>
      Decode.map_now (λ l, {| RelLinks := l; RelData := RelData r; RelMeta := RelMeta r |})
        (Decode.into_ptr zero_Links into_Links raw (RelLinks r))
  | Some "data" =>
      Decode.map_now (λ c, {| RelLinks := RelLinks r; RelData := c; RelMeta := RelMeta r |})
        (Decode.into_unmarshaler zero_Container
           RelationshipDataContainer_UnmarshalJSON raw (RelData r))
  | Some "meta" =>
      Decode.map_now (λ m, {| RelLinks := RelLinks r; RelData := RelData r; RelMeta := m |})
        (into_meta raw (RelMeta r))
  | _ => Decode.done r
  end.

Definition into_Relationship : string → Relationship any → decoded (Relationship any) :=
  Decode.into_struct "Relationship" Relationship_set.

(** [func (m *RawMessage) UnmarshalJSON(data []byte) error] copies the
    text, whatever value it is. *)
Definition into_RawMessage (raw : string) (cur : option string)
  : decoded (option string) :=
  Decode.done (Some raw).

Definition Data_set (key raw : string) (d : Data any) : decoded (Data any) :=
  match Decode.field_of ["type"; "id"; "attributes"; "relationships"; "links"] key with
  | Some "type" =>
      Decode.map_now (λ s, {| DType := s; DID := DID d; Attributes := Attributes d;
                              Relationships := Relationships d; DLinks := DLinks d |})
        (Decode.into_string "type" raw (DType d))
  | Some "id" =>
      Decode.map_now (λ s, {| DType := DType d; DID := s; Attributes := Attributes d;
                              Relationships := Relationships d; DLinks := DLinks d |})
        (Decode.into_string "id" raw (DID d))
  | Some "attributes" =>
      Decode.map_now (λ a, {| DType := DType d; DID := DID d; Attributes := a;
                              Relationships := Relationships d; DLinks := DLinks d |})
        (into_RawMessage raw (Attributes d))
  | Some "relationships" =>
      Decode.map_now (λ m, {| DType := DType d; DID := DID d; Attributes := Attributes d;
                              Relationships := m; DLinks := DLinks d |})
        (Decode.into_map "relationships" zero_Relationship into_Relationship raw
           (Relationships d))
  | Some "links" =>
      Decode.map_now (λ l, {| DType := DType d; DID := DID d; Attributes := Attributes d;
                              Relationships := Relationships d; DLinks := l |})
        (Decode.into_ptr zero_Links into_Links raw (DLinks d))
  | _ => Decode.done d
  end.

Definition into_Data : string → Data any → decoded (Data any) :=
  Decode.into_struct "Data" Data_set.

(** [func (c *DataContainer) UnmarshalJSON(payload []byte) error]: the
    container after the call and the error returned. *)
Definition DataContainer_UnmarshalJSON (c : DataContainer any) (payload : string)
  : DataContainer any * option error :=
  if GoStrings.HasPrefix payload "{" then
    let '(o, e) :=
      Decode.Unmarshal (Decode.into_ptr zero_Data into_Data) payload (DataObject c) in
    ({| DataObject := o; DataArray := DataArray c |}, e)
  else if GoStrings.HasPrefix payload "[" then
    let '(a, e) :=
      Decode.Unmarshal (Decode.into_slice "Data" zero_Data into_Data)
        payload (DataArray c) in
    ({| DataObject := DataObject c; DataArray := a |}, e)
  else (c, Some (ErrorString "expected a JSON encoded object or array")).

Definition Document_set (key raw : string) (d : Document any) : decoded (Document any) :=
  match Decode.field_of ["links"; "data"; "included"; "meta"] key with
  | Some "links" =>
      Decode.map_now (λ l, {| DocLinks := l; DocData := DocData d;
                              Included := Included d; Meta := Meta d |})
        (Decode.into_ptr zero_Links into_Links raw (DocLinks d))
  | Some "data" =>
      Decode.map_now (λ c, {| DocLinks := DocLinks d; DocData := c;
                              Included := Included d; Meta := Meta d |})
        (Decode.into_unmarshaler zero_Container DataContainer_UnmarshalJSON raw
           (DocData d))
  | Some "included" =>
      Decode.map_now (λ i, {| DocLinks := DocLinks d; DocData := DocData d;
                              Included := i; Meta := Meta d |})
        (Decode.into_slice "included" zero_Data into_Data raw (Included d))
  | Some "meta" =>
      Decode.map_now (λ m, {| DocLinks := DocLinks d; DocData := DocData d;
                              Included := Included d; Meta := m |})
        (into_meta raw (Meta d))
  | _ => Decode.done d
  end.

Definition into_Document : string → Document any → decoded (Document any) :=
  Decode.into_struct "Document" Document_set.

(** [json.Unmarshal(data, &doc)]. *)
Definition unmarshal_Document (data : string) (d : Document any)
  : Document any * option error :=
  Decode.Unmarshal into_Document data d.

End Decoding.

(** ** [CustomObject] *)

Section CustomObject.

(** The values a host object holds in its fields: Go's [interface{}]. *)
Context {V : Type}.

(** [json.Marshal] of such a value. *)
Variable marshal_value : V → result string.

(** What reflection shows of one field of a struct: its name, the
    result of [Tag.Lookup("json")] ([None] when the tag has no [json]
    key), whether the field is exported, and its current value. *)
Record StructField : Type := {
  Name : string;
  JSONTag : option string;
  Exported : bool;
  Value : V
}.

(** [type CustomObject struct { Fields []string; Object interface{} }].
    The object is the struct behind [Object], as the list of its fields
    in the order of their declaration. *)
Record CustomObject : Type := {
  Fields : list string;
  Object : list StructField
}.

(** Modelled from the spec: [getType] is called by the source and is
    not part of it.  The spec has it give the host type's declared
    field-naming metadata; that is the field list, ranged over with
    [NumField] and [Field(i)]. *)
Definition getType (o : list StructField) : list StructField := o.

(** Modelled from the spec: [getValue] is called by the source and is
    not part of it.  The spec has it give dynamic access to the current
    values of the host's fields. *)
Definition getValue (o : list StructField) : list StructField := o.

(** The wire name the source derives from a field: the first group of
    the tag expression, unless it is ["-"]. *)
Definition wire_name (f : StructField) : option string :=
  match JSONTag f with
  | Some tag =>
      match Regexp.tag_submatch tag with
      | Some name => if String.eqb name "-" then None else Some name
      | None => None
      end
  | None => None
  end.

(** One turn of the loop of [JSONToStruct]. *)
Definition JSONToStruct_step (res : gmap string string) (f : StructField)
  : gmap string string :=
  match JSONTag f with
  | Some tag =>
      match Regexp.tag_submatch tag with
      | Some name =>
          if negb (String.eqb name "-") then <[name := Name f]> res else res
      | None => res
      end
  | None => res
  end.

(** [func (co CustomObject) JSONToStruct() map[string]string]. *)
Definition JSONToStruct (co : CustomObject) : gmap string string :=
  foldl JSONToStruct_step ∅ (getType (Object co)).

(** [ref.FieldByName(name)]: the field of that name, if there is one. *)
Definition FieldByName (ref : list StructField) (name : string)
  : option StructField :=
  List.find (λ f, String.eqb (Name f) name) ref.

(** [ref.FieldByName(name).Interface()]: it panics on the zero [Value]
    that a missing field gives and on a field that is not exported. *)
Definition field_interface (ref : list StructField) (name : string)
  : outcome V :=
  match FieldByName ref name with
  | None => Panics "reflect: call of reflect.Value.Interface on zero Value"
  | Some f =>
      if Exported f then Returns (Value f)
      else Panics "reflect.Value.Interface: cannot return value obtained from unexported field or method"
  end.

(** The loop of [MarshalJSON] over [co.Fields]: the state of [obj] when
    it ends.  A missing key of [dict] reads as the empty string. *)
Fixpoint project_loop (dict : gmap string string) (ref : list StructField)
    (fields : list string) (obj : gmap string V) : outcome (gmap string V) :=
  match fields with
  | [] => Returns obj
  | f :: fields' =>
      if negb (String.eqb (default "" (dict !! f)) "") then
        match field_interface ref (default "" (dict !! f)) with
        | Returns v => project_loop dict ref fields' (<[f := v]> obj)
        | Panics msg => Panics msg
        end
      else project_loop dict ref fields' obj
  end.

(** The mapping [obj] that [MarshalJSON] builds and then encodes. *)
Definition project (co : CustomObject) : outcome (gmap string V) :=
  project_loop (JSONToStruct co) (getValue (Object co)) (Fields co) ∅.

(** [func (co CustomObject) MarshalJSON() ([]byte, error)]. *)
Definition CustomObject_MarshalJSON (co : CustomObject)
  : outcome (result string) :=
  match project co with
  | Returns obj => Returns (Encode.marshal_map marshal_value (Some obj))
  | Panics msg => Panics msg
  end.

(** The field a requested name stands for: the last field of the host
    with that wire name. *)
Definition resolve (o : list StructField) (name : string)
  : option StructField :=
  last (List.filter (λ f, bool_decide (wire_name f = Some name)) o).

End CustomObject.

Arguments StructField V : clear implicits.
Arguments CustomObject V : clear implicits.

(** The host of the projection example, with string values: [Name] with
    wire name [name], [Secret] tagged ["-"]. *)
Definition example_host : list (StructField string) :=
  [ {| Name := "Name"; JSONTag := Some "name"; Exported := true; Value := "Ann" |};
    {| Name := "Secret"; JSONTag := Some "-"; Exported := true; Value := "pw" |} ].

(** A host with an exported field and a tagged field that is not
    exported: [struct { Name string `json:"name"`; secret string
    `json:"secret"` }]. *)
Definition mixed_host : list (StructField string) :=
  [ {| Name := "Name"; JSONTag := Some "name"; Exported := true; Value := "Ann" |};
    {| Name := "secret"; JSONTag := Some "secret"; Exported := false; Value := "pw" |} ].

(** ** [FilterFields] *)

(** [type FilterFields map[string][]string]; [None] is the nil map. *)
Abbreviation FilterFields := (option (gmap string (list string))).

(** [url.Values] is [map[string][]string].  The source ranges over it, and
    Go leaves the order of a range over a map unspecified: the query is
    given as the sequence of its entries in the order the range visits
    them. *)
Abbreviation Values := (list (string * list string)).

(** The value [ParseQuery] stores for a key with values [v]. *)
Definition requested (v : list string) : list string :=
  GoStrings.Split (GoStrings.Join v ",") ",".

(** [func (f FilterFields) ParseQuery(q url.Values)].  A map is a
    reference: the result is the state of [f] when the call returns.
    Assigning to an entry of a nil map panics. *)
Fixpoint ParseQuery (f : FilterFields) (q : Values) : outcome FilterFields :=
  match q with
  | [] => Returns f
  | (k, v) :: q' =>
      match Regexp.fields_submatch k with
      | Some capture =>
          match f with
          | Some m => ParseQuery (Some (<[capture := requested v]> m)) q'
          | None => Panics "assignment to entry in nil map"
          end
      | None => ParseQuery f q'
      end
  end.

(** The entries of a query whose key the pattern captures as [c]. *)
Definition captures (c : string) (kv : string * list string) : bool :=
  bool_decide (Regexp.fields_submatch kv.1 = Some c).

(** The entries of a query whose key matches the pattern. *)
Definition matching (kv : string * list string) : bool :=
  match Regexp.fields_submatch kv.1 with Some _ => true | None => false end.

(** The query of the fieldset example, in the two orders a range over the
    map can visit its two keys. *)
Definition articles_query : Values :=
  [("fields[articles]", ["title,body"]); ("fields[Articles]", ["author"])].
Definition articles_query_rev : Values :=
  [("fields[Articles]", ["author"]); ("fields[articles]", ["title,body"])].

(** ** Sample values *)

(** Dynamic values given by their JSON text, for the examples: encoding
    compacts the text, decoding keeps it. *)
Definition marshal_text (v : string) : result string := marshaler (Ok v).
Definition unmarshal_text (raw : string) : string := raw.

(** The fields of a [Links] with their keys, in the order of the struct. *)
Definition Links_fields (l : Links) : list (string * string) :=
  [("self", Self l); ("related", Related l); ("first", First l);
   ("prev", Previous l); ("next", Next l); ("last", Last l)].

Definition quoted (s : string) : string :=
  String Encode.dq (s +:+ String Encode.dq "").

(** [{"data":"x"}] and [{"data":1}]. *)
Definition data_is_string : string := "{" +:+ quoted "data" +:+ ":" +:+ quoted "x" +:+ "}".
Definition data_is_number : string := "{" +:+ quoted "data" +:+ ":1}".

(** A resource object with its type and identifier set and nothing else,
    and the document that has it as its single primary datum. *)
Definition bare_resource : Data string :=
  {| DType := "a"; DID := "1"; Attributes := None; Relationships := None;
     DLinks := None |}.
Definition bare_document : Document string :=
  {| DocLinks := None;
     DocData := Some {| DataObject := Some bare_resource; DataArray := None |};
     Included := None; Meta := None |}.

(** An article with its author, and a document that carries it with the
    author included; the dynamic values are given by their JSON text. *)
Definition sample_article : Data string :=
  {| DType := "articles"; DID := "1";
     Attributes := Some ("{" +:+ quoted "title" +:+ ":" +:+ quoted "JSON API" +:+ "}");
     Relationships :=
       Some {[ "author" :=
                 {| RelLinks :=
                      Some {| Self := "/articles/1/relationships/author";
                              Related := "/articles/1/author"; First := "";
                              Previous := ""; Next := ""; Last := "" |};
                    RelData :=
                      Some {| DataObject := Some {| RType := "people"; RID := "9" |};
                              DataArray := None |};
                    RelMeta := Some {[ "verified" := "true" ]} |} ]};
     DLinks := Some {| Self := "/articles/1"; Related := ""; First := "";
                       Previous := ""; Next := ""; Last := "" |} |}.

Definition sample_person : Data string :=
  {| DType := "people"; DID := "9";
     Attributes := Some ("{" +:+ quoted "name" +:+ ":" +:+ quoted "Dan" +:+ "}");
     Relationships := None; DLinks := None |}.


(** A document with nothing to write but [data]: no links, a container
    with neither field set, an empty [Included] and an empty [Meta]. *)
Definition absent_document : Document string :=
  {| DocLinks := None; DocData := Some zero_Container;
     Included := Some []; Meta := Some ∅ |}.

(** ** Notions the further properties are stated with *)

(** The byte [b] occurs in [s]. *)
Fixpoint has_byte (b : ascii) (s : string) : bool :=
  match s with
  | EmptyString => false
  | String c s' => Ascii.eqb c b || has_byte b s'
  end.

(** The type names the keys of a query are captured as, in the order of
    the range. *)
Definition captured_names (q : Values) : list string :=
  omap (λ kv : string * list string, Regexp.fields_submatch kv.1) q.

(** The message of the panic of [Interface()] on a field that is not
    exported. *)
Definition unexported_message : string :=
  "reflect.Value.Interface: cannot return value obtained from unexported field or method".

(** ** Value texts *)

(** The text [v] is one JSON value in the form [json.Marshal] writes:
    wherever a value may stand inside a container, the scanner passes over
    it quietly and is then at the end of a value; it has no white space
    before or after it. *)
Definition value_text (v : string) : Prop :=
  (∃ c r, v = String c r ∧ Scanner.isSpace c = false ∧ c ≠ "]"%char) ∧
  Scanner.trim v = v ∧
  ∀ d k, k ≠ [] → (d ≤ length k)%nat →
    ∃ st, Quiet.quiet d (Scanner.BeginValue, k) v = Some (st, k)
          ∧ Quiet.value_end st = true.

(** A [Links] with the field of key [kv.1] set to [kv.2]. *)
Definition Links_update (kv : string * string) (l : Links) : Links :=
  if String.eqb kv.1 "self" then
    {| Self := kv.2; Related := Related l; First := First l;
       Previous := Previous l; Next := Next l; Last := Last l |}
  else if String.eqb kv.1 "related" then
    {| Self := Self l; Related := kv.2; First := First l;
       Previous := Previous l; Next := Next l; Last := Last l |}
  else if String.eqb kv.1 "first" then
    {| Self := Self l; Related := Related l; First := kv.2;
       Previous := Previous l; Next := Next l; Last := Last l |}
  else if String.eqb kv.1 "prev" then
    {| Self := Self l; Related := Related l; First := First l;
       Previous := kv.2; Next := Next l; Last := Last l |}
  else if String.eqb kv.1 "next" then
    {| Self := Self l; Related := Related l; First := First l;
       Previous := Previous l; Next := kv.2; Last := Last l |}
  else if String.eqb kv.1 "last" then
    {| Self := Self l; Related := Related l; First := First l;
       Previous := Previous l; Next := Next l; Last := kv.2 |}
  else l.

(** The strings of a reference are well-formed UTF-8. *)
Definition valid_RelationshipData (r : RelationshipData) : bool :=
  Quiet.valid_utf8 (RType r) && Quiet.valid_utf8 (RID r).

(** Exactly one of the two fields of a container is set, and what it
    holds passes [ok]. *)
Definition one_slot {T} (ok : T → bool) (c : Container T) : bool :=
  match DataObject c, DataArray c with
  | Some x, None => ok x
  | None, Some xs => forallb ok xs
  | _, _ => false
  end.

(** The text [json.Marshal] writes for a reference. *)
Definition RelationshipData_text (r : RelationshipData) : string :=
  Encode.object_text [("type", Encode.quote (RType r)); ("id", Encode.quote (RID r))].

(** ** Values that are read back as they were written *)

(** The strings of a [Links] are well-formed UTF-8. *)
Definition valid_Links (l : Links) : bool :=
  forallb (λ kv : string * string, Quiet.valid_utf8 kv.2) (Links_fields l).

(** A pointer is nil, or what it points to passes [ok]. *)
Definition ok_ptr {A} (ok : A → bool) (p : option A) : bool :=
  match p with
  | None => true
  | Some a => ok a
  end.

(** A map tagged [omitempty] is nil, or it has an entry, its keys are
    well-formed UTF-8 and its values pass [ok]. *)
Definition ok_map {A} (ok : A → bool) (m : option (gmap string A)) : bool :=
  match m with
  | None => true
  | Some m =>
      negb (bool_decide (m = ∅))
      && forallb (λ kv : string * A, Quiet.valid_utf8 kv.1 && ok kv.2) (map_to_list m)
  end.


Section ReadBack.

Context {any : Type}.

(** The dynamic values that are known to be read back. *)
Variable ok_any : any → bool.

Definition ok_Relationship (r : Relationship any) : bool :=
  ok_ptr valid_Links (RelLinks r)
  && ok_ptr (one_slot valid_RelationshipData) (RelData r)
  && ok_map ok_any (RelMeta r).

(** The attributes are set, to a value in compact form. *)
Definition ok_Data (d : Data any) : bool :=
  Quiet.valid_utf8 (DType d) && Quiet.valid_utf8 (DID d)
  && match Attributes d with
     | Some a => Quiet.canonical_value a
     | None => false
     end
  && ok_map ok_Relationship (Relationships d)
  && ok_ptr valid_Links (DLinks d).


End ReadBack.

(** [x] has an encoding, one value text, and decoding that text into
    [zero] gives [x]. *)
Definition reads_back {A} (enc : A → result string)
    (dec : string → A → decoded A) (zero x : A) : Prop :=
  ∃ t, enc x = Ok t ∧ value_text t ∧ dec t zero = Decode.done x.

(** The same, the encoding being an object. *)
Definition reads_back_object {A} (enc : A → result string)
    (dec : string → A → decoded A) (zero x : A) : Prop :=
  ∃ ms, enc x = Ok (Encode.object_text ms)
        ∧ Forall (λ kv : string * string, value_text kv.2) ms
        ∧ dec (Encode.object_text ms) zero = Decode.done x.

(** The members [ms] of a struct are all encoded, and decoding them with
    [set] takes the struct from [a] to [a']. *)
Definition members_read_back {A} (set : string → string → A → decoded A)
    (ms : list (result (string * string))) (a a' : A) : Prop :=
  ∃ ms', ms = map Ok ms'
         ∧ Forall (λ kv : string * string, value_text kv.2) ms'
         ∧ ∀ rest,
             Decode.into_members set
               (map (λ kv, (Encode.quote kv.1, kv.2)) ms' ++ rest) a
             = Decode.into_members set rest a'.

(** * Theorems *)

(** ** [ParseQuery] *)

Lemma ParseQuery_returns (m : gmap string (list string)) (q : Values) :
  ∃ m', ParseQuery (Some m) q = Returns (Some m').
Proof.
  revert m. induction q as [|[k v] q IH]; intros m; simpl; [eauto|].
  destruct (Regexp.fields_submatch k); auto.
Qed.

Lemma ParseQuery_lookup (m m' : gmap string (list string)) (q : Values) c :
  ParseQuery (Some m) q = Returns (Some m') →
  m' !! c = match last (List.filter (captures c) q) with
            | Some kv => Some (requested kv.2)
            | None => m !! c
            end.
Proof.
  revert m. induction q as [|[k v] q IH]; intros m; simpl.
  - intros [= <-]. done.
  - unfold captures at 1. simpl.
    destruct (Regexp.fields_submatch k) as [cap|] eqn:Hk.
    + intros H. rewrite (IH _ H). case_bool_decide as Hc.
      * injection Hc as ->. rewrite last_cons.
        destruct (last _); [done|]. simpl. by rewrite lookup_insert_eq.
      * destruct (last _); [done|]. rewrite lookup_insert_ne; [done|congruence].
    + intros H. rewrite (IH _ H). by rewrite bool_decide_eq_false_2.
Qed.

Lemma ParseQuery_matching (f : FilterFields) (q : Values) :
  ParseQuery f (List.filter matching q) = ParseQuery f q.
Proof.
  revert f. induction q as [|[k v] q IH]; intros f; simpl; [done|].
  unfold matching at 1. simpl.
  destruct (Regexp.fields_submatch k) as [cap|] eqn:Hk; simpl; [|done].
  rewrite Hk. destruct f; [apply IH|done].
Qed.

(** C5.  On an initialised mapping the fieldset parser returns for every
    query, it never fails.  After the call, the entry of a type name [c] is
    the comma-split of the comma-join of the values of the key that
    captured [c] (the one the range visited last, when several keys capture
    the same name), and it is what it was before when no key captures [c].
    Keys that do not match the pattern are ignored: dropping them from the
    query changes nothing. *)
Theorem ParseQuery_joins_and_splits
    (m : gmap string (list string)) (q : Values) :
  ∃ m' : gmap string (list string),
    ParseQuery (Some m) q = Returns (Some m') ∧
    (∀ c, m' !! c =
          match last (List.filter (captures c) q) with
          | Some kv => Some (GoStrings.Split (GoStrings.Join kv.2 ",") ",")
          | None => m !! c
          end) ∧
    ParseQuery (Some m) (List.filter matching q) = Returns (Some m').
Proof.
  destruct (ParseQuery_returns m q) as [m' Hm']. exists m'.
  split; [done|]. split.
  - intros c. apply (ParseQuery_lookup _ _ _ _ Hm').
  - by rewrite ParseQuery_matching.
Qed.

(** C6 as stated fails: the two keys of the example are captured as two
    different type names, so the mapping does not end with one entry. *)
Lemma articles_query_not_one_entry :
  ¬ ∃ m' : gmap string (list string),
      ParseQuery (Some ∅) articles_query = Returns (Some m') ∧ size m' = 1.
Proof.
  intros (m' & H & Hsz). vm_compute in H. injection H as <-.
  vm_compute in Hsz. discriminate.
Qed.

(** C6, amended.  Both keys of [fields[articles]=title,body] and
    [fields[Articles]=author] match the pattern, and the capture keeps the
    case of the key: in either order of the range the mapping ends with two
    entries, [articles] with [title; body] and [Articles] with [author].
    One entry with the last write winning is what two keys give that differ
    only in the case of the word [fields]. *)
Theorem articles_query_two_entries :
  Regexp.fields_submatch "fields[articles]" = Some "articles" ∧
  Regexp.fields_submatch "fields[Articles]" = Some "Articles" ∧
  ParseQuery (Some ∅) articles_query
  = Returns (Some {["articles" := ["title"; "body"]; "Articles" := ["author"]]}) ∧
  ParseQuery (Some ∅) articles_query_rev
  = Returns (Some {["articles" := ["title"; "body"]; "Articles" := ["author"]]}) ∧
  size ({["articles" := ["title"; "body"]; "Articles" := ["author"]]}
          : gmap string (list string)) = 2 ∧
  (∀ v w,
     ParseQuery (Some ∅) [("fields[articles]", v); ("FIELDS[articles]", w)]
     = Returns (Some {["articles" := requested w]})).
Proof.
  split; [reflexivity|]. split; [reflexivity|].
  split; [vm_compute; reflexivity|]. split; [vm_compute; reflexivity|].
  split; [vm_compute; reflexivity|].
  intros v w. simpl.
  change (Regexp.fields_submatch "fields[articles]") with (Some "articles").
  change (Regexp.fields_submatch "FIELDS[articles]") with (Some "articles").
  simpl. by rewrite insert_insert_eq, insert_empty.
Qed.

(** C9.  [ParseQuery] merges into the mapping: an entry whose key no
    matching query key captures is the same after the call, and no entry
    is removed. *)
Theorem ParseQuery_frame
    (m : gmap string (list string)) (q : Values) (c : string)
    (Hc : ∀ k v, In (k, v) q → Regexp.fields_submatch k ≠ Some c) :
  ∃ m' : gmap string (list string),
    ParseQuery (Some m) q = Returns (Some m') ∧
    m' !! c = m !! c ∧
    (∀ c', is_Some (m !! c') → is_Some (m' !! c')).
Proof.
  destruct (ParseQuery_returns m q) as [m' Hm']. exists m'.
  split; [done|]. split.
  - rewrite (ParseQuery_lookup _ _ _ c Hm').
    replace (List.filter (captures c) q) with (@nil (string * list string)); [done|].
    symmetry. clear Hm'. induction q as [|[k v] q IH]; [done|]. simpl.
    unfold captures at 1. simpl. rewrite bool_decide_eq_false_2.
    + apply IH. intros k' v' Hin. apply (Hc k' v'). by right.
    + apply (Hc k v). by left.
  - intros c' Hsome. rewrite (ParseQuery_lookup _ _ _ c' Hm').
    destruct (last _); [eauto|done].
Qed.

Lemma ParseQuery_frame_witness :
  ∃ m' : gmap string (list string),
    ParseQuery (Some {["people" := ["name"]]})
               [("fields[articles]", ["title,body"]); ("page", ["2"])]
    = Returns (Some m') ∧
    m' !! "people" = ({["people" := ["name"]]} : gmap string (list string)) !! "people" ∧
    (∀ c', is_Some (({["people" := ["name"]]} : gmap string (list string)) !! c') →
           is_Some (m' !! c')).
Proof.
  apply (ParseQuery_frame {["people" := ["name"]]}
           [("fields[articles]", ["title,body"]); ("page", ["2"])] "people").
  intros k v [H | [H | []]]; injection H as <- <-; vm_compute; discriminate.
Defined.

(** ** [CustomObject] *)

Section CustomObjectFacts.

Context {V : Type}.
Variable marshal_value : V → result string.

Implicit Types (o : list (StructField V)) (f : StructField V).

Lemma JSONToStruct_step_wire res f :
  JSONToStruct_step res f =
  match wire_name f with
  | Some name => <[name := Name f]> res
  | None => res
  end.
Proof.
  unfold JSONToStruct_step, wire_name.
  destruct (JSONTag f); [|done].
  destruct (Regexp.tag_submatch _); [|done].
  by destruct (String.eqb _ _).
Qed.

Lemma JSONToStruct_fold o res name :
  foldl JSONToStruct_step res o !! name =
  match resolve o name with
  | Some f => Some (Name f)
  | None => res !! name
  end.
Proof.
  unfold resolve. revert res.
  induction o as [|f o IH]; intros res; simpl; [done|].
  rewrite IH, JSONToStruct_step_wire. case_bool_decide as Hw.
  - rewrite last_cons, Hw. destruct (last _); [done|].
    by rewrite lookup_insert_eq.
  - destruct (last _); [done|].
    destruct (wire_name f) as [n|]; [|done].
    rewrite lookup_insert_ne; [done|congruence].
Qed.

Lemma JSONToStruct_lookup (co : CustomObject V) name :
  JSONToStruct co !! name = Name <$> resolve (Object co) name.
Proof.
  unfold JSONToStruct, getType. rewrite JSONToStruct_fold.
  by destruct (resolve _ _).
Qed.

Lemma resolve_Some o name f :
  resolve o name = Some f → f ∈ o ∧ wire_name f = Some name.
Proof.
  unfold resolve. intros H. apply last_Some_elem_of in H.
  apply list_elem_of_In, filter_In in H. destruct H as [Hin Hw].
  split; [by apply list_elem_of_In|]. by apply bool_decide_eq_true in Hw.
Qed.

Lemma FieldByName_NoDup o f :
  NoDup (map Name o) → f ∈ o → FieldByName o (Name f) = Some f.
Proof.
  unfold FieldByName. induction o as [|g o IH]; simpl; [by intros _ ?%elem_of_nil|].
  intros Hnd [-> | Hin]%elem_of_cons.
  - by rewrite String.eqb_refl.
  - apply NoDup_cons in Hnd as [Hg Hnd].
    destruct (String.eqb (Name g) (Name f)) eqn:E; [|by apply IH].
    apply String.eqb_eq in E. exfalso. apply Hg. rewrite E.
    apply list_elem_of_In, in_map, list_elem_of_In, Hin.
Qed.

Lemma project_loop_spec dict o fields obj
    (Hdict : ∀ name, dict !! name = Name <$> resolve o name)
    (Hname : ∀ f, f ∈ o → Name f ≠ "")
    (Hdup : NoDup (map Name o))
    (Hreq : ∀ n f, n ∈ fields → resolve o n = Some f → Exported f = true) :
  ∃ obj', project_loop dict o fields obj = Returns obj' ∧
    ∀ name, obj' !! name =
      if bool_decide (name ∈ fields) then
        match resolve o name with
        | Some f => Some (Value f)
        | None => obj !! name
        end
      else obj !! name.
Proof.
  revert obj. induction fields as [|n fields IH]; intros obj; cbn [project_loop].
  - exists obj. split; [done|]. intros name.
    by rewrite bool_decide_eq_false_2 by apply not_elem_of_nil.
  - assert (Hrest : ∀ n' f, n' ∈ fields → resolve o n' = Some f → Exported f = true)
      by (intros n' f Hn'; apply Hreq; by apply list_elem_of_further).
    specialize (IH Hrest).
    rewrite Hdict. destruct (resolve o n) as [f|] eqn:Hr; cbn [fmap option_fmap option_map default].
    + apply resolve_Some in Hr as Hf. destruct Hf as [Hin Hw].
      unfold id. rewrite (proj2 (String.eqb_neq _ _) (Hname f Hin)). cbn [negb].
      unfold field_interface. rewrite (FieldByName_NoDup o f Hdup Hin).
      rewrite (Hreq n f (list_elem_of_here n fields) Hr).
      destruct (IH (<[n := Value f]> obj)) as (obj' & Hloop & Hobj').
      exists obj'. split; [done|]. intros name. rewrite Hobj'.
      destruct (decide (name = n)) as [->|Hne].
      * rewrite Hr, lookup_insert_eq.
        rewrite (bool_decide_eq_true_2 (n ∈ n :: fields)) by apply list_elem_of_here.
        by case_bool_decide.
      * rewrite lookup_insert_ne by done.
        assert (name ∈ fields ↔ name ∈ n :: fields) as Hiff
          by (rewrite elem_of_cons; intuition congruence).
        by rewrite (bool_decide_ext _ _ Hiff).
    + destruct (IH obj) as (obj' & Hloop & Hobj').
      exists obj'. split; [done|]. intros name. rewrite Hobj'.
      destruct (decide (name = n)) as [->|Hne].
      * rewrite Hr.
        rewrite (bool_decide_eq_true_2 (n ∈ n :: fields)) by apply list_elem_of_here.
        by case_bool_decide.
      * assert (name ∈ fields ↔ name ∈ n :: fields) as Hiff
          by (rewrite elem_of_cons; intuition congruence).
        by rewrite (bool_decide_ext _ _ Hiff).
Qed.

Lemma project_loop_unresolved dict o fields obj :
  (∀ n, n ∈ fields → dict !! n = None) →
  project_loop dict o fields obj = Returns obj.
Proof.
  induction fields as [|n fields IH]; intros H; cbn [project_loop]; [done|].
  rewrite (H n) by apply list_elem_of_here. simpl.
  apply IH. intros n' Hn'. apply H. by apply list_elem_of_further.
Qed.

(** X20.  When every requested name that resolves stands for an
    exported field (the field names of the host being non-empty and
    distinct), the projection returns, and the mapping [MarshalJSON]
    encodes holds exactly the requested names that resolve, each with
    the current value of its field; the other requested names are
    skipped without an error.  Fields that are not requested do not
    matter, exported or not. *)
Theorem project_exactly_resolved (co : CustomObject V)
    (Hname : ∀ f, f ∈ Object co → Name f ≠ "")
    (Hdup : NoDup (map Name (Object co)))
    (Hreq : ∀ n f, n ∈ Fields co → resolve (Object co) n = Some f →
                   Exported f = true) :
  ∃ obj : gmap string V,
    project co = Returns obj ∧
    CustomObject_MarshalJSON marshal_value co
    = Returns (Encode.marshal_map marshal_value (Some obj)) ∧
    ∀ name, obj !! name =
      if bool_decide (name ∈ Fields co)
      then Value <$> resolve (Object co) name
      else None.
Proof.
  destruct (project_loop_spec (JSONToStruct co) (Object co) (Fields co) ∅
              (JSONToStruct_lookup co) Hname Hdup Hreq) as (obj & Hp & Hobj).
  exists obj. unfold CustomObject_MarshalJSON, project, getValue.
  rewrite Hp. split; [done|]. split; [done|].
  intros name. rewrite Hobj, lookup_empty.
  by destruct (resolve _ _).
Qed.

(** C10.  When no requested name resolves, and so when none is
    requested, [MarshalJSON] returns the empty object literal: not
    [null], not an error, and it does not panic. *)
Theorem MarshalJSON_unresolved_is_empty_object (co : CustomObject V)
    (Hnone : ∀ n, n ∈ Fields co → resolve (Object co) n = None) :
  CustomObject_MarshalJSON marshal_value co = Returns (Ok "{}").
Proof.
  unfold CustomObject_MarshalJSON, project.
  rewrite project_loop_unresolved.
  - unfold Encode.marshal_map, Encode.sorted_entries.
    by rewrite map_to_list_empty.
  - intros n Hn. by rewrite JSONToStruct_lookup, (Hnone n Hn).
Qed.

End CustomObjectFacts.

(** C4.  The claim fails on a host that has a tagged field that is not
    exported, when the name of that field is requested:
    [FieldByName(..).Interface()] panics, and [MarshalJSON] returns
    neither a mapping nor an error.  The source has no guard for it:
    [JSONToStruct] takes the wire names of all fields, exported or
    not. *)
Theorem project_unexported_panics :
  project {| Fields := ["name"; "secret"]; Object := mixed_host |}
  = Panics unexported_message ∧
  CustomObject_MarshalJSON (λ s, Ok (Encode.quote s))
    {| Fields := ["name"; "secret"]; Object := mixed_host |}
  = Panics unexported_message.
Proof. split; vm_compute; reflexivity. Qed.

Lemma project_exactly_resolved_witness :
  ∃ obj : gmap string string,
    project {| Fields := ["name"; "missing"]; Object := mixed_host |}
    = Returns obj ∧
    CustomObject_MarshalJSON (λ s, Ok (Encode.quote s))
      {| Fields := ["name"; "missing"]; Object := mixed_host |}
    = Returns (Encode.marshal_map (λ s, Ok (Encode.quote s)) (Some obj)) ∧
    ∀ name, obj !! name =
      if bool_decide (name ∈ ["name"; "missing"])
      then Value <$> resolve mixed_host name
      else None.
Proof.
  apply (project_exactly_resolved (λ s, Ok (Encode.quote s))
           {| Fields := ["name"; "missing"]; Object := mixed_host |}).
  - intros f Hf. simpl in Hf.
    apply elem_of_cons in Hf as [-> | Hf]; [discriminate|].
    apply list_elem_of_singleton in Hf as ->. discriminate.
  - simpl. repeat constructor; [|apply not_elem_of_nil].
    intros ?%list_elem_of_singleton. discriminate.
  - intros n f Hn Hr. simpl in Hn.
    apply elem_of_cons in Hn as [-> | Hn].
    + vm_compute in Hr. by injection Hr as <-.
    + apply list_elem_of_singleton in Hn as ->. vm_compute in Hr. discriminate.
Defined.

Lemma MarshalJSON_unresolved_is_empty_object_witness :
  CustomObject_MarshalJSON (λ s, Ok (Encode.quote s))
    {| Fields := ["secret"; "missing"]; Object := example_host |}
  = Returns (Ok "{}").
Proof.
  apply (MarshalJSON_unresolved_is_empty_object (λ s, Ok (Encode.quote s))
           {| Fields := ["secret"; "missing"]; Object := example_host |}).
  intros n Hn. simpl in Hn. set_unfold in Hn.
  destruct Hn as [-> | [-> | []]]; reflexivity.
Defined.

(** ** The two containers *)

Lemma collect_length {A} (rs : list (result A)) (xs : list A) :
  collect rs = Ok xs → length xs = length rs.
Proof.
  revert xs. induction rs as [|r rs IH]; simpl; intros xs.
  - by intros [= <-].
  - destruct r as [a|e]; simpl; [|done].
    destruct (collect rs) as [ys|e]; simpl; [|done].
    intros [= <-]. simpl. by rewrite (IH ys).
Qed.

Lemma marshal_RelationshipData_Ok (r : RelationshipData) :
  marshal_RelationshipData r
  = Ok (Encode.object_text [("type", Encode.quote (RType r));
                            ("id", Encode.quote (RID r))]).
Proof. reflexivity. Qed.

Lemma collect_total {A B} (f : A → result B) (g : A → B) (xs : list A) :
  (∀ x, f x = Ok (g x)) → collect (map f xs) = Ok (map g xs).
Proof.
  intros H. induction xs as [|x xs IH]; simpl; [done|].
  by rewrite H, IH.
Qed.

(** C1.  A container whose [DataArray] is not nil encodes to a JSON array,
    [[]] when the slice is empty, whatever [DataObject] holds; a container
    with neither field set encodes to [null].  For a
    [RelationshipDataContainer] the array always comes; for a
    [DataContainer] it comes when every element has an encoding. *)
Theorem MarshalJSON_array_or_null :
  (∀ (o : option RelationshipData) (xs : list RelationshipData),
     ∃ elems, length elems = length xs ∧
       RelationshipDataContainer_MarshalJSON {| DataObject := o; DataArray := Some xs |}
       = Ok (Encode.array_text elems)) ∧
  (∀ o : option RelationshipData,
     RelationshipDataContainer_MarshalJSON {| DataObject := o; DataArray := Some [] |}
     = Ok "[]") ∧
  RelationshipDataContainer_MarshalJSON {| DataObject := None; DataArray := None |}
  = Ok "null" ∧
  (∀ any (marshal_any : any → result string)
     (o : option (Data any)) (xs : list (Data any)) (elems : list string),
     collect (map (marshal_Data marshal_any) xs) = Ok elems →
     length elems = length xs ∧
     DataContainer_MarshalJSON marshal_any {| DataObject := o; DataArray := Some xs |}
     = Ok (Encode.array_text elems)) ∧
  (∀ any (marshal_any : any → result string) (o : option (Data any)),
     DataContainer_MarshalJSON marshal_any {| DataObject := o; DataArray := Some [] |}
     = Ok "[]") ∧
  (∀ any (marshal_any : any → result string),
     DataContainer_MarshalJSON marshal_any
       ({| DataObject := None; DataArray := None |} : DataContainer any)
     = Ok "null").
Proof.
  split; [|split; [|split; [|split; [|split]]]]; try done.
  - intros o xs.
    exists (map (λ r, Encode.object_text [("type", Encode.quote (RType r));
                                          ("id", Encode.quote (RID r))]) xs).
    split; [by rewrite length_map|].
    unfold RelationshipDataContainer_MarshalJSON. simpl.
    by rewrite (collect_total _ _ xs marshal_RelationshipData_Ok).
  - intros any marshal_any o xs elems H. split.
    + rewrite (collect_length _ _ H). by rewrite length_map.
    + unfold DataContainer_MarshalJSON. simpl. by rewrite H.
Qed.

Lemma MarshalJSON_array_or_null_witness :
  length ["{" +:+ quoted "type" +:+ ":" +:+ quoted "a" +:+ "," +:+ quoted "id" +:+ ":"
          +:+ quoted "1" +:+ "," +:+ quoted "attributes" +:+ ":null}"]
  = length [bare_resource] ∧
  DataContainer_MarshalJSON marshal_text
    {| DataObject := None; DataArray := Some [bare_resource] |}
  = Ok (Encode.array_text
          ["{" +:+ quoted "type" +:+ ":" +:+ quoted "a" +:+ "," +:+ quoted "id" +:+ ":"
           +:+ quoted "1" +:+ "," +:+ quoted "attributes" +:+ ":null}"]).
Proof.
  apply (proj1 (proj2 (proj2 (proj2 MarshalJSON_array_or_null))) string marshal_text
           None [bare_resource]).
  vm_compute. reflexivity.
Defined.

Lemma HasPrefix_byte (b p : ascii) (rest : string) :
  GoStrings.HasPrefix (String b rest) (String p "") = Ascii.eqb b p.
Proof. simpl. by destruct (Ascii.eqb b p), rest. Qed.

(** C3.  [UnmarshalJSON] looks at the first byte of the payload only.
    With [{] the payload is decoded into [DataObject] and [DataArray] is
    left as it is; with [[] it is decoded into [DataArray] and
    [DataObject] is left as it is; with any other first byte, and with no
    byte at all, the call returns its own error.  That error stops the
    decoding of a document and is what [json.Unmarshal] returns: the
    documents [{"data":"x"}] and [{"data":1}] fail with it. *)
Theorem UnmarshalJSON_first_byte :
  (∀ (c : RelationshipDataContainer) (rest : string),
     RelationshipDataContainer_UnmarshalJSON c (String "{" rest)
     = (let r := Decode.Unmarshal
                   (Decode.into_ptr zero_RelationshipData into_RelationshipData)
                   (String "{" rest) (DataObject c) in
        ({| DataObject := r.1; DataArray := DataArray c |}, r.2)) ∧
     RelationshipDataContainer_UnmarshalJSON c (String "[" rest)
     = (let r := Decode.Unmarshal
                   (Decode.into_slice "RelationshipData" zero_RelationshipData
                      into_RelationshipData)
                   (String "[" rest) (DataArray c) in
        ({| DataObject := DataObject c; DataArray := r.1 |}, r.2)) ∧
     (∀ b, b ≠ "{"%char → b ≠ "["%char →
        (RelationshipDataContainer_UnmarshalJSON c (String b rest)).2
        = Some (ErrorString "Invalid json for relationship data array/object")) ∧
     (RelationshipDataContainer_UnmarshalJSON c "").2
     = Some (ErrorString "Invalid json for relationship data array/object")) ∧
  (∀ any (unmarshal_any : string → any) (c : DataContainer any) (rest : string),
     DataContainer_UnmarshalJSON unmarshal_any c (String "{" rest)
     = (let r := Decode.Unmarshal
                   (Decode.into_ptr zero_Data (into_Data unmarshal_any))
                   (String "{" rest) (DataObject c) in
        ({| DataObject := r.1; DataArray := DataArray c |}, r.2)) ∧
     DataContainer_UnmarshalJSON unmarshal_any c (String "[" rest)
     = (let r := Decode.Unmarshal
                   (Decode.into_slice "Data" zero_Data (into_Data unmarshal_any))
                   (String "[" rest) (DataArray c) in
        ({| DataObject := DataObject c; DataArray := r.1 |}, r.2)) ∧
     (∀ b, b ≠ "{"%char → b ≠ "["%char →
        (DataContainer_UnmarshalJSON unmarshal_any c (String b rest)).2
        = Some (ErrorString "expected a JSON encoded object or array")) ∧
     (DataContainer_UnmarshalJSON unmarshal_any c "").2
     = Some (ErrorString "expected a JSON encoded object or array")) ∧
  (∀ any (unmarshal_any : string → any) (d : Document any) (b : ascii) (rest : string),
     b ≠ "{"%char → b ≠ "["%char → b ≠ "n"%char →
     abort (Document_set unmarshal_any "data" (String b rest) d)
     = Some (ErrorString "expected a JSON encoded object or array")) ∧
  (∀ any (unmarshal_any : string → any) (d : Document any),
     (unmarshal_Document unmarshal_any data_is_string d).2
     = Some (ErrorString "expected a JSON encoded object or array") ∧
     (unmarshal_Document unmarshal_any data_is_number d).2
     = Some (ErrorString "expected a JSON encoded object or array")).
Proof.
  assert (Hne : ∀ b p : ascii, b ≠ p → Ascii.eqb b p = false)
    by (intros b p; apply Ascii.eqb_neq).
  split; [|split; [|split]].
  - intros c rest. unfold RelationshipDataContainer_UnmarshalJSON.
    rewrite !HasPrefix_byte. split; [|split; [|split]].
    + rewrite Ascii.eqb_refl. by destruct (Decode.Unmarshal _ _ _).
    + rewrite (Hne "["%char "{"%char) by discriminate. rewrite Ascii.eqb_refl.
      by destruct (Decode.Unmarshal _ _ _).
    + intros b H1 H2. rewrite !HasPrefix_byte. by rewrite (Hne _ _ H1), (Hne _ _ H2).
    + reflexivity.
  - intros any unmarshal_any c rest. unfold DataContainer_UnmarshalJSON.
    rewrite !HasPrefix_byte. split; [|split; [|split]].
    + rewrite Ascii.eqb_refl. by destruct (Decode.Unmarshal _ _ _).
    + rewrite (Hne "["%char "{"%char) by discriminate. rewrite Ascii.eqb_refl.
      by destruct (Decode.Unmarshal _ _ _).
    + intros b H1 H2. rewrite !HasPrefix_byte. by rewrite (Hne _ _ H1), (Hne _ _ H2).
    + reflexivity.
  - intros any unmarshal_any d b rest H1 H2 H3.
    unfold Document_set. change (Decode.field_of _ "data") with (Some "data").
    cbv iota beta. unfold Decode.into_unmarshaler, Decode.kind_of.
    rewrite (Hne _ _ H1), (Hne _ _ H2), (Hne _ _ H3).
    unfold DataContainer_UnmarshalJSON. rewrite !HasPrefix_byte.
    rewrite (Hne _ _ H1), (Hne _ _ H2).
    by destruct (Ascii.eqb b Encode.dq).
  - intros any unmarshal_any d. split; vm_compute; reflexivity.
Qed.

Lemma UnmarshalJSON_first_byte_witness :
  (RelationshipDataContainer_UnmarshalJSON zero_Container (String "7" "")).2
  = Some (ErrorString "Invalid json for relationship data array/object").
Proof.
  apply (proj1 (proj2 (proj2 (proj1 UnmarshalJSON_first_byte zero_Container "")))
           "7"%char); discriminate.
Defined.

(** C8.  A payload that starts with neither [{] nor [[] makes
    [UnmarshalJSON] return an error and leaves the container as it was,
    [DataObject] and [DataArray] alike. *)
Theorem UnmarshalJSON_bad_prefix_unchanged :
  (∀ (c : RelationshipDataContainer) (payload : string),
     GoStrings.HasPrefix payload "{" = false →
     GoStrings.HasPrefix payload "[" = false →
     ∃ e, RelationshipDataContainer_UnmarshalJSON c payload = (c, Some e)) ∧
  (∀ any (unmarshal_any : string → any) (c : DataContainer any) (payload : string),
     GoStrings.HasPrefix payload "{" = false →
     GoStrings.HasPrefix payload "[" = false →
     ∃ e, DataContainer_UnmarshalJSON unmarshal_any c payload = (c, Some e)).
Proof.
  split.
  - intros c payload H1 H2. unfold RelationshipDataContainer_UnmarshalJSON.
    rewrite H1, H2. eauto.
  - intros any unmarshal_any c payload H1 H2. unfold DataContainer_UnmarshalJSON.
    rewrite H1, H2. eauto.
Qed.

Lemma UnmarshalJSON_bad_prefix_unchanged_witness :
  ∃ e, DataContainer_UnmarshalJSON unmarshal_text
         {| DataObject := Some bare_resource; DataArray := Some [] |} (quoted "x")
       = ({| DataObject := Some bare_resource; DataArray := Some [] |}, Some e).
Proof.
  apply (proj2 UnmarshalJSON_bad_prefix_unchanged string unmarshal_text
           {| DataObject := Some bare_resource; DataArray := Some [] |} (quoted "x"));
    reflexivity.
Defined.

(** ** The members of a struct *)

Lemma collect_app {A} (rs1 rs2 : list (result A)) (xs : list A) :
  collect (rs1 ++ rs2) = Ok xs →
  ∃ xs1 xs2, collect rs1 = Ok xs1 ∧ collect rs2 = Ok xs2 ∧ xs = xs1 ++ xs2.
Proof.
  revert xs. induction rs1 as [|r rs1 IH]; simpl; intros xs H.
  - exists [], xs. by rewrite H.
  - destruct r as [a|e]; simpl in *; [|done].
    destruct (collect (rs1 ++ rs2)) as [ys|e] eqn:E; simpl in *; [|done].
    injection H as <-. destruct (IH ys eq_refl) as (xs1 & xs2 & -> & -> & ->).
    by exists (a :: xs1), xs2.
Qed.

Lemma collect_member (key : string) (omit : bool) (v : result string)
    (ms : list (string * string)) :
  collect (member key omit v) = Ok ms →
  (omit = true ∧ ms = []) ∨ (omit = false ∧ ∃ t, v = Ok t ∧ ms = [(key, t)]).
Proof.
  unfold member. destruct omit; simpl.
  - intros [= <-]. by left.
  - destruct v as [t|e]; simpl; [|done]. intros [= <-]. right. eauto.
Qed.

(** ** Round trips *)

(** C2 as stated fails.  A resource object whose [Attributes] is nil is
    written with ["attributes":null], and decoding stores the four bytes
    [null] in [Attributes]: the document read back is not the one
    written. *)
Lemma bare_document_does_not_round_trip :
  ¬ (∀ text,
       marshal_Document marshal_text bare_document = Ok text →
       unmarshal_Document unmarshal_text text zero_Document = (bare_document, None)).
Proof.
  intros H.
  specialize (H _ eq_refl). vm_compute in H. discriminate.
Qed.

(** ** Strings *)

Lemma append_cons (c : ascii) (a b : string) :
  String c a +:+ b = String c (a +:+ b).
Proof. reflexivity. Qed.

Lemma append_nil_l (s : string) : "" +:+ s = s.
Proof. reflexivity. Qed.

Lemma append_nil_r (s : string) : s +:+ "" = s.
Proof. induction s as [|c s IH]; [done|]. by rewrite append_cons, IH. Qed.

Lemma append_assoc (a b c : string) : (a +:+ b) +:+ c = a +:+ b +:+ c.
Proof. induction a as [|x a IH]; [done|]. by rewrite !append_cons, IH. Qed.

Lemma append_snoc (a : string) (c : ascii) (b : string) :
  (a +:+ String c "") +:+ b = a +:+ String c b.
Proof. by rewrite append_assoc. Qed.

(** ** The scanner over quiet texts *)

Module QuietFacts.

Import Scanner Quiet.

Lemma no_separator_app (v rest : string) :
  no_separator v = true → no_separator (v +:+ rest) = true.
Proof. by destruct v as [|c1 [|c2 v]]. Qed.

Lemma quiet_byte_app d n c op v rest :
  quiet_byte d n c op v = true → quiet_byte d n c op (v +:+ rest) = true.
Proof.
  unfold quiet_byte. intros H.
  apply andb_true_iff in H as [H1 H2]. rewrite H1. simpl.
  apply orb_true_iff in H2 as [H2 | H2]; [by rewrite H2|].
  rewrite (no_separator_app _ _ H2). by rewrite orb_true_r.
Qed.

Lemma quiet_app d cfg a b cfg1 :
  quiet d cfg a = Some cfg1 → quiet d cfg (a +:+ b) = quiet d cfg1 b.
Proof.
  revert cfg. induction a as [|c a IH]; rewrite ?append_cons, ?append_nil_l; simpl; intros cfg.
  - by intros [= ->].
  - destruct (step cfg c) as [[cfg' op]|]; [|done].
    destruct (quiet_byte d (length cfg.2) c op a) eqn:Hq; [|done].
    rewrite (quiet_byte_app _ _ _ _ _ b Hq). apply IH.
Qed.

Lemma quiet_mono d d' cfg v cfg' :
  (d' ≤ d)%nat → quiet d cfg v = Some cfg' → quiet d' cfg v = Some cfg'.
Proof.
  intros Hd. revert cfg. induction v as [|c v IH]; simpl; intros cfg; [done|].
  destruct (step cfg c) as [[cfg1 op]|]; [|done].
  destruct (quiet_byte d (length cfg.2) c op v) eqn:Hq; [|done].
  intros H. rewrite (IH _ H).
  replace (quiet_byte d' (length cfg.2) c op v) with true; [done|].
  symmetry. revert Hq. unfold quiet_byte.
  destruct (is_cut op); simpl; [|done].
  destruct (length cfg.2 <=? d)%nat eqn:E; simpl.
  - by rewrite andb_false_r.
  - apply Nat.leb_gt in E. intros Hq.
    replace (length cfg.2 <=? d')%nat with false; [done|].
    symmetry. apply Nat.leb_gt. lia.
Qed.

Lemma run_quiet d cfg v cfg' rest :
  quiet d cfg v = Some cfg' → run cfg (v +:+ rest) = run cfg' rest.
Proof.
  revert cfg. induction v as [|c v IH]; rewrite ?append_cons, ?append_nil_l; simpl; intros cfg.
  - by intros [= ->].
  - destruct (step cfg c) as [[cfg1 op]|]; [|done].
    destruct (quiet_byte _ _ _ _ _); [|done]. apply IH.
Qed.

Lemma chunks_quiet cfg v cfg' cur rest :
  quiet 1 cfg v = Some cfg' →
  chunks cfg cur (v +:+ rest) = chunks cfg' (cur +:+ v) rest.
Proof.
  revert cfg cur. induction v as [|c v IH]; rewrite ?append_cons, ?append_nil_l; simpl; intros cfg cur.
  - intros [= ->]. by rewrite append_nil_r.
  - destruct (step cfg c) as [[cfg1 op]|]; [|done].
    destruct (quiet_byte _ _ _ _ _) eqn:Hq; [|done].
    intros H. rewrite (IH _ (cur +:+ String c "") H), append_snoc.
    replace (is_cut op && (length cfg.2 =? 1)%nat) with false; [done|].
    symmetry. revert Hq. unfold quiet_byte.
    destruct (is_cut op); simpl; [|done].
    destruct (length cfg.2 =? 1)%nat eqn:E; [|done].
    apply Nat.eqb_eq in E. rewrite E. simpl. by rewrite andb_false_r.
Qed.

Lemma compact_quiet d cfg v cfg' rest :
  quiet d cfg v = Some cfg' →
  compact_from cfg 0 (v +:+ rest)
  = option_map (String.append v) (compact_from cfg' 0 rest).
Proof.
  revert cfg. induction v as [|c v IH]; rewrite ?append_cons, ?append_nil_l; simpl; intros cfg.
  - intros [= ->]. by destruct (compact_from cfg' 0 rest).
  - destruct (step cfg c) as [[cfg1 op]|]; [|done].
    destruct (quiet_byte _ _ _ _ _) eqn:Hq; [|done].
    intros H. rewrite (IH _ H). clear IH H.
    unfold quiet_byte in Hq.
    apply andb_true_iff in Hq as [Hq Hsep].
    apply andb_true_iff in Hq as [Hq Hesc].
    apply andb_true_iff in Hq as [Hop _].
    apply negb_true_iff in Hesc. rewrite Hesc.
    assert (Hcopy : match op with
                    | ScanSkipSpace | ScanEnd =>
                        option_map (String.append v) (compact_from cfg' 0 rest)
                    | _ => option_map (String c)
                             (option_map (String.append v) (compact_from cfg' 0 rest))
                    end
                    = option_map (String.append (String c v))
                        (compact_from cfg' 0 rest)).
    { destruct op; try done; by destruct (compact_from cfg' 0 rest). }
    destruct (v +:+ rest) as [|c1 [|c2 t]] eqn:Hv; try apply Hcopy.
    replace (Ascii.eqb c "226" && Ascii.eqb c1 "128"
             && (Ascii.eqb c2 "168" || Ascii.eqb c2 "169")) with false;
      [apply Hcopy|].
    symmetry. destruct (Ascii.eqb c "226"); [|done]. simpl in *.
    apply (no_separator_app v rest) in Hsep. rewrite Hv in Hsep.
    simpl in Hsep. by apply negb_true_iff in Hsep.
Qed.

End QuietFacts.

(** ** String literals *)

Module QuoteFacts.

Import Scanner Quiet Encode QuietFacts.

Ltac each_byte b := destruct b as [[] [] [] [] [] [] [] []].

(** Induction over a string rune by rune, by the cases of [quote_body]. *)
Lemma rune_ind (P : string → Prop) :
  P "" →
  (∀ b s, (nat_of_ascii b <? 128)%nat = true → P s → P (String b s)) →
  (∀ b1 b2 s, (nat_of_ascii b1 <? 128)%nat = false → utf8_2 b1 b2 = true →
     P s → P (String b1 (String b2 s))) →
  (∀ b1 b2 b3 s, (nat_of_ascii b1 <? 128)%nat = false → utf8_2 b1 b2 = false →
     utf8_3 b1 b2 b3 = true → P s → P (String b1 (String b2 (String b3 s)))) →
  (∀ b1 b2 b3 b4 s, (nat_of_ascii b1 <? 128)%nat = false → utf8_2 b1 b2 = false →
     utf8_3 b1 b2 b3 = false → utf8_4 b1 b2 b3 b4 = true →
     P s → P (String b1 (String b2 (String b3 (String b4 s))))) →
  (∀ b1 s1, (nat_of_ascii b1 <? 128)%nat = false →
     quote_body (String b1 s1) = replacement_escape +:+ quote_body s1 →
     valid_utf8 (String b1 s1) = false →
     P s1 → P (String b1 s1)) →
  ∀ s, P s.
Proof.
  intros H0 H1 H2 H3 H4 Hbad s.
  remember (String.length s) as n eqn:Hn.
  assert (Hle : (String.length s ≤ n)%nat) by lia. clear Hn.
  revert s Hle. induction n as [|n IH]; intros s Hle.
  - destruct s; [done|]. simpl in Hle. lia.
  - destruct s as [|b1 s1]; [done|]. simpl in Hle.
    destruct (nat_of_ascii b1 <? 128)%nat eqn:E1.
    { apply H1; [done|]. apply IH. lia. }
    assert (IH1 : P s1) by (apply IH; lia).
    destruct s1 as [|b2 s2].
    { apply Hbad; try done; simpl; by rewrite E1. }
    simpl in Hle. destruct (utf8_2 b1 b2) eqn:E2.
    { apply H2; try done. apply IH. lia. }
    destruct s2 as [|b3 s3].
    { apply Hbad; try done; simpl; by rewrite E1, E2. }
    simpl in Hle. destruct (utf8_3 b1 b2 b3) eqn:E3.
    { apply H3; try done. apply IH. lia. }
    destruct s3 as [|b4 s4].
    { apply Hbad; try done; simpl; by rewrite E1, E2, E3. }
    simpl in Hle. destruct (utf8_4 b1 b2 b3 b4) eqn:E4.
    { apply H4; try done. apply IH. lia. }
    apply Hbad; try done; simpl; by rewrite E1, E2, E3, E4.
Qed.

Lemma quiet_escape_ascii d k b :
  (nat_of_ascii b <? 128)%nat = true →
  quiet d (InString, k) (escape_ascii b) = Some (InString, k).
Proof. each_byte b; intros H; try discriminate H; reflexivity. Qed.

Lemma quiet_high d k c v :
  (nat_of_ascii c <? 128)%nat = false →
  quiet d (InString, k) (String c v)
  = if negb (Ascii.eqb c "226") || no_separator v
    then quiet d (InString, k) v else None.
Proof. each_byte c; intros H; try discriminate H; reflexivity. Qed.

Lemma cont_high b :
  cont b = true →
  (nat_of_ascii b <? 128)%nat = false ∧ Ascii.eqb b "226" = false.
Proof. each_byte b; intros H; try discriminate H; done. Qed.

Lemma lead2_not_226 b : between 194 223 b = true → Ascii.eqb b "226" = false.
Proof. each_byte b; intros H; try discriminate H; done. Qed.

Lemma lead4_not_226 b :
  (Ascii.eqb b "240" || between 241 243 b || Ascii.eqb b "244") = true →
  Ascii.eqb b "226" = false.
Proof. each_byte b; intros H; try discriminate H; done. Qed.

Lemma between_cont lo hi b :
  (128 ≤ lo)%nat → (hi ≤ 191)%nat → between lo hi b = true → cont b = true.
Proof.
  unfold cont, between. intros Hlo Hhi H.
  apply andb_true_iff in H as [H1 H2].
  apply Nat.leb_le in H1, H2. apply andb_true_iff.
  split; apply Nat.leb_le; lia.
Qed.

Lemma utf8_2_parts b1 b2 :
  utf8_2 b1 b2 = true → Ascii.eqb b1 "226" = false ∧ cont b2 = true.
Proof.
  unfold utf8_2. intros [H1 H2]%andb_true_iff. split; [|done].
  by apply lead2_not_226.
Qed.

Lemma utf8_3_parts b1 b2 b3 :
  utf8_3 b1 b2 b3 = true → cont b2 = true ∧ cont b3 = true.
Proof.
  unfold utf8_3. intros [H1 H3]%andb_true_iff. split; [|done].
  apply orb_true_iff in H1 as [H1 | H1].
  - apply orb_true_iff in H1 as [H1 | H1].
    + apply andb_true_iff in H1 as [_ H1].
      apply (between_cont 160 191); [lia | lia | done].
    + by apply andb_true_iff in H1 as [_ H1].
  - apply andb_true_iff in H1 as [_ H1].
    apply (between_cont 128 159); [lia | lia | done].
Qed.

Lemma utf8_4_parts b1 b2 b3 b4 :
  utf8_4 b1 b2 b3 b4 = true →
  Ascii.eqb b1 "226" = false ∧ cont b2 = true ∧ cont b3 = true ∧ cont b4 = true.
Proof.
  unfold utf8_4. intros [[H1 H3]%andb_true_iff H4]%andb_true_iff.
  assert (Hb1 : (Ascii.eqb b1 "240" || between 241 243 b1 || Ascii.eqb b1 "244") = true
                ∧ cont b2 = true).
  { apply orb_true_iff in H1 as [H1 | H1].
    - apply orb_true_iff in H1 as [H1 | H1].
      + apply andb_true_iff in H1 as [H0 H1]. rewrite H0. split; [done|].
        apply (between_cont 144 191); [lia | lia | done].
      + apply andb_true_iff in H1 as [H0 H1]. rewrite H0.
        split; [by rewrite orb_true_r|done].
    - apply andb_true_iff in H1 as [H0 H1]. rewrite H0.
      split; [by rewrite !orb_true_r|].
      apply (between_cont 128 143); [lia | lia | done]. }
  destruct Hb1 as [Hb1 Hb2]. repeat split; try done.
  by apply lead4_not_226.
Qed.

(** What [quote_body] writes is passed over inside a string. *)
Lemma quiet_quote_body d k s :
  quiet d (InString, k) (quote_body s) = Some (InString, k).
Proof.
  induction s as [| b s Hb IH | b1 b2 s Hb H2 IH | b1 b2 b3 s Hb H2 H3 IH
                  | b1 b2 b3 b4 s Hb H2 H3 H4 IH | b1 s1 Hb Heq _ IH]
    using rune_ind.
  - done.
  - simpl. rewrite Hb. by rewrite (quiet_app _ _ _ _ _ (quiet_escape_ascii d k b Hb)).
  - simpl. rewrite Hb, H2.
    apply utf8_2_parts in H2 as [Hn Hc]. apply cont_high in Hc as [Hc1 Hc2].
    rewrite (quiet_high _ _ _ _ Hb), Hn. cbn [negb orb].
    rewrite (quiet_high _ _ _ _ Hc1), Hc2. cbn [negb orb]. exact IH.
  - simpl. rewrite Hb, H2, H3.
    apply utf8_3_parts in H3 as [Hc2 Hc3].
    apply cont_high in Hc2 as [Hc2 Hc2'], Hc3 as [Hc3 Hc3'].
    destruct (Ascii.eqb b1 "226" && Ascii.eqb b2 "128"
              && (Ascii.eqb b3 "168" || Ascii.eqb b3 "169")) eqn:Hsep.
    + apply andb_true_iff in Hsep as [_ Hsep].
      apply orb_true_iff in Hsep as [->%Ascii.eqb_eq | ->%Ascii.eqb_eq];
        by rewrite (quiet_app d (InString, k) _ (quote_body s) (InString, k)).
    + rewrite (quiet_high _ _ _ _ Hb).
      replace (negb (Ascii.eqb b1 "226") || no_separator (String b2 (String b3 (quote_body s))))
        with true.
      * rewrite (quiet_high _ _ _ _ Hc2), Hc2'. cbn [negb orb].
        rewrite (quiet_high _ _ _ _ Hc3), Hc3'. cbn [negb orb]. exact IH.
      * symmetry. simpl. revert Hsep.
        by destruct (Ascii.eqb b1 "226"), (Ascii.eqb b2 "128"),
             (Ascii.eqb b3 "168" || Ascii.eqb b3 "169").
  - simpl. rewrite Hb, H2, H3, H4.
    apply utf8_4_parts in H4 as (Hn & Hc2 & Hc3 & Hc4).
    apply cont_high in Hc2 as [Hc2 Hc2'], Hc3 as [Hc3 Hc3'], Hc4 as [Hc4 Hc4'].
    rewrite (quiet_high _ _ _ _ Hb), Hn. cbn [negb orb].
    rewrite (quiet_high _ _ _ _ Hc2), Hc2'. cbn [negb orb].
    rewrite (quiet_high _ _ _ _ Hc3), Hc3'. cbn [negb orb].
    rewrite (quiet_high _ _ _ _ Hc4), Hc4'. cbn [negb orb]. exact IH.
  - rewrite Heq.
    by rewrite (quiet_app d (InString, k) _ (quote_body s1) (InString, k)).
Qed.

(** A quoted string is passed over as one value, and as one key. *)
Lemma quiet_quote d k s st :
  st = BeginValue ∨ st = BeginValueOrEmpty ∨ st = BeginString ∨ st = BeginStringOrEmpty →
  quiet d (st, k) (quote s) = Some (EndValue, k).
Proof.
  intros Hst. unfold quote.
  assert (H1 : quiet d (st, k) (String dq (quote_body s +:+ String dq ""))
               = quiet d (InString, k) (quote_body s +:+ String dq "")).
  { destruct Hst as [-> | [-> | [-> | ->]]]; reflexivity. }
  rewrite H1, (quiet_app _ _ _ _ _ (quiet_quote_body d k s)). reflexivity.
Qed.

Import Unquote.

Lemma length_append (a b : string) :
  String.length (a +:+ b) = (String.length a + String.length b)%nat.
Proof. induction a as [|c a IH]; [done|]. rewrite append_cons. simpl. by rewrite IH. Qed.

Lemma unquote_escape_ascii b f t :
  (nat_of_ascii b <? 128)%nat = true →
  unquote_body (S f) (escape_ascii b +:+ t) = option_map (String b) (unquote_body f t).
Proof. each_byte b; intros H; try discriminate H; reflexivity. Qed.

Lemma unquote_high c f s1 :
  (nat_of_ascii c <? 128)%nat = false →
  unquote_body (S f) (String c s1)
  = match s1 with
    | String c2 s2 =>
        if utf8_2 c c2 then
          option_map (λ t, String c (String c2 t)) (unquote_body f s2)
        else
          match s2 with
          | String c3 s3 =>
              if utf8_3 c c2 c3 then
                option_map (λ t, String c (String c2 (String c3 t)))
                           (unquote_body f s3)
              else
                match s3 with
                | String c4 s4 =>
                    if utf8_4 c c2 c3 c4 then
                      option_map
                        (λ t, String c (String c2 (String c3 (String c4 t))))
                        (unquote_body f s4)
                    else option_map (String.append replacement) (unquote_body f s1)
                | EmptyString =>
                    option_map (String.append replacement) (unquote_body f s1)
                end
          | EmptyString => option_map (String.append replacement) (unquote_body f s1)
          end
    | EmptyString => option_map (String.append replacement) (unquote_body f s1)
    end.
Proof. each_byte c; intros H; try discriminate H; reflexivity. Qed.

(** A string of well-formed UTF-8 is read back from what [quote_body]
    writes for it, in as many turns as it has bytes, or fewer. *)
Lemma unquote_quote_body s :
  valid_utf8 s = true →
  ∀ f, (String.length s ≤ f)%nat → unquote_body f (quote_body s) = Some s.
Proof.
  induction s as [| b s Hb IH | b1 b2 s Hb H2 IH | b1 b2 b3 s Hb H2 H3 IH
                  | b1 b2 b3 b4 s Hb H2 H3 H4 IH | b1 s1 Hb _ Hbad _]
    using rune_ind; intros Hv f Hf.
  - by destruct f.
  - simpl in Hv. rewrite Hb in Hv. simpl quote_body. rewrite Hb.
    simpl in Hf. destruct f as [|f]; [lia|].
    rewrite (unquote_escape_ascii _ _ _ Hb), (IH Hv f) by lia. done.
  - simpl in Hv. rewrite Hb, H2 in Hv. simpl quote_body. rewrite Hb, H2.
    simpl in Hf. destruct f as [|f]; [lia|].
    rewrite (unquote_high _ _ _ Hb), H2, (IH Hv f) by lia. done.
  - simpl in Hv. rewrite Hb, H2, H3 in Hv. simpl quote_body. rewrite Hb, H2, H3.
    simpl in Hf. destruct f as [|f]; [lia|].
    destruct (Ascii.eqb b1 "226" && Ascii.eqb b2 "128"
              && (Ascii.eqb b3 "168" || Ascii.eqb b3 "169")) eqn:Hsep.
    + apply andb_true_iff in Hsep as [[->%Ascii.eqb_eq ->%Ascii.eqb_eq]%andb_true_iff Hsep].
      apply orb_true_iff in Hsep as [->%Ascii.eqb_eq | ->%Ascii.eqb_eq].
      * change (unquote_body (S f) (separator_escape "168" +:+ quote_body s))
          with (option_map (String.append (EncodeRune 8232))
                  (unquote_body f (quote_body s))).
        rewrite (IH Hv f) by lia. done.
      * change (unquote_body (S f) (separator_escape "169" +:+ quote_body s))
          with (option_map (String.append (EncodeRune 8233))
                  (unquote_body f (quote_body s))).
        rewrite (IH Hv f) by lia. done.
    + rewrite (unquote_high _ _ _ Hb), H2, H3, (IH Hv f) by lia. done.
  - simpl in Hv. rewrite Hb, H2, H3, H4 in Hv. simpl quote_body. rewrite Hb, H2, H3, H4.
    simpl in Hf. destruct f as [|f]; [lia|].
    rewrite (unquote_high _ _ _ Hb), H2, H3, H4, (IH Hv f) by lia. done.
  - congruence.
Qed.

Lemma escape_ascii_length b : (1 ≤ String.length (escape_ascii b))%nat.
Proof. each_byte b; apply Nat.leb_le; reflexivity. Qed.

Lemma quote_body_length s : (String.length s ≤ String.length (quote_body s))%nat.
Proof.
  induction s as [| b s Hb IH | b1 b2 s Hb H2 IH | b1 b2 b3 s Hb H2 H3 IH
                  | b1 b2 b3 b4 s Hb H2 H3 H4 IH | b1 s1 Hb Heq _ IH]
    using rune_ind.
  - done.
  - simpl quote_body. rewrite Hb, length_append. simpl String.length.
    pose proof (escape_ascii_length b). lia.
  - simpl quote_body. rewrite Hb, H2. simpl. lia.
  - simpl quote_body. rewrite Hb, H2, H3.
    destruct (_ && _ && _); [rewrite length_append|]; simpl; lia.
  - simpl quote_body. rewrite Hb, H2, H3, H4. simpl. lia.
  - rewrite Heq, length_append. simpl. lia.
Qed.

Lemma last_byte_snoc (t : string) (c : ascii) : last_byte (t +:+ String c "") = Some c.
Proof.
  induction t as [|a t IH]; [reflexivity|].
  destruct t as [|b t]; [reflexivity|]. exact IH.
Qed.

Lemma drop_last_snoc (t : string) (c : ascii) : drop_last (t +:+ String c "") = t.
Proof.
  induction t as [|a t IH]; [reflexivity|].
  destruct t as [|b t]; [reflexivity|].
  change (String a (drop_last (String b t +:+ String c "")) = String a (String b t)).
  by rewrite IH.
Qed.

Lemma unquote_quote s : valid_utf8 s = true → unquote (quote s) = Some s.
Proof.
  intros Hv. unfold unquote, quote. rewrite Ascii.eqb_refl, last_byte_snoc.
  rewrite Ascii.eqb_refl, drop_last_snoc.
  apply (unquote_quote_body s Hv).
  rewrite length_append. pose proof (quote_body_length s). lia.
Qed.

End QuoteFacts.

(** * Further properties *)

(** ** The stored field list *)

Lemma fields_around_Join (s : string) :
  GoStrings.Join (let '(hd, tl) := GoStrings.fields_around "," s in hd :: tl) "," = s.
Proof.
  induction s as [|c s IH]; [done|]. simpl.
  destruct (GoStrings.fields_around "," s) as [hd tl].
  destruct (Ascii.eqb c ",") eqn:E.
  - apply Ascii.eqb_eq in E as ->. simpl in *. by rewrite IH.
  - simpl in *. destruct tl; simpl in *; by rewrite <- IH.
Qed.

Lemma fields_around_no_comma (s : string) :
  let '(hd, tl) := GoStrings.fields_around "," s in
  has_byte "," hd = false ∧ Forall (λ f, has_byte "," f = false) tl.
Proof.
  induction s as [|c s IH]; simpl; [by split|].
  destruct (GoStrings.fields_around "," s) as [hd tl]. destruct IH as [Hhd Htl].
  destruct (Ascii.eqb c ",") eqn:E; simpl.
  - split; [done|]. by constructor.
  - rewrite E. by split.
Qed.

Lemma Split_comma_free (s : string) :
  has_byte "," s = false → GoStrings.Split s "," = [s].
Proof.
  unfold GoStrings.Split. induction s as [|c s IH]; simpl; [done|].
  intros [Hc Hs]%orb_false_iff. rewrite Hc.
  specialize (IH Hs). destruct (GoStrings.fields_around "," s) as [hd tl].
  by injection IH as -> ->.
Qed.

Lemma Split_cons_comma (a s : string) :
  has_byte "," a = false →
  GoStrings.Split (a +:+ String "," s) "," = a :: GoStrings.Split s ",".
Proof.
  unfold GoStrings.Split. induction a as [|c a IH]; intros Ha.
  - rewrite append_nil_l. simpl.
    by destruct (GoStrings.fields_around "," s) as [hd tl].
  - rewrite append_cons. simpl in *.
    apply orb_false_iff in Ha as [Hc Ha]. rewrite Hc.
    specialize (IH Ha).
    destruct (GoStrings.fields_around "," (a +:+ String "," s)) as [hd tl].
    destruct (GoStrings.fields_around "," s) as [hd' tl'].
    by injection IH as -> ->.
Qed.

(** X1.  The list [ParseQuery] stores for a key, [Split(Join(v, ","), ",")],
    is never empty, none of its elements contains a comma, and joined
    with commas it is the join of the values again.  When the values are
    one or more strings without a comma, it is the values themselves. *)
Theorem requested_flattens (v : list string) :
  requested v ≠ [] ∧
  Forall (λ f, has_byte "," f = false) (requested v) ∧
  GoStrings.Join (requested v) "," = GoStrings.Join v "," ∧
  (v ≠ [] → Forall (λ f, has_byte "," f = false) v → requested v = v).
Proof.
  unfold requested, GoStrings.Split. split; [|split; [|split]].
  - by destruct (GoStrings.fields_around _ _).
  - pose proof (fields_around_no_comma (GoStrings.Join v ",")) as H.
    destruct (GoStrings.fields_around _ _) as [hd tl]. destruct H. by constructor.
  - apply fields_around_Join.
  - intros Hne Hv. fold (GoStrings.Split (GoStrings.Join v ",") ",").
    induction v as [|a v IH]; [done|].
    apply Forall_cons in Hv as [Ha Hv]. destruct v as [|b v].
    + simpl. by apply Split_comma_free.
    + change (GoStrings.Join (a :: b :: v) ",")
        with (a +:+ String "," (GoStrings.Join (b :: v) ",")).
      rewrite (Split_cons_comma _ _ Ha). f_equal. by apply IH.
Qed.

Lemma requested_flattens_witness :
  requested ["title"; "body"] = ["title"; "body"].
Proof.
  apply (proj2 (proj2 (proj2 (requested_flattens ["title"; "body"])))).
  - discriminate.
  - repeat constructor.
Defined.

(** ** [ParseQuery] on a nil map, run twice, and in another order *)

(** X2.  On a nil map [ParseQuery] panics exactly when some key of the
    query matches the pattern; with no matching key it returns and the
    map is still nil. *)
Theorem ParseQuery_nil_map (q : Values) :
  ParseQuery None q =
  if existsb matching q
  then Panics "assignment to entry in nil map"
  else Returns None.
Proof.
  induction q as [|[k v] q IH]; [done|]. simpl.
  unfold matching at 1. simpl.
  by destruct (Regexp.fields_submatch k).
Qed.

Lemma captures_unfold (c k : string) (v : list string) :
  captures c (k, v) = bool_decide (Regexp.fields_submatch k = Some c).
Proof. reflexivity. Qed.

Lemma filter_captures_fresh (q : Values) (c : string) :
  c ∉ captured_names q → List.filter (captures c) q = [].
Proof.
  unfold captured_names. induction q as [|[k v] q IH]; [done|].
  cbn [omap list_omap List.filter fst]. rewrite captures_unfold.
  destruct (Regexp.fields_submatch k) as [cap|] eqn:Hk.
  - intros [Hne Hnot]%not_elem_of_cons.
    rewrite bool_decide_eq_false_2 by congruence. by apply IH.
  - intros Hnot. rewrite bool_decide_eq_false_2 by done. by apply IH.
Qed.

Lemma filter_captures_NoDup (q : Values) (c : string) :
  NoDup (captured_names q) → (length (List.filter (captures c) q) ≤ 1)%nat.
Proof.
  induction q as [|[k v] q IH]; [simpl; lia|].
  unfold captured_names. cbn [omap list_omap List.filter fst].
  rewrite captures_unfold.
  destruct (Regexp.fields_submatch k) as [cap|] eqn:Hk.
  - intros [Hnot Hnd]%NoDup_cons. case_bool_decide as Hc; [|by apply IH].
    injection Hc as ->. rewrite (filter_captures_fresh q c Hnot). simpl. lia.
  - intros Hnd. rewrite bool_decide_eq_false_2 by done. by apply IH.
Qed.

Lemma filter_Permutation {A} (f : A → bool) (l l' : list A) :
  Permutation l l' → Permutation (List.filter f l) (List.filter f l').
Proof.
  induction 1 as [|x l l' _ IH|x y l|l l' l'' _ IH1 _ IH2]; simpl.
  - done.
  - destruct (f x); [by constructor|done].
  - destruct (f x), (f y); try done. apply perm_swap.
  - by etrans.
Qed.

Lemma short_Permutation {A} (l l' : list A) :
  (length l ≤ 1)%nat → Permutation l l' → l = l'.
Proof.
  intros Hlen Hp. destruct l as [|x [|y l]]; simpl in Hlen; [| |lia].
  - by apply Permutation_nil_l in Hp.
  - by apply Permutation_singleton_l in Hp.
Qed.

(** X4.  Go visits the keys of the query in an order it does not fix.
    When no two keys are captured as the same type name, the order does
    not matter: every order of the same entries leaves the same
    mapping. *)
Theorem ParseQuery_order_independent
    (m : gmap string (list string)) (q q' : Values)
    (Hperm : Permutation q q')
    (Hdistinct : NoDup (captured_names q)) :
  ParseQuery (Some m) q = ParseQuery (Some m) q'.
Proof.
  destruct (ParseQuery_returns m q) as [m1 H1].
  destruct (ParseQuery_returns m q') as [m2 H2].
  rewrite H1, H2. do 2 f_equal. apply map_eq. intros c.
  rewrite (ParseQuery_lookup _ _ _ c H1), (ParseQuery_lookup _ _ _ c H2).
  by rewrite (short_Permutation _ _ (filter_captures_NoDup q c Hdistinct)
                (filter_Permutation (captures c) q q' Hperm)).
Qed.

Lemma ParseQuery_order_independent_witness :
  ParseQuery (Some ∅) articles_query = ParseQuery (Some ∅) articles_query_rev.
Proof.
  apply (ParseQuery_order_independent ∅ articles_query articles_query_rev).
  - apply perm_swap.
  - vm_compute. repeat constructor; [|apply not_elem_of_nil].
    intros ?%list_elem_of_singleton. discriminate.
Defined.

(** X3.  Parsing the same query again changes nothing, in whatever order
    the second range visits the keys, when no two keys are captured as
    the same type name: the mapping a call leaves is a fixed point of
    the call.  (With two keys captured as the same name the second call
    may visit them in the other order and store the other value.) *)
Theorem ParseQuery_idempotent
    (m : gmap string (list string)) (q q' : Values)
    (Hperm : Permutation q q')
    (Hdistinct : NoDup (captured_names q)) :
  ∃ m' : gmap string (list string),
    ParseQuery (Some m) q = Returns (Some m') ∧
    ParseQuery (Some m') q' = Returns (Some m').
Proof.
  destruct (ParseQuery_returns m q) as [m' Hm']. exists m'. split; [done|].
  destruct (ParseQuery_returns m' q') as [m'' Hm'']. rewrite Hm''.
  do 2 f_equal. apply map_eq. intros c.
  rewrite (ParseQuery_lookup _ _ _ c Hm''), (ParseQuery_lookup _ _ _ c Hm').
  rewrite <- (short_Permutation _ _ (filter_captures_NoDup q c Hdistinct)
                (filter_Permutation (captures c) q q' Hperm)).
  by destruct (last _).
Qed.

Lemma ParseQuery_idempotent_witness :
  ∃ m' : gmap string (list string),
    ParseQuery (Some ∅) articles_query = Returns (Some m') ∧
    ParseQuery (Some m') articles_query_rev = Returns (Some m').
Proof.
  apply (ParseQuery_idempotent ∅ articles_query articles_query_rev).
  - apply perm_swap.
  - vm_compute. repeat constructor; [|apply not_elem_of_nil].
    intros ?%list_elem_of_singleton. discriminate.
Defined.

(** Two keys captured as the same name: a second call that visits them
    in the other order stores the other value. *)
Lemma ParseQuery_again_same_capture :
  ParseQuery (Some ∅) [("fields[a]", ["x"]); ("FIELDS[a]", ["y"])]
  = Returns (Some {[ "a" := ["y"] ]}) ∧
  ParseQuery (Some {[ "a" := ["y"] ]}) [("FIELDS[a]", ["y"]); ("fields[a]", ["x"])]
  = Returns (Some {[ "a" := ["x"] ]}).
Proof. split; vm_compute; reflexivity. Qed.

(** ** The projection: when it returns, and what it depends on *)

Section ProjectionFacts.

Context {V : Type}.

Implicit Types (o : list (StructField V)) (f : StructField V).

Lemma project_loop_char dict o fields obj
    (Hdict : ∀ name, dict !! name = Name <$> resolve o name)
    (Hname : ∀ f, f ∈ o → Name f ≠ "")
    (Hdup : NoDup (map Name o)) :
  match project_loop dict o fields obj with
  | Returns obj' =>
      (∀ n f, n ∈ fields → resolve o n = Some f → Exported f = true) ∧
      ∀ name, obj' !! name =
        if bool_decide (name ∈ fields) then
          match resolve o name with
          | Some f => Some (Value f)
          | None => obj !! name
          end
        else obj !! name
  | Panics msg =>
      msg = unexported_message ∧
      ∃ n f, n ∈ fields ∧ resolve o n = Some f ∧ Exported f = false
  end.
Proof.
  revert obj. induction fields as [|n fields IH]; intros obj; cbn [project_loop].
  - split; [by intros n f ?%elem_of_nil|]. intros name.
    by rewrite bool_decide_eq_false_2 by apply not_elem_of_nil.
  - rewrite Hdict. destruct (resolve o n) as [f|] eqn:Hr;
      cbn [fmap option_fmap option_map default].
    + apply resolve_Some in Hr as Hf. destruct Hf as [Hin Hw].
      unfold id. rewrite (proj2 (String.eqb_neq _ _) (Hname f Hin)). cbn [negb].
      unfold field_interface. rewrite (FieldByName_NoDup o f Hdup Hin).
      destruct (Exported f) eqn:Hexp.
      * specialize (IH (<[n := Value f]> obj)).
        destruct (project_loop dict o fields (<[n := Value f]> obj)) as [obj'|msg].
        -- destruct IH as [Hall Hobj']. split.
           ++ intros n' f' [-> | Hn']%elem_of_cons Hr'; [congruence|eauto].
           ++ intros name. rewrite Hobj'.
              destruct (decide (name = n)) as [->|Hne].
              ** rewrite Hr, lookup_insert_eq.
                 rewrite (bool_decide_eq_true_2 (n ∈ n :: fields))
                   by apply list_elem_of_here.
                 by case_bool_decide.
              ** rewrite lookup_insert_ne by done.
                 assert (name ∈ fields ↔ name ∈ n :: fields) as Hiff
                   by (rewrite elem_of_cons; intuition congruence).
                 by rewrite (bool_decide_ext _ _ Hiff).
        -- destruct IH as [-> (n' & f' & Hn' & Hr' & He')]. split; [done|].
           exists n', f'. split; [by apply list_elem_of_further|done].
      * split; [done|]. exists n, f. split; [apply list_elem_of_here|done].
    + specialize (IH obj).
      destruct (project_loop dict o fields obj) as [obj'|msg].
      * destruct IH as [Hall Hobj']. split.
        -- intros n' f' [-> | Hn']%elem_of_cons Hr'; [congruence|eauto].
        -- intros name. rewrite Hobj'.
           destruct (decide (name = n)) as [->|Hne].
           ++ rewrite Hr.
              rewrite (bool_decide_eq_true_2 (n ∈ n :: fields))
                by apply list_elem_of_here.
              by case_bool_decide.
           ++ assert (name ∈ fields ↔ name ∈ n :: fields) as Hiff
                by (rewrite elem_of_cons; intuition congruence).
              by rewrite (bool_decide_ext _ _ Hiff).
      * destruct IH as [-> (n' & f' & Hn' & Hr' & He')]. split; [done|].
        exists n', f'. split; [by apply list_elem_of_further|done].
Qed.

(** X5.  For a host struct (field names non-empty and distinct) the
    projection returns exactly when every requested name that resolves
    stands for an exported field; otherwise [Interface()] panics.  Fields
    that are not requested never matter, exported or not. *)
Theorem project_returns_iff (co : CustomObject V)
    (Hname : ∀ f, f ∈ Object co → Name f ≠ "")
    (Hdup : NoDup (map Name (Object co))) :
  (∃ obj, project co = Returns obj) ↔
  (∀ n f, n ∈ Fields co → resolve (Object co) n = Some f → Exported f = true).
Proof.
  pose proof (project_loop_char (JSONToStruct co) (Object co) (Fields co) ∅
                (JSONToStruct_lookup co) Hname Hdup) as H.
  unfold project, getValue.
  destruct (project_loop _ _ _ _) as [obj|msg].
  - destruct H as [Hall _]. split; [done|eauto].
  - destruct H as [_ (n & f & Hn & Hr & He)]. split.
    + by intros [obj ?].
    + intros Hall. rewrite (Hall n f Hn Hr) in He. done.
Qed.

(** X6.  The projection depends on the requested names as a set: two
    request lists with the same elements, in any order and with any
    repetitions, give the same mapping, or panic alike. *)
Theorem project_fields_as_set (o : list (StructField V)) (fields1 fields2 : list string)
    (Hname : ∀ f, f ∈ o → Name f ≠ "")
    (Hdup : NoDup (map Name o))
    (Hsame : ∀ n, n ∈ fields1 ↔ n ∈ fields2) :
  project {| Fields := fields1; Object := o |}
  = project {| Fields := fields2; Object := o |}.
Proof.
  pose proof (project_loop_char
                (JSONToStruct {| Fields := fields1; Object := o |}) o fields1 ∅
                (JSONToStruct_lookup {| Fields := fields1; Object := o |})
                Hname Hdup) as H1.
  pose proof (project_loop_char
                (JSONToStruct {| Fields := fields2; Object := o |}) o fields2 ∅
                (JSONToStruct_lookup {| Fields := fields2; Object := o |})
                Hname Hdup) as H2.
  unfold project, getValue. cbn [Fields Object] in *.
  destruct (project_loop _ o fields1 ∅) as [obj1|msg1],
           (project_loop _ o fields2 ∅) as [obj2|msg2].
  - f_equal. apply map_eq. intros name.
    rewrite (proj2 H1 name), (proj2 H2 name).
    by rewrite (bool_decide_ext _ _ (Hsame name)).
  - destruct H1 as [Hall _], H2 as [_ (n & f & Hn & Hr & He)].
    rewrite (Hall n f (proj2 (Hsame n) Hn) Hr) in He. done.
  - destruct H2 as [Hall _], H1 as [_ (n & f & Hn & Hr & He)].
    rewrite (Hall n f (proj1 (Hsame n) Hn) Hr) in He. done.
  - destruct H1 as [-> _], H2 as [-> _]. done.
Qed.

End ProjectionFacts.

Lemma project_returns_iff_witness :
  (∃ obj, project {| Fields := ["name"; "secret"]; Object := example_host |}
          = Returns obj) ↔
  (∀ n f, n ∈ ["name"; "secret"] → resolve example_host n = Some f →
          Exported f = true).
Proof.
  apply (project_returns_iff {| Fields := ["name"; "secret"]; Object := example_host |}).
  - intros f Hf. simpl in Hf.
    apply elem_of_cons in Hf as [-> | Hf]; [discriminate|].
    apply list_elem_of_singleton in Hf as ->. discriminate.
  - simpl. repeat constructor; [|apply not_elem_of_nil].
    intros ?%list_elem_of_singleton. discriminate.
Defined.

Lemma project_fields_as_set_witness :
  project {| Fields := ["name"; "missing"; "name"]; Object := example_host |}
  = project {| Fields := ["missing"; "name"]; Object := example_host |}.
Proof.
  apply (project_fields_as_set example_host ["name"; "missing"; "name"]
           ["missing"; "name"]).
  - intros f Hf. unfold example_host in Hf.
    apply elem_of_cons in Hf as [-> | Hf]; [discriminate|].
    apply list_elem_of_singleton in Hf as ->. discriminate.
  - simpl. repeat constructor; [|apply not_elem_of_nil].
    intros ?%list_elem_of_singleton. discriminate.
  - intros n. rewrite !elem_of_cons, !elem_of_nil. tauto.
Defined.

(** ** The two patterns *)

Lemma fold_letter_app (p : ascii) (s s' r : string) :
  Regexp.fold_letter p s = Some s' →
  Regexp.fold_letter p (s +:+ r) = Some (s' +:+ r).
Proof.
  unfold Regexp.fold_letter. destruct s as [|c s]; [done|]. rewrite append_cons.
  destruct (Ascii.eqb (Regexp.lower c) p); [by intros [= ->]|].
  destruct (Ascii.eqb p "s"); [|done].
  destruct s as [|c' s]; [done|]. rewrite append_cons.
  destruct (_ && _); [by intros [= ->]|done].
Qed.

Lemma fold_letter_split (p : ascii) (s s' : string) :
  Regexp.fold_letter p s = Some s' →
  ∃ w, s = w +:+ s' ∧ Regexp.fold_letter p w = Some "".
Proof.
  unfold Regexp.fold_letter. destruct s as [|c s]; [done|].
  destruct (Ascii.eqb (Regexp.lower c) p) eqn:E1.
  - intros [= ->]. exists (String c ""). cbn beta iota. by rewrite ?E1.
  - destruct (Ascii.eqb p "s") eqn:E2; [|done].
    destruct s as [|c' s]; [done|].
    destruct (_ && _) eqn:E3; [|done]. intros [= ->].
    exists (String c (String c' "")). cbn beta iota.
    by rewrite ?E1, ?E2, ?E3.
Qed.

Lemma fold_literal_app (word w t r : string) :
  Regexp.fold_literal word w = Some t →
  Regexp.fold_literal word (w +:+ r) = Some (t +:+ r).
Proof.
  revert w. induction word as [|p word IH]; intros w; simpl.
  - by intros [= ->].
  - destruct (Regexp.fold_letter p w) as [w'|] eqn:E; [|done].
    rewrite (fold_letter_app _ _ _ r E). apply IH.
Qed.

Lemma fold_literal_split (word k rest : string) :
  Regexp.fold_literal word k = Some rest →
  ∃ w, k = w +:+ rest ∧ Regexp.fold_literal word w = Some "".
Proof.
  revert k. induction word as [|p word IH]; intros k; simpl.
  - intros [= ->]. by exists "".
  - destruct (Regexp.fold_letter p k) as [k'|] eqn:E; [|done].
    intros H. destruct (IH _ H) as (w' & -> & Hw').
    destruct (fold_letter_split _ _ _ E) as (w1 & -> & Hw1).
    exists (w1 +:+ w'). split; [by rewrite append_assoc|].
    rewrite (fold_letter_app _ _ _ w' Hw1). by rewrite append_nil_l.
Qed.

Lemma until_final_bracket_Some (s cap : string) :
  Regexp.until_final_bracket s = Some cap ↔
  s = cap +:+ "]" ∧ has_byte "]" cap = false.
Proof.
  revert cap. induction s as [|c s IH]; intros cap; simpl.
  - split; [done|]. intros [H _]. by destruct cap.
  - destruct (Ascii.eqb c "]") eqn:E.
    + apply Ascii.eqb_eq in E as ->. split.
      * destruct s; [|done]. by intros [= <-].
      * intros [H Hc]. destruct cap as [|c' cap].
        -- rewrite append_nil_l in H. by injection H as ->.
        -- rewrite append_cons in H. injection H as <- _. simpl in Hc. done.
    + destruct (Regexp.until_final_bracket s) as [cap'|] eqn:Hs in |- *.
      * split.
        -- intros [= <-]. apply IH in Hs as [-> Hcap].
           split; [by rewrite append_cons|]. simpl. by rewrite E.
        -- intros [H Hc]. destruct cap as [|c' cap].
           ++ rewrite append_nil_l in H. injection H as -> _. done.
           ++ rewrite append_cons in H. injection H as <- ->.
              simpl in Hc. apply orb_false_iff in Hc as [_ Hc].
              assert (Regexp.until_final_bracket (cap +:+ "]") = Some cap) as Hx
                by (by apply IH).
              rewrite Hx in Hs. by injection Hs as ->.
      * split; [done|]. intros [H Hc]. destruct cap as [|c' cap].
        -- rewrite append_nil_l in H. injection H as -> _. done.
        -- rewrite append_cons in H. injection H as <- ->.
           simpl in Hc. apply orb_false_iff in Hc as [_ Hc].
           assert (Regexp.until_final_bracket (cap +:+ "]") = Some cap) as Hx
             by (by apply IH). by rewrite Hx in Hs.
Qed.

(** X7.  The keys [ParseQuery] accepts: a key is captured as [c] exactly
    when it is a spelling of [fields] in any letter case, an opening
    bracket, the bytes [c] and a closing bracket that ends the key,
    where [c] is not empty and holds no closing bracket.  The capture is
    the bytes as written, in their case. *)
Theorem fields_submatch_iff (k c : string) :
  Regexp.fields_submatch k = Some c ↔
  c ≠ "" ∧ has_byte "]" c = false ∧
  ∃ w, Regexp.fold_literal "fields" w = Some "" ∧ k = w +:+ "[" +:+ c +:+ "]".
Proof.
  unfold Regexp.fields_submatch. split.
  - destruct (Regexp.fold_literal "fields" k) as [[|b rest]|] eqn:Hw; try done.
    destruct (Ascii.eqb b "[") eqn:Hb; [|done].
    apply Ascii.eqb_eq in Hb as ->.
    destruct (Regexp.until_final_bracket rest) as [[|c0 cap]|] eqn:Hcap; try done.
    intros [= <-]. apply until_final_bracket_Some in Hcap as [-> Hc].
    split; [done|]. split; [done|].
    apply fold_literal_split in Hw as (w & -> & Hw). by exists w.
  - intros (Hne & Hc & w & Hw & ->).
    rewrite (fold_literal_app _ _ _ ("[" +:+ c +:+ "]") Hw), append_nil_l.
    change ("[" +:+ c +:+ "]") with (String "[" (c +:+ "]")).
    cbn beta iota. change (Ascii.eqb "[" "[") with true. cbn beta iota.
    rewrite (proj2 (until_final_bracket_Some (c +:+ "]") c)) by done.
    by destruct c.
Qed.

Lemma fields_submatch_iff_witness :
  Regexp.fields_submatch "Fields[people]" = Some "people".
Proof.
  apply (proj2 (fields_submatch_iff "Fields[people]" "people")).
  split; [discriminate|]. split; [reflexivity|].
  exists "Fields". split; reflexivity.
Defined.

Lemma before_comma_free (tag : string) :
  has_byte "," (Regexp.before_comma tag) = false.
Proof.
  induction tag as [|c tag IH]; [done|]. simpl.
  destruct (Ascii.eqb c ",") eqn:E; [done|]. simpl. by rewrite E.
Qed.

(** X8.  What [JSONToStruct] maps: a key of the result is never empty,
    never ["-"] and holds no comma, and its value is the Go name of a
    field of the host whose [json] tag starts with that key, followed by a
    comma or by nothing.  So the names [""] and ["-"] can be requested
    but never resolve. *)
Theorem JSONToStruct_keys {V} (co : CustomObject V) (key name : string)
    (Hkey : JSONToStruct co !! key = Some name) :
  key ≠ "" ∧ key ≠ "-" ∧ has_byte "," key = false ∧
  ∃ f tag, f ∈ Object co ∧ Name f = name ∧ JSONTag f = Some tag ∧
           Regexp.before_comma tag = key.
Proof.
  rewrite JSONToStruct_lookup in Hkey.
  destruct (resolve (Object co) key) as [f|] eqn:Hr; [|done].
  injection Hkey as <-. apply resolve_Some in Hr as [Hin Hw].
  unfold wire_name, Regexp.tag_submatch in Hw.
  destruct (JSONTag f) as [tag|] eqn:Htag; [|done].
  pose proof (before_comma_free tag) as Hfree.
  destruct (Regexp.before_comma tag) as [|c t] eqn:Hb; [done|].
  destruct (String.eqb (String c t) "-") eqn:Hdash; [done|].
  injection Hw as <-. apply String.eqb_neq in Hdash.
  split; [done|]. split; [done|]. split; [done|].
  exists f, tag. by rewrite Hb.
Qed.

Lemma JSONToStruct_keys_witness :
  "name" ≠ "" ∧ "name" ≠ "-" ∧ has_byte "," "name" = false ∧
  ∃ f tag, f ∈ example_host ∧ Name f = "Name" ∧ JSONTag f = Some tag ∧
           Regexp.before_comma tag = "name".
Proof.
  apply (JSONToStruct_keys {| Fields := []; Object := example_host |} "name" "Name").
  vm_compute. reflexivity.
Defined.

(** ** The containers: what decoding refuses and what encoding forgets *)

(** X9.  The two methods of a container are not inverse on the empty
    container: [MarshalJSON] writes [null] for it, and [UnmarshalJSON]
    refuses [null] with its own error, whatever container receives it. *)
Theorem empty_container_not_read_back :
  (∀ c : RelationshipDataContainer,
     RelationshipDataContainer_MarshalJSON zero_Container = Ok "null" ∧
     RelationshipDataContainer_UnmarshalJSON c "null"
     = (c, Some (ErrorString "Invalid json for relationship data array/object"))) ∧
  (∀ any (marshal_any : any → result string) (unmarshal_any : string → any)
     (c : DataContainer any),
     DataContainer_MarshalJSON marshal_any zero_Container = Ok "null" ∧
     DataContainer_UnmarshalJSON unmarshal_any c "null"
     = (c, Some (ErrorString "expected a JSON encoded object or array"))).
Proof. split; intros; split; reflexivity. Qed.

(** X10.  A payload that is not valid JSON, whatever its first byte,
    leaves the container as it was and gives an error: nothing is
    decoded from the part of the text that is well formed. *)
Theorem UnmarshalJSON_invalid_unchanged :
  (∀ (c : RelationshipDataContainer) (payload : string),
     Scanner.checkValid payload = false →
     ∃ e, RelationshipDataContainer_UnmarshalJSON c payload = (c, Some e)) ∧
  (∀ any (unmarshal_any : string → any) (c : DataContainer any) (payload : string),
     Scanner.checkValid payload = false →
     ∃ e, DataContainer_UnmarshalJSON unmarshal_any c payload = (c, Some e)).
Proof.
  split.
  - intros [o a] payload Hv. unfold RelationshipDataContainer_UnmarshalJSON.
    unfold Decode.Unmarshal. rewrite Hv.
    destruct (GoStrings.HasPrefix payload "{"); [eauto|].
    destruct (GoStrings.HasPrefix payload "["); eauto.
  - intros any unmarshal_any [o a] payload Hv. unfold DataContainer_UnmarshalJSON.
    unfold Decode.Unmarshal. rewrite Hv.
    destruct (GoStrings.HasPrefix payload "{"); [eauto|].
    destruct (GoStrings.HasPrefix payload "["); eauto.
Qed.

Lemma UnmarshalJSON_invalid_unchanged_witness :
  ∃ e, DataContainer_UnmarshalJSON unmarshal_text
         {| DataObject := Some bare_resource; DataArray := None |} "{,}"
       = ({| DataObject := Some bare_resource; DataArray := None |}, Some e).
Proof.
  apply (proj2 UnmarshalJSON_invalid_unchanged string unmarshal_text
           {| DataObject := Some bare_resource; DataArray := None |} "{,}").
  reflexivity.
Defined.

(** X11.  [UnmarshalJSON] does not clear the field it does not decode
    into, and [MarshalJSON] looks at [DataArray] first: an object decoded
    into a container whose [DataArray] is set is not what the container
    then encodes, it still encodes the array it had. *)
Theorem stale_array_shadows_decoded_object :
  (∀ (c : RelationshipDataContainer) (xs : list RelationshipData) (rest : string),
     DataArray c = Some xs →
     RelationshipDataContainer_MarshalJSON
       (RelationshipDataContainer_UnmarshalJSON c (String "{" rest)).1
     = Encode.marshal_slice marshal_RelationshipData (Some xs)) ∧
  (∀ any (marshal_any : any → result string) (unmarshal_any : string → any)
     (c : DataContainer any) (xs : list (Data any)) (rest : string),
     DataArray c = Some xs →
     DataContainer_MarshalJSON marshal_any
       (DataContainer_UnmarshalJSON unmarshal_any c (String "{" rest)).1
     = Encode.marshal_slice (marshal_Data marshal_any) (Some xs)).
Proof.
  split.
  - intros c xs rest Hxs.
    rewrite (proj1 (proj1 UnmarshalJSON_first_byte c rest)).
    unfold RelationshipDataContainer_MarshalJSON. simpl. by rewrite Hxs.
  - intros any marshal_any unmarshal_any c xs rest Hxs.
    rewrite (proj1 (proj1 (proj2 UnmarshalJSON_first_byte) any unmarshal_any c rest)).
    unfold DataContainer_MarshalJSON. simpl. by rewrite Hxs.
Qed.

Lemma stale_array_shadows_decoded_object_witness :
  RelationshipDataContainer_MarshalJSON
    (RelationshipDataContainer_UnmarshalJSON
       {| DataObject := None; DataArray := Some [] |} (String "{" "}")).1
  = Encode.marshal_slice marshal_RelationshipData (Some []).
Proof.
  apply (proj1 stale_array_shadows_decoded_object
           {| DataObject := None; DataArray := Some [] |} [] "}").
  reflexivity.
Defined.

(** X12.  The encoding of a document does not tell a nil [Data] from an
    empty container, a nil [Included] from an empty one, or a nil [Meta]
    from an empty map: each pair is written as the same text, so no
    decoder can give back the second of each pair. *)
Theorem Document_encoding_conflates
    {any} (marshal_any : any → result string)
    (links : option Links) (data : option (DataContainer any))
    (included : option (list (Data any))) (meta : option (gmap string any)) :
  marshal_Document marshal_any
    {| DocLinks := links; DocData := Some zero_Container;
       Included := included; Meta := meta |}
  = marshal_Document marshal_any
      {| DocLinks := links; DocData := None; Included := included; Meta := meta |} ∧
  marshal_Document marshal_any
    {| DocLinks := links; DocData := data; Included := Some []; Meta := meta |}
  = marshal_Document marshal_any
      {| DocLinks := links; DocData := data; Included := None; Meta := meta |} ∧
  marshal_Document marshal_any
    {| DocLinks := links; DocData := data; Included := included; Meta := Some ∅ |}
  = marshal_Document marshal_any
      {| DocLinks := links; DocData := data; Included := included; Meta := None |}.
Proof. split; [|split]; reflexivity. Qed.

(** ** Value texts and the scanner *)

Module TextFacts.

Import Scanner Quiet Encode QuietFacts QuoteFacts.

Lemma trim_left_id (c : ascii) (r : string) :
  isSpace c = false → trim_left (String c r) = String c r.
Proof. intros H. simpl. by rewrite H. Qed.

Lemma trim_right_snoc (t : string) (c : ascii) :
  isSpace c = false → trim_right (t +:+ String c "") = t +:+ String c "".
Proof.
  intros H. induction t as [|a t IH].
  - rewrite append_nil_l. simpl. by rewrite H.
  - rewrite append_cons. simpl. rewrite IH.
    by destruct (t +:+ String c "") eqn:E; [destruct t|].
Qed.

Lemma trim_id (c : ascii) (t : string) (z : ascii) :
  isSpace c = false → isSpace z = false →
  trim (String c (t +:+ String z "")) = String c (t +:+ String z "").
Proof.
  intros Hc Hz. unfold trim. rewrite (trim_left_id _ _ Hc).
  rewrite <- append_cons. by apply trim_right_snoc.
Qed.

Lemma quiet_step d cfg c rest cfg' op :
  step cfg c = Some (cfg', op) →
  quiet_byte d (length cfg.2) c op rest = true →
  quiet d cfg (String c rest) = quiet d cfg' rest.
Proof. intros Hs Hq. simpl. by rewrite Hs, Hq. Qed.

Lemma step_value_end st k c :
  value_end st = true → c = ","%char ∨ c = "}"%char ∨ c = "]"%char →
  step (st, k) c = stateEndValue k c.
Proof. intros Hst [-> | [-> | ->]]; destruct st; try discriminate; reflexivity. Qed.

Lemma value_text_quote (s : string) : value_text (quote s).
Proof.
  split; [|split].
  - exists dq, (quote_body s +:+ String dq ""). by split.
  - unfold quote. by apply trim_id.
  - intros d k _ _. exists EndValue. split; [|done]. apply quiet_quote. by left.
Qed.


Lemma leb_gt_false (n d : nat) : (d < n)%nat → (n <=? d)%nat = false.
Proof. intros H. apply Nat.leb_gt. lia. Qed.

(** The separators of a container are quiet below its own depth. *)
Lemma quiet_close_object d k st rest :
  value_end st = true → (d ≤ length k)%nat →
  quiet d (st, ParseObjectValue :: k) (String "}" rest) = quiet d (after k, k) rest.
Proof.
  intros Hst Hd. apply (quiet_step _ _ _ _ _ ScanEndObject).
  - rewrite (step_value_end _ _ _ Hst) by auto. by destruct k.
  - unfold quiet_byte. rewrite leb_gt_false by (simpl; lia). done.
Qed.

Lemma quiet_next_member d k st rest :
  value_end st = true → (d ≤ length k)%nat →
  quiet d (st, ParseObjectValue :: k) (String "," rest)
  = quiet d (BeginString, ParseObjectKey :: k) rest.
Proof.
  intros Hst Hd. apply (quiet_step _ _ _ _ _ ScanObjectValue).
  - by rewrite (step_value_end _ _ _ Hst) by auto.
  - unfold quiet_byte. rewrite leb_gt_false by (simpl; lia). done.
Qed.

Lemma quiet_colon d k rest :
  (d ≤ length k)%nat →
  quiet d (EndValue, ParseObjectKey :: k) (String ":" rest)
  = quiet d (BeginValue, ParseObjectValue :: k) rest.
Proof.
  intros Hd. apply (quiet_step _ _ _ _ _ ScanObjectKey); [done|].
  unfold quiet_byte. rewrite leb_gt_false by (simpl; lia). done.
Qed.

Lemma quiet_close_array d k st rest :
  value_end st = true → (d ≤ length k)%nat →
  quiet d (st, ParseArrayValue :: k) (String "]" rest) = quiet d (after k, k) rest.
Proof.
  intros Hst Hd. apply (quiet_step _ _ _ _ _ ScanEndArray).
  - rewrite (step_value_end _ _ _ Hst) by auto. by destruct k.
  - unfold quiet_byte. rewrite leb_gt_false by (simpl; lia). done.
Qed.

Lemma quiet_next_elem d k st rest :
  value_end st = true → (d ≤ length k)%nat →
  quiet d (st, ParseArrayValue :: k) (String "," rest)
  = quiet d (BeginValue, ParseArrayValue :: k) rest.
Proof.
  intros Hst Hd. apply (quiet_step _ _ _ _ _ ScanArrayValue).
  - by rewrite (step_value_end _ _ _ Hst) by auto.
  - unfold quiet_byte. rewrite leb_gt_false by (simpl; lia). done.
Qed.

Lemma quiet_value d k v rest :
  value_text v → (d ≤ length k)%nat → k ≠ [] →
  ∃ st, value_end st = true ∧
        quiet d (BeginValue, k) (v +:+ rest) = quiet d (st, k) rest.
Proof.
  intros (_ & _ & Hq) Hd Hk. destruct (Hq d k Hk Hd) as (st & Hst & Hend).
  exists st. split; [done|]. by apply quiet_app.
Qed.

Lemma member_text_app (key v rest : string) :
  member_text (key, v) +:+ rest = quote key +:+ String ":" (v +:+ rest).
Proof. unfold member_text. simpl. by rewrite !append_assoc. Qed.

(** The members of an object and its closing brace, from the states in
    which a key may start. *)
Lemma quiet_members d k (ms : list (string * string)) st0 :
  ms ≠ [] → Forall (λ kv, value_text kv.2) ms → (d ≤ length k)%nat →
  st0 = BeginStringOrEmpty ∨ st0 = BeginString →
  quiet d (st0, ParseObjectKey :: k) (GoStrings.Join (map member_text ms) "," +:+ "}")
  = Some (after k, k).
Proof.
  intros Hne Hms Hd. revert st0.
  induction ms as [|[key v] ms IH]; [done|]. intros st0 Hst0.
  apply Forall_cons in Hms as [Hv Hms]. simpl in Hv.
  assert (Hkey : ∀ rest,
            quiet d (st0, ParseObjectKey :: k) (quote key +:+ rest)
            = quiet d (EndValue, ParseObjectKey :: k) rest).
  { intros rest. apply quiet_app, quiet_quote. destruct Hst0 as [-> | ->]; auto. }
  destruct ms as [|m' ms].
  - change (GoStrings.Join (map member_text [(key, v)]) ",") with (member_text (key, v)).
    rewrite member_text_app, Hkey, quiet_colon by done.
    destruct (quiet_value d (ParseObjectValue :: k) v "}" Hv) as (st & Hst & ->);
      [simpl; lia | done |].
    by rewrite quiet_close_object.
  - change (GoStrings.Join (map member_text ((key, v) :: m' :: ms)) ",")
      with (member_text (key, v) +:+ "," +:+ GoStrings.Join (map member_text (m' :: ms)) ",").
    rewrite !append_assoc, member_text_app, Hkey, quiet_colon by done.
    destruct (quiet_value d (ParseObjectValue :: k) v
                ("," +:+ GoStrings.Join (map member_text (m' :: ms)) "," +:+ "}") Hv)
      as (st & Hst & ->); [simpl; lia | done |].
    change ("," +:+ ?x) with (String "," x).
    rewrite quiet_next_member by done. apply IH; auto.
Qed.

Lemma quiet_begin_or_empty d k v :
  value_text v → quiet d (BeginValueOrEmpty, k) v = quiet d (BeginValue, k) v.
Proof.
  intros ((c & r & -> & Hc & Hne) & _). simpl. rewrite Hc.
  by rewrite (proj2 (Ascii.eqb_neq c "]") Hne).
Qed.

Lemma quiet_begin_or_empty_app d k v rest :
  value_text v →
  quiet d (BeginValueOrEmpty, k) (v +:+ rest) = quiet d (BeginValue, k) (v +:+ rest).
Proof.
  intros ((c & r & -> & Hc & Hne) & _). rewrite append_cons. simpl. rewrite Hc.
  by rewrite (proj2 (Ascii.eqb_neq c "]") Hne).
Qed.

(** The elements of an array and its closing bracket. *)
Lemma quiet_elems d k (elems : list string) st0 :
  elems ≠ [] → Forall value_text elems → (d ≤ length k)%nat →
  st0 = BeginValueOrEmpty ∨ st0 = BeginValue →
  quiet d (st0, ParseArrayValue :: k) (GoStrings.Join elems "," +:+ "]")
  = Some (after k, k).
Proof.
  intros Hne Hes Hd. revert st0.
  induction elems as [|v elems IH]; [done|]. intros st0 Hst0.
  apply Forall_cons in Hes as [Hv Hes].
  assert (Hstart : ∀ rest,
            quiet d (st0, ParseArrayValue :: k) (v +:+ rest)
            = quiet d (BeginValue, ParseArrayValue :: k) (v +:+ rest)).
  { intros rest. destruct Hst0 as [-> | ->]; [|done].
    by apply quiet_begin_or_empty_app. }
  destruct elems as [|v' elems].
  - change (GoStrings.Join [v] ",") with v. rewrite Hstart.
    destruct (quiet_value d (ParseArrayValue :: k) v "]" Hv) as (st & Hst & ->);
      [simpl; lia | done |].
    by rewrite quiet_close_array.
  - change (GoStrings.Join (v :: v' :: elems) ",")
      with (v +:+ "," +:+ GoStrings.Join (v' :: elems) ",").
    rewrite !append_assoc, Hstart.
    destruct (quiet_value d (ParseArrayValue :: k) v
                ("," +:+ GoStrings.Join (v' :: elems) "," +:+ "]") Hv)
      as (st & Hst & ->); [simpl; lia | done |].
    change ("," +:+ ?x) with (String "," x).
    rewrite quiet_next_elem by done. apply IH; auto.
Qed.

Lemma object_text_unfold (ms : list (string * string)) :
  object_text ms = String "{" (GoStrings.Join (map member_text ms) "," +:+ String "}" "").
Proof. reflexivity. Qed.

Lemma array_text_unfold (elems : list string) :
  array_text elems = String "[" (GoStrings.Join elems "," +:+ String "]" "").
Proof. reflexivity. Qed.

Lemma quiet_object d k (ms : list (string * string)) :
  Forall (λ kv, value_text kv.2) ms → (d ≤ length k)%nat →
  quiet d (BeginValue, k) (object_text ms) = Some (after k, k).
Proof.
  intros Hms Hd. rewrite object_text_unfold.
  rewrite (quiet_step d (BeginValue, k) "{" _
             (BeginStringOrEmpty, ParseObjectKey :: k) ScanBeginObject) by done.
  destruct ms as [|m ms].
  - change (GoStrings.Join (map member_text []) "," +:+ String "}" "") with (String "}" "").
    rewrite (quiet_step d (BeginStringOrEmpty, ParseObjectKey :: k) "}" ""
               (after k, k) ScanEndObject); [done|by destruct k|].
    unfold quiet_byte. rewrite leb_gt_false by (simpl; lia). done.
  - apply quiet_members; auto.
Qed.

Lemma quiet_array d k (elems : list string) :
  Forall value_text elems → (d ≤ length k)%nat →
  quiet d (BeginValue, k) (array_text elems) = Some (after k, k).
Proof.
  intros Hes Hd. rewrite array_text_unfold.
  rewrite (quiet_step d (BeginValue, k) "[" _
             (BeginValueOrEmpty, ParseArrayValue :: k) ScanBeginArray) by done.
  destruct elems as [|v elems].
  - change (GoStrings.Join [] "," +:+ String "]" "") with (String "]" "").
    rewrite (quiet_step d (BeginValueOrEmpty, ParseArrayValue :: k) "]" ""
               (after k, k) ScanEndArray); [done|by destruct k|].
    unfold quiet_byte. rewrite leb_gt_false by (simpl; lia). done.
  - apply quiet_elems; auto.
Qed.

Lemma value_text_object (ms : list (string * string)) :
  Forall (λ kv, value_text kv.2) ms → value_text (object_text ms).
Proof.
  intros Hms. split; [|split].
  - rewrite object_text_unfold. eexists _, _. by split.
  - rewrite object_text_unfold. by apply trim_id.
  - intros d k Hk Hd. exists EndValue. split; [|done].
    rewrite (quiet_object d k ms Hms Hd). by destruct k.
Qed.

Lemma value_text_array (elems : list string) :
  Forall value_text elems → value_text (array_text elems).
Proof.
  intros Hes. split; [|split].
  - rewrite array_text_unfold. eexists _, _. by split.
  - rewrite array_text_unfold. by apply trim_id.
  - intros d k Hk Hd. exists EndValue. split; [|done].
    rewrite (quiet_array d k elems Hes Hd). by destruct k.
Qed.

(** A text that is passed over quietly from the start to the end of a
    top-level value is valid and is its own compact form. *)
Lemma top_level_valid (v : string) :
  quiet 0 start v = Some (EndTop, []) →
  checkValid v = true ∧ compact v = Some v.
Proof.
  intros Hq.
  assert (Hrun : run start v = Some (EndTop, [])).
  { rewrite <- (append_nil_r v). by rewrite (run_quiet _ _ _ _ "" Hq). }
  assert (Hvalid : checkValid v = true) by (unfold checkValid; by rewrite Hrun).
  split; [done|]. unfold compact. rewrite Hvalid.
  rewrite <- (append_nil_r v) at 1. rewrite (compact_quiet _ _ _ _ "" Hq).
  simpl. by rewrite append_nil_r.
Qed.

Lemma object_top_level (ms : list (string * string)) :
  Forall (λ kv, value_text kv.2) ms →
  checkValid (object_text ms) = true ∧ compact (object_text ms) = Some (object_text ms).
Proof. intros Hms. apply top_level_valid. by apply (quiet_object 0 []). Qed.

Lemma array_top_level (elems : list string) :
  Forall value_text elems →
  checkValid (array_text elems) = true ∧ compact (array_text elems) = Some (array_text elems).
Proof. intros Hes. apply top_level_valid. by apply (quiet_array 0 []). Qed.

(** The pieces of an object and of an array. *)
Lemma chunks_members (ms : list (string * string)) st0 :
  ms ≠ [] → Forall (λ kv, value_text kv.2) ms →
  st0 = BeginStringOrEmpty ∨ st0 = BeginString →
  chunks (st0, [ParseObjectKey]) "" (GoStrings.Join (map member_text ms) "," +:+ "}")
  = flat_map (λ kv, [quote kv.1; kv.2]) ms.
Proof.
  intros Hne Hms. revert st0.
  induction ms as [|[key v] ms IH]; [done|]. intros st0 Hst0.
  apply Forall_cons in Hms as [Hv Hms]. simpl in Hv.
  assert (Hkey : ∀ rest,
            chunks (st0, [ParseObjectKey]) "" (quote key +:+ String ":" rest)
            = quote key :: chunks (BeginValue, [ParseObjectValue]) "" rest).
  { intros rest.
    rewrite (chunks_quiet _ _ (EndValue, [ParseObjectKey]));
      [|apply quiet_quote; destruct Hst0 as [-> | ->]; auto].
    rewrite append_nil_l. reflexivity. }
  assert (Hval : ∀ rest, ∃ st, value_end st = true ∧
            chunks (BeginValue, [ParseObjectValue]) "" (v +:+ rest)
            = chunks (st, [ParseObjectValue]) v rest).
  { intros rest. destruct Hv as (_ & _ & Hq).
    destruct (Hq 1%nat [ParseObjectValue]) as (st & Hst & Hend); [done|simpl; lia|].
    exists st. split; [done|]. by rewrite (chunks_quiet _ _ _ "" rest Hst). }
  destruct ms as [|m' ms].
  - change (GoStrings.Join (map member_text [(key, v)]) ",") with (member_text (key, v)).
    rewrite member_text_app, Hkey. destruct (Hval "}") as (st & Hst & ->).
    change "}" with (String "}" ""). cbn [chunks].
    rewrite (step_value_end _ _ _ Hst) by auto. reflexivity.
  - change (GoStrings.Join (map member_text ((key, v) :: m' :: ms)) ",")
      with (member_text (key, v) +:+ "," +:+ GoStrings.Join (map member_text (m' :: ms)) ",").
    rewrite !append_assoc, member_text_app, Hkey.
    destruct (Hval ("," +:+ GoStrings.Join (map member_text (m' :: ms)) "," +:+ "}"))
      as (st & Hst & ->).
    change ("," +:+ ?x) with (String "," x).
    cbn [chunks]. rewrite (step_value_end _ _ _ Hst) by auto.
    cbn [stateEndValue isSpace]. simpl Ascii.eqb. cbn beta iota.
    change (flat_map (λ kv : string * string, [quote kv.1; kv.2]) ((key, v) :: m' :: ms))
      with (quote key :: v :: flat_map (λ kv : string * string, [quote kv.1; kv.2]) (m' :: ms)).
    f_equal. f_equal. apply IH; auto.
Qed.

End TextFacts.

Module PieceFacts.

Import Scanner Quiet Encode QuietFacts QuoteFacts TextFacts.

Lemma chunks_elems (elems : list string) st0 :
  elems ≠ [] → Forall value_text elems →
  st0 = BeginValueOrEmpty ∨ st0 = BeginValue →
  chunks (st0, [ParseArrayValue]) "" (GoStrings.Join elems "," +:+ "]") = elems.
Proof.
  intros Hne Hes. revert st0.
  induction elems as [|v elems IH]; [done|]. intros st0 Hst0.
  apply Forall_cons in Hes as [Hv Hes].
  assert (Hval : ∀ rest, ∃ st, value_end st = true ∧
            chunks (st0, [ParseArrayValue]) "" (v +:+ rest)
            = chunks (st, [ParseArrayValue]) v rest).
  { intros rest. pose proof Hv as (_ & _ & Hq).
    destruct (Hq 1%nat [ParseArrayValue]) as (st & Hst & Hend); [done|simpl; lia|].
    exists st. split; [done|].
    pose proof (chunks_quiet _ _ _ "" rest Hst) as Hch. rewrite append_nil_l in Hch.
    rewrite <- Hch. destruct Hst0 as [-> | ->]; [|done].
    pose proof Hv as ((c & r & -> & Hc & Hnb) & _).
    rewrite append_cons. cbn [chunks step].
    by rewrite Hc, (proj2 (Ascii.eqb_neq c "]") Hnb). }
  destruct elems as [|v' elems].
  - change (GoStrings.Join [v] ",") with v.
    destruct (Hval "]") as (st & Hst & ->).
    change "]" with (String "]" ""). cbn [chunks].
    rewrite (step_value_end _ _ _ Hst) by auto. reflexivity.
  - change (GoStrings.Join (v :: v' :: elems) ",")
      with (v +:+ "," +:+ GoStrings.Join (v' :: elems) ",").
    rewrite !append_assoc.
    destruct (Hval ("," +:+ GoStrings.Join (v' :: elems) "," +:+ "]")) as (st & Hst & ->).
    change ("," +:+ ?x) with (String "," x).
    cbn [chunks]. rewrite (step_value_end _ _ _ Hst) by auto.
    cbn [stateEndValue isSpace]. simpl Ascii.eqb. cbn beta iota.
    f_equal. apply IH; auto.
Qed.

Lemma value_text_trim (v : string) : value_text v → trim v = v.
Proof. by intros (_ & H & _). Qed.

Lemma value_text_nonempty (v : string) : value_text v → v ≠ "".
Proof. by intros ((c & r & -> & _) & _). Qed.

Lemma map_trim_values (vs : list string) :
  Forall value_text vs → map trim vs = vs.
Proof.
  induction 1 as [|v vs Hv _ IH]; [done|]. simpl.
  by rewrite (value_text_trim v Hv), IH.
Qed.

Lemma not_sole_empty (a b : string) (l : list string) :
  match a :: b :: l with [EmptyString] => [] | ps => ps end = a :: b :: l.
Proof. by destruct a. Qed.

Lemma pieces_array (elems : list string) :
  Forall value_text elems → pieces (array_text elems) = elems.
Proof.
  intros Hes. rewrite array_text_unfold. destruct elems as [|v elems]; [done|].
  unfold pieces.
  change (step start "[") with (Some ((BeginValueOrEmpty, [ParseArrayValue]), ScanBeginArray)).
  cbn beta iota.
  change (GoStrings.Join (v :: elems) "," +:+ String "]" "")
    with (GoStrings.Join (v :: elems) "," +:+ "]").
  rewrite chunks_elems by auto. rewrite (map_trim_values _ Hes).
  apply Forall_cons in Hes as [Hv _]. apply value_text_nonempty in Hv.
  destruct v; [done|]. by destruct elems.
Qed.

Lemma pieces_object (ms : list (string * string)) :
  Forall (λ kv, value_text kv.2) ms →
  pairs (pieces (object_text ms)) = map (λ kv, (quote kv.1, kv.2)) ms.
Proof.
  intros Hms. rewrite object_text_unfold. destruct ms as [|m ms]; [done|].
  unfold pieces.
  change (step start "{")
    with (Some ((BeginStringOrEmpty, [ParseObjectKey]), ScanBeginObject)).
  cbn beta iota.
  change (GoStrings.Join (map member_text (m :: ms)) "," +:+ String "}" "")
    with (GoStrings.Join (map member_text (m :: ms)) "," +:+ "}").
  rewrite chunks_members by auto.
  assert (Hflat : Forall value_text
            (flat_map (λ kv : string * string, [quote kv.1; kv.2]) (m :: ms))).
  { clear -Hms. induction Hms as [|kv l Hkv _ IH]; [constructor|].
    simpl. constructor; [apply value_text_quote|]. by constructor. }
  rewrite (map_trim_values _ Hflat). clear Hflat.
  destruct m as [key v]. cbn [flat_map app fst snd].
  assert (Hp : ∀ l : list (string * string),
            pairs (flat_map (λ kv : string * string, [quote kv.1; kv.2]) l)
            = map (λ kv : string * string, (quote kv.1, kv.2)) l).
  { induction l as [|[k' v'] l IH]; [done|]. simpl. by rewrite IH. }
  rewrite not_sole_empty. cbn [pairs]. by rewrite Hp.
Qed.

End PieceFacts.

Module DecodeFacts.

Import Scanner Quiet Encode QuietFacts QuoteFacts TextFacts PieceFacts.

Lemma and_then_done {A} (a : A) (next : A → decoded A) :
  Decode.and_then (Decode.done a) next = next a.
Proof. unfold Decode.and_then. simpl. by destruct (next a). Qed.

(** Members that each decode without an error are folded into the
    value. *)
Lemma into_members_fold {A X} (set : string → string → A → decoded A)
    (enc : X → string * string) (upd : X → A → A) (xs : list X) (a : A) :
  Forall (λ x, ∀ a, ∃ key, Unquote.unquote (enc x).1 = Some key
                           ∧ set key (enc x).2 a = Decode.done (upd x a)) xs →
  Decode.into_members set (map enc xs) a
  = Decode.done (foldl (λ a x, upd x a) a xs).
Proof.
  intros H. revert a. induction H as [|x xs Hx _ IH]; intros a; [done|].
  simpl. destruct (enc x) as [klit vraw] eqn:E.
  destruct (Hx a) as (key & Hk & Hset). rewrite ?E in Hk, Hset. simpl in *.
  by rewrite Hk, Hset, and_then_done.
Qed.

Lemma Unmarshal_value {A} (dec : string → A → decoded A) (v : string) (cur : A) :
  value_text v → checkValid v = true →
  Decode.Unmarshal dec v cur
  = (now (dec v cur), first_error (abort (dec v cur)) (saved (dec v cur))).
Proof.
  intros Hv Hc. unfold Decode.Unmarshal, value_of.
  by rewrite Hc, (value_text_trim v Hv).
Qed.

Lemma into_string_quote (field s cur : string) :
  valid_utf8 s = true → Decode.into_string field (quote s) cur = Decode.done s.
Proof.
  intros Hs. unfold Decode.into_string.
  change (Decode.kind_of (quote s)) with Decode.KString.
  by rewrite (unquote_quote s Hs).
Qed.

Lemma into_struct_object {A} (field : string) (set : string → string → A → decoded A)
    (ms : list (string * string)) (cur : A) :
  Forall (λ kv, value_text kv.2) ms →
  Decode.into_struct field set (object_text ms) cur
  = Decode.into_members set (map (λ kv, (quote kv.1, kv.2)) ms) cur.
Proof.
  intros Hms. unfold Decode.into_struct.
  change (Decode.kind_of (object_text ms)) with Decode.KObject.
  by rewrite pieces_object.
Qed.

Lemma Forall_filter {A} (P : A → Prop) (f : A → bool) (l : list A) :
  Forall P l → Forall P (List.filter f l).
Proof.
  induction 1 as [|x l Hx _ IH]; simpl; [constructor|].
  destruct (f x); [by constructor|done].
Qed.

(** *** [Links] *)

Lemma marshal_Links_members (l : Links) :
  marshal_Links l
  = Ok (object_text
          (map (λ kv, (kv.1, quote kv.2))
               (List.filter (λ kv, negb (is_empty_string kv.2)) (Links_fields l)))).
Proof. destruct l as [[|] [|] [|] [|] [|] [|]]; reflexivity. Qed.

Lemma Links_set_quote (key s : string) (a : Links) :
  In key Links_names → valid_utf8 s = true →
  Unquote.unquote (quote key) = Some key ∧
  Links_set key (quote s) a = Decode.done (Links_update (key, s) a).
Proof.
  intros Hkey Hs.
  assert (Hstr : ∀ f cur, Decode.into_string f (quote s) cur = Decode.done s)
    by (intros; by apply into_string_quote).
  simpl in Hkey.
  destruct Hkey as [<- | [<- | [<- | [<- | [<- | [<- | []]]]]]];
    (split; [reflexivity|]); unfold Links_set;
    match goal with
    | |- context [Decode.field_of Links_names ?k] =>
        change (Decode.field_of Links_names k) with (Some k)
    end; cbv iota beta; by rewrite Hstr.
Qed.

Lemma Links_fold_fields (l : Links) :
  foldl (λ a kv, Links_update kv a) zero_Links
    (List.filter (λ kv, negb (is_empty_string kv.2)) (Links_fields l)) = l.
Proof. destruct l as [[|] [|] [|] [|] [|] [|]]; reflexivity. Qed.

Lemma Links_values (l : Links) :
  Forall (λ kv : string * string, value_text kv.2)
    (map (λ kv, (kv.1, quote kv.2))
         (List.filter (λ kv, negb (is_empty_string kv.2)) (Links_fields l))).
Proof.
  apply Forall_map, Forall_forall. intros kv _. apply value_text_quote.
Qed.

Lemma into_Links_round_trip (l : Links) :
  Forall (λ kv, valid_utf8 kv.2 = true) (Links_fields l) →
  into_Links
    (object_text
       (map (λ kv, (kv.1, quote kv.2))
            (List.filter (λ kv, negb (is_empty_string kv.2)) (Links_fields l))))
    zero_Links
  = Decode.done l.
Proof.
  intros Hl. unfold into_Links.
  rewrite (into_struct_object _ _ _ _ (Links_values l)), map_map.
  rewrite (into_members_fold Links_set (λ kv, (quote kv.1, quote kv.2))
             Links_update).
  - by rewrite Links_fold_fields.
  - apply Forall_filter.
    assert (Hkeys : Forall (λ kv : string * string, In kv.1 Links_names) (Links_fields l))
      by (repeat constructor; simpl; auto 10).
    clear -Hl Hkeys. induction Hl as [|kv fs Hkv _ IH]; [constructor|].
    apply Forall_cons in Hkeys as [Hk Hkeys]. constructor; [|by apply IH].
    intros a. exists kv.1. destruct kv as [key s]. by apply Links_set_quote.
Qed.

End DecodeFacts.

(** X13.  A [Links] whose strings are well-formed UTF-8 is read back from
    its encoding: the keys of the empty strings are left out by
    [omitempty], and decoding into a zero [Links] leaves those fields
    empty. *)
Theorem Links_round_trip (l : Links)
    (Hl : Forall (λ kv, Quiet.valid_utf8 kv.2 = true) (Links_fields l)) :
  ∃ text, marshal_Links l = Ok text ∧
          Decode.Unmarshal into_Links text zero_Links = (l, None).
Proof.
  eexists. split; [apply DecodeFacts.marshal_Links_members|].
  pose proof (DecodeFacts.Links_values l) as Hv.
  rewrite DecodeFacts.Unmarshal_value.
  - by rewrite DecodeFacts.into_Links_round_trip.
  - by apply TextFacts.value_text_object.
  - by apply TextFacts.object_top_level.
Qed.

Lemma Links_round_trip_witness :
  ∃ text,
    marshal_Links {| Self := "/articles/1"; Related := ""; First := "";
                     Previous := ""; Next := "/articles?page=2"; Last := "" |}
    = Ok text ∧
    Decode.Unmarshal into_Links text zero_Links
    = ({| Self := "/articles/1"; Related := ""; First := "";
          Previous := ""; Next := "/articles?page=2"; Last := "" |}, None).
Proof.
  apply (Links_round_trip
           {| Self := "/articles/1"; Related := ""; First := "";
              Previous := ""; Next := "/articles?page=2"; Last := "" |}).
  repeat constructor.
Defined.

Module ContainerFacts.

Import Scanner Quiet Encode QuietFacts QuoteFacts TextFacts PieceFacts DecodeFacts.

Lemma map_now_done {A B} (f : A → B) (a : A) :
  Decode.map_now f (Decode.done a) = Decode.done (f a).
Proof. reflexivity. Qed.

Lemma into_elems_fresh {A} (zero : A) (dec : string → A → decoded A)
    (enc : A → string) (xs : list A) :
  Forall (λ x, dec (enc x) zero = Decode.done x) xs →
  Decode.into_elems zero dec (map enc xs) [] = Decode.done xs.
Proof.
  induction 1 as [|x xs Hx _ IH]; [done|]. simpl. rewrite Hx. simpl.
  by rewrite IH.
Qed.

Lemma into_slice_array {A} (field : string) (zero : A) (dec : string → A → decoded A)
    (enc : A → string) (xs : list A) :
  Forall (λ x, value_text (enc x)) xs →
  Forall (λ x, dec (enc x) zero = Decode.done x) xs →
  Decode.into_slice field zero dec (array_text (map enc xs)) None
  = Decode.done (Some xs).
Proof.
  intros Hv Hd. unfold Decode.into_slice.
  change (Decode.kind_of (array_text (map enc xs))) with Decode.KArray.
  rewrite pieces_array by (by apply Forall_map).
  simpl. by rewrite (into_elems_fresh zero dec enc xs Hd).
Qed.

Lemma into_ptr_object {A} (zero : A) (dec : string → A → decoded A)
    (ms : list (string * string)) (x : A) :
  dec (object_text ms) zero = Decode.done x →
  Decode.into_ptr zero dec (object_text ms) None = Decode.done (Some x).
Proof.
  intros Hd. unfold Decode.into_ptr.
  change (Decode.kind_of (object_text ms)) with Decode.KObject. simpl.
  by rewrite Hd.
Qed.

(** *** [RelationshipData] *)

Lemma RelationshipData_text_value (r : RelationshipData) :
  value_text (RelationshipData_text r).
Proof. apply value_text_object. repeat constructor; apply value_text_quote. Qed.

Lemma into_RelationshipData_round_trip (r cur : RelationshipData) :
  valid_RelationshipData r = true →
  into_RelationshipData (RelationshipData_text r) cur = Decode.done r.
Proof.
  intros [Ht Hi]%andb_true_iff. unfold into_RelationshipData, RelationshipData_text.
  rewrite into_struct_object by (repeat constructor; apply value_text_quote).
  cbn [map fst snd Decode.into_members].
  change (Unquote.unquote (quote "type")) with (Some "type").
  change (Unquote.unquote (quote "id")) with (Some "id"). cbv iota beta.
  unfold RelationshipData_set at 1.
  change (Decode.field_of ["type"; "id"] "type") with (Some "type"). cbv iota beta.
  rewrite (into_string_quote _ _ _ Ht), map_now_done, and_then_done.
  unfold RelationshipData_set.
  change (Decode.field_of ["type"; "id"] "id") with (Some "id"). cbv iota beta.
  rewrite (into_string_quote _ _ _ Hi), map_now_done, and_then_done. by destruct r.
Qed.

Lemma collect_map_Ok {A B} (f : A → result B) (g : A → B) (xs : list A) :
  Forall (λ x, f x = Ok (g x)) xs → collect (map f xs) = Ok (map g xs).
Proof.
  induction 1 as [|x xs Hx _ IH]; [done|]. simpl. by rewrite Hx, IH.
Qed.

Lemma HasPrefix_object (ms : list (string * string)) :
  GoStrings.HasPrefix (object_text ms) "{" = true.
Proof. rewrite object_text_unfold. apply HasPrefix_byte. Qed.

Lemma HasPrefix_array (elems : list string) :
  GoStrings.HasPrefix (array_text elems) "{" = false ∧
  GoStrings.HasPrefix (array_text elems) "[" = true.
Proof. rewrite array_text_unfold. split; apply HasPrefix_byte. Qed.

End ContainerFacts.


(** X14.  A [RelationshipDataContainer] with exactly one field set, and
    well-formed UTF-8 in its references, is read back from its own
    encoding by its own [UnmarshalJSON]: a single reference comes back
    in [DataObject], a sequence, also the empty one, in [DataArray]. *)
Theorem RelationshipDataContainer_round_trip (c : RelationshipDataContainer)
    (Hc : one_slot valid_RelationshipData c = true) :
  ∃ text, RelationshipDataContainer_MarshalJSON c = Ok text ∧
          RelationshipDataContainer_UnmarshalJSON zero_Container text = (c, None).
Proof.
  destruct c as [[r|] [xs|]]; try discriminate Hc; unfold one_slot in Hc; simpl in Hc.
  - exists (RelationshipData_text r). split; [reflexivity|].
    unfold RelationshipDataContainer_UnmarshalJSON.
    unfold RelationshipData_text at 1. rewrite ContainerFacts.HasPrefix_object.
    fold (RelationshipData_text r).
    rewrite DecodeFacts.Unmarshal_value.
    + unfold RelationshipData_text at 1 2 3.
      rewrite (ContainerFacts.into_ptr_object _ _ _ r); [done|].
      by apply ContainerFacts.into_RelationshipData_round_trip.
    + apply ContainerFacts.RelationshipData_text_value.
    + apply TextFacts.object_top_level. repeat constructor; apply TextFacts.value_text_quote.
  - exists (Encode.array_text (map RelationshipData_text xs)).
    assert (Hvals : Forall (λ x, value_text (RelationshipData_text x)) xs).
    { apply Forall_forall. intros x _. apply ContainerFacts.RelationshipData_text_value. }
    split.
    + unfold RelationshipDataContainer_MarshalJSON, Encode.marshal_slice. simpl.
      by rewrite (collect_total marshal_RelationshipData RelationshipData_text xs).
    + unfold RelationshipDataContainer_UnmarshalJSON.
      rewrite (proj1 (ContainerFacts.HasPrefix_array _)),
        (proj2 (ContainerFacts.HasPrefix_array _)).
      rewrite DecodeFacts.Unmarshal_value.
      * cbn [DataArray DataObject zero_Container].
        rewrite ContainerFacts.into_slice_array; [done|done|].
        apply Forall_forall. intros x Hx.
        apply ContainerFacts.into_RelationshipData_round_trip.
        apply forallb_forall with (x := x) in Hc; [done|].
        by apply list_elem_of_In.
      * apply TextFacts.value_text_array. by apply Forall_map.
      * apply TextFacts.array_top_level. by apply Forall_map.
Qed.

Lemma RelationshipDataContainer_round_trip_witness :
  ∃ text,
    RelationshipDataContainer_MarshalJSON
      {| DataObject := None;
         DataArray := Some [ {| RType := "people"; RID := "9" |};
                             {| RType := "people"; RID := "12" |} ] |}
    = Ok text ∧
    RelationshipDataContainer_UnmarshalJSON zero_Container text
    = ({| DataObject := None;
          DataArray := Some [ {| RType := "people"; RID := "9" |};
                              {| RType := "people"; RID := "12" |} ] |}, None).
Proof.
  apply (RelationshipDataContainer_round_trip
           {| DataObject := None;
              DataArray := Some [ {| RType := "people"; RID := "9" |};
                                  {| RType := "people"; RID := "12" |} ] |}).
  reflexivity.
Defined.

(** ** Values in compact form, wherever they stand *)

Module FrameFacts.

Import Scanner Quiet Encode QuietFacts QuoteFacts TextFacts PieceFacts.

Lemma pop_nonempty (stk : list parse_state) (op : opcode) :
  stk ≠ [] → popParseState stk op = Some ((EndValue, stk), op).
Proof. by destruct stk. Qed.

Lemma quiet_byte_uncut d d' n n' c op rest :
  is_cut op = false →
  quiet_byte d n c op rest = true → quiet_byte d' n' c op rest = true.
Proof. unfold quiet_byte. intros ->. by rewrite !andb_false_l. Qed.

Lemma quiet_byte_deep d d' n n' c op rest :
  (d' < n')%nat →
  quiet_byte d n c op rest = true → quiet_byte d' n' c op rest = true.
Proof.
  unfold quiet_byte. intros Hlt. rewrite (leb_gt_false n' d' Hlt), andb_false_r.
  intros [[[H1 _]%andb_true_iff H3]%andb_true_iff H4]%andb_true_iff.
  by rewrite H1, H3, H4.
Qed.

Lemma quiet_byte_shallow c op rest :
  is_cut op = true → quiet_byte 1 1 c op rest = false.
Proof. unfold quiet_byte. intros ->. simpl. by rewrite andb_false_r. Qed.

Ltac split_ifs H :=
  repeat match type of H with
         | context [if ?b then _ else _] => destruct b eqn:?
         end.

(** One step over a sentinel frame is the same step over any stack. *)
Lemma step_frame st (k1 : list parse_state) c K1 st1 op k d rest :
  step (st, k1 ++ [ParseArrayValue]) c = Some ((st1, K1), op) →
  quiet_byte 1 (length (k1 ++ [ParseArrayValue])) c op rest = true →
  k ≠ [] → (d ≤ length k)%nat →
  ∃ k1', K1 = k1' ++ [ParseArrayValue]
         ∧ step (st, k1 ++ k) c = Some ((st1, k1' ++ k), op)
         ∧ quiet_byte d (length (k1 ++ k)) c op rest = true.
Proof.
  intros Hstep Hq Hk Hd.
  destruct k1 as [|ps k1].
  - rewrite app_nil_l in *. change (length [ParseArrayValue]) with 1%nat in Hq.
    destruct st;
      unfold step, state0, stateESign, stateBeginValue, stateBeginString,
        stateEndValue, stateEndTop, popParseState in Hstep |- *;
      split_ifs Hstep; try discriminate Hstep;
      try (destruct expect as [|e [|e' rest']]; split_ifs Hstep; try discriminate Hstep);
      try (destruct digits as [|[|digits]]).
    all: try (injection Hstep as <- <- <-).
    all: try (rewrite quiet_byte_shallow in Hq by done; discriminate Hq).
    all: try (unfold quiet_byte in Hq; simpl in Hq; discriminate Hq).
    all: first
      [ exists (@nil parse_state); split; [reflexivity|];
        split; [reflexivity | by apply (quiet_byte_uncut 1 d 1)]
      | exists [ParseObjectKey]; split; [reflexivity|];
        split; [reflexivity | by apply (quiet_byte_uncut 1 d 1)]
      | exists [ParseArrayValue]; split; [reflexivity|];
        split; [reflexivity | by apply (quiet_byte_uncut 1 d 1)] ].
  - assert (Hdeep : (d < length ((ps :: k1) ++ k))%nat)
      by (rewrite length_app; simpl; lia).
    assert (Hne1 : k1 ++ [ParseArrayValue] ≠ []) by (by destruct k1).
    assert (Hne2 : k1 ++ k ≠ []) by (by destruct k1, k).
    rewrite <- !app_comm_cons in *.
    destruct st;
      unfold step, state0, stateESign, stateBeginValue, stateBeginString,
        stateEndValue, stateEndTop in Hstep |- *;
      rewrite ?(pop_nonempty _ _ Hne1) in Hstep; rewrite ?(pop_nonempty _ _ Hne2);
      split_ifs Hstep; try discriminate Hstep;
      try (destruct expect as [|e [|e' rest']]; split_ifs Hstep; try discriminate Hstep);
      try (destruct digits as [|[|digits]]);
      try (destruct ps; split_ifs Hstep; try discriminate Hstep;
           rewrite ?(pop_nonempty _ _ Hne1) in Hstep).
    all: try (injection Hstep as <- <- <-).
    all: try (unfold quiet_byte in Hq; simpl in Hq; discriminate Hq).
    all: match goal with
         | |- ∃ _, ?a :: ?b :: ?l ++ [ParseArrayValue] = _ ∧ _ => exists (a :: b :: l)
         | |- ∃ _, ?a :: ?l ++ [ParseArrayValue] = _ ∧ _ => exists (a :: l)
         | |- ∃ _, ?l ++ [ParseArrayValue] = _ ∧ _ => exists l
         end.
    all: split; [reflexivity|]; split; [reflexivity|].
    all: match goal with
         | H : quiet_byte _ _ _ _ _ = true |- _ =>
             apply (quiet_byte_deep _ _ _ _ _ _ _) with (2 := H)
         end.
    all: simpl; rewrite ?length_app; simpl; lia.
Qed.

Lemma quiet_frame d k v : ∀ st k1 st' K',
  quiet 1 (st, k1 ++ [ParseArrayValue]) v = Some (st', K') →
  k ≠ [] → (d ≤ length k)%nat →
  ∃ k1', K' = k1' ++ [ParseArrayValue]
         ∧ quiet d (st, k1 ++ k) v = Some (st', k1' ++ k).
Proof.
  induction v as [|c v IH]; intros st k1 st' K' Hq Hk Hd.
  - simpl in Hq. injection Hq as <- <-. exists k1. split; reflexivity.
  - cbn [quiet] in Hq.
    destruct (step (st, k1 ++ [ParseArrayValue]) c) as [[[st1 K1] op]|] eqn:Hs; [|done].
    destruct (quiet_byte 1 _ c op v) eqn:Hb; [|done].
    destruct (step_frame _ _ _ _ _ _ k d v Hs Hb Hk Hd) as (k1' & -> & Hs' & Hb').
    destruct (IH _ _ _ _ Hq Hk Hd) as (k2 & -> & Hq').
    exists k2. split; [done|]. cbn [quiet snd]. by rewrite Hs', Hb'.
Qed.

(** A text in compact form is a value text. *)
Lemma canonical_value_text (v : string) :
  canonical_value v = true → value_text v.
Proof.
  unfold canonical_value.
  intros [[Hq _]%andb_true_iff Htrim%bool_decide_eq_true]%andb_true_iff.
  destruct (quiet 1 (BeginValue, [ParseArrayValue]) v) as [[st K]|] eqn:Hqv; [|done].
  destruct K as [|[] [|]]; try done.
  assert (Hfirst : ∃ c r, v = String c r ∧ isSpace c = false ∧ c ≠ "]"%char).
  { destruct v as [|c r]; [by injection Hqv as <-|]. exists c, r. split; [done|].
    cbn [quiet step] in Hqv. unfold stateBeginValue in Hqv.
    destruct (isSpace c) eqn:Hc.
    { unfold quiet_byte in Hqv. cbn [andb] in Hqv. discriminate Hqv. }
    split; [done|]. intros ->. vm_compute in Hqv. discriminate Hqv. }
  split; [done|]. split; [done|].
  intros d k Hk Hd.
  destruct (quiet_frame d k v BeginValue [] st [ParseArrayValue] Hqv Hk Hd)
    as (k1' & Heq & Hq').
  destruct k1' as [|x [|y k1']]; try discriminate Heq.
  exists st. by split.
Qed.

Lemma canonical_value_compact (v : string) :
  canonical_value v = true → compact v = Some v.
Proof.
  unfold canonical_value.
  by intros [[_ H%bool_decide_eq_true]%andb_true_iff _]%andb_true_iff.
Qed.

End FrameFacts.

(** ** Records, member by member *)

Module RecordFacts.

Import Scanner Quiet Encode QuietFacts QuoteFacts TextFacts PieceFacts DecodeFacts
  ContainerFacts FrameFacts.

Lemma collect_map_Ok_id {A} (xs : list A) : collect (map Ok xs) = Ok xs.
Proof. induction xs as [|x xs IH]; [done|]. simpl. by rewrite IH. Qed.

Lemma reads_back_object_value {A} (enc : A → result string)
    (dec : string → A → decoded A) (zero x : A) :
  reads_back_object enc dec zero x → reads_back enc dec zero x.
Proof.
  intros (ms & He & Hv & Hd). exists (object_text ms).
  split; [done|]. split; [by apply value_text_object|done].
Qed.

(** *** Structs, member by member *)

Lemma members_nil {A} (set : string → string → A → decoded A) (a : A) :
  members_read_back set [] a a.
Proof. exists []. split; [done|]. split; [constructor|done]. Qed.

Lemma members_app {A} (set : string → string → A → decoded A)
    (ms1 ms2 : list (result (string * string))) (a a' a'' : A) :
  members_read_back set ms1 a a' → members_read_back set ms2 a' a'' →
  members_read_back set (ms1 ++ ms2) a a''.
Proof.
  intros (l1 & -> & Hv1 & H1) (l2 & -> & Hv2 & H2). exists (l1 ++ l2).
  split; [by rewrite map_app|]. split; [by apply Forall_app|].
  intros rest. by rewrite map_app, <- app_assoc, H1, H2.
Qed.

Lemma members_omitted {A} (set : string → string → A → decoded A)
    (key : string) (v : result string) (a : A) :
  members_read_back set (member key true v) a a.
Proof. apply members_nil. Qed.

Lemma members_written {A} (set : string → string → A → decoded A)
    (key : string) (v : result string) (t : string) (a a' : A) :
  v = Ok t → value_text t → valid_utf8 key = true →
  set key t a = Decode.done a' →
  members_read_back set (member key false v) a a'.
Proof.
  intros -> Hv Hk Hs. exists [(key, t)]. split; [done|].
  split; [apply List.Forall_cons; [exact Hv|apply List.Forall_nil]|]. intros rest.
  cbn [map app fst snd Decode.into_members].
  by rewrite (unquote_quote key Hk), Hs, and_then_done.
Qed.

Lemma members_struct {A} (field : string) (set : string → string → A → decoded A)
    (ms : list (result (string * string))) (zero x : A) :
  members_read_back set ms zero x →
  ∃ l, marshal_struct ms = Ok (object_text l)
       ∧ Forall (λ kv : string * string, value_text kv.2) l
       ∧ Decode.into_struct field set (object_text l) zero = Decode.done x.
Proof.
  intros (l & -> & Hv & H). exists l. split.
  - unfold marshal_struct. by rewrite collect_map_Ok_id.
  - split; [done|]. rewrite into_struct_object by done.
    specialize (H []). by rewrite app_nil_r in H.
Qed.

(** *** Pointers, slices and maps *)

Lemma kind_of_object (ms : list (string * string)) :
  Decode.kind_of (object_text ms) = Decode.KObject.
Proof. reflexivity. Qed.

Lemma kind_of_array (ts : list string) :
  Decode.kind_of (array_text ts) = Decode.KArray.
Proof. reflexivity. Qed.

Lemma ptr_reads_back {A} (enc : A → result string) (dec : string → A → decoded A)
    (zero x : A) :
  reads_back_object enc dec zero x →
  reads_back_object (marshal_ptr enc) (Decode.into_ptr zero dec) None (Some x).
Proof.
  intros (ms & He & Hv & Hd). exists ms. split; [done|]. split; [done|].
  by apply into_ptr_object.
Qed.

Lemma elems_read_back {A} (enc : A → result string) (dec : string → A → decoded A)
    (zero : A) (xs : list A) :
  Forall (reads_back enc dec zero) xs →
  ∃ ts, collect (map enc xs) = Ok ts ∧ Forall value_text ts
        ∧ Decode.into_elems zero dec ts [] = Decode.done xs.
Proof.
  induction 1 as [|x xs (t & He & Hv & Hd) _ (ts & Hc & Hvs & Hds)].
  - exists []. split; [done|]. split; [constructor|done].
  - exists (t :: ts). split; [simpl; by rewrite He, Hc|].
    split; [by constructor|]. simpl. rewrite Hd. simpl. by rewrite Hds.
Qed.

Lemma slice_reads_back {A} (field : string) (enc : A → result string)
    (dec : string → A → decoded A) (zero : A) (xs : list A) :
  Forall (reads_back enc dec zero) xs →
  ∃ ts, marshal_slice enc (Some xs) = Ok (array_text ts) ∧ Forall value_text ts
        ∧ Decode.into_slice field zero dec (array_text ts) None
          = Decode.done (Some xs).
Proof.
  intros (ts & Hc & Hv & Hd)%elems_read_back. exists ts.
  split; [simpl; by rewrite Hc|]. split; [done|].
  unfold Decode.into_slice. rewrite kind_of_array, pieces_array by done.
  simpl. by rewrite Hd.
Qed.

Lemma entries_read_back {A} (enc : A → result string) (dec : string → A → decoded A)
    (zero : A) (l : list (string * A)) :
  Forall (λ kv, valid_utf8 kv.1 = true ∧ reads_back enc dec zero kv.2) l →
  ∃ ms, collect (map (λ kv : string * A, v ← enc kv.2; Ok (kv.1, v)) l) = Ok ms
        ∧ Forall (λ kv : string * string, value_text kv.2) ms
        ∧ ∀ m0, Decode.into_entries zero dec
                  (map (λ kv : string * string, (quote kv.1, kv.2)) ms) m0
                = Decode.done (foldl (λ m (kv : string * A), <[kv.1 := kv.2]> m) m0 l).
Proof.
  induction 1 as [|[k x] l [Hk (t & He & Hv & Hd)] _ (ms & Hc & Hvs & Hds)].
  - exists []. split; [done|]. split; [constructor|done].
  - exists ((k, t) :: ms). cbn [fst snd] in *.
    split; [cbn [map collect fst snd]; rewrite He; simpl; by rewrite Hc|].
    split; [by constructor|]. intros m0.
    cbn [map fst snd Decode.into_entries].
    rewrite (unquote_quote k Hk), Hd. cbn [abort now saved Decode.done].
    rewrite Hds. reflexivity.
Qed.

Lemma insert_sorted_perm {A} (kv : string * A) (l : list (string * A)) :
  insert_sorted kv l ≡ₚ kv :: l.
Proof.
  induction l as [|kv' l IH]; [done|]. simpl.
  destruct (String.leb kv.1 kv'.1); [done|].
  rewrite IH. apply Permutation_swap.
Qed.

Lemma sorted_entries_perm {A} (m : gmap string A) :
  sorted_entries m ≡ₚ map_to_list m.
Proof.
  unfold sorted_entries. induction (map_to_list m) as [|kv l IH]; [done|].
  simpl. by rewrite insert_sorted_perm, IH.
Qed.

Lemma foldl_insert_rev {A} (l : list (string * A)) (m0 : gmap string A) :
  foldl (λ m (kv : string * A), <[kv.1 := kv.2]> m) m0 l
  = foldr (λ (kv : string * A) m, <[kv.1 := kv.2]> m) m0 (rev l).
Proof.
  revert m0. induction l as [|kv l IH]; intros m0; [done|].
  simpl. by rewrite IH, foldr_app.
Qed.

Lemma foldl_insert_entries {A} (m : gmap string A) :
  foldl (λ m (kv : string * A), <[kv.1 := kv.2]> m) ∅ (sorted_entries m) = m.
Proof.
  rewrite foldl_insert_rev. symmetry.
  apply (list_to_map_flip m (rev (sorted_entries m))).
  by rewrite <- Permutation_rev, sorted_entries_perm.
Qed.

Lemma map_reads_back {A} (field : string) (enc : A → result string)
    (dec : string → A → decoded A) (zero : A) (m : gmap string A) :
  Forall (λ kv, valid_utf8 kv.1 = true ∧ reads_back enc dec zero kv.2)
    (map_to_list m) →
  reads_back_object (marshal_map enc) (Decode.into_map field zero dec) None (Some m).
Proof.
  intros H. rewrite <- sorted_entries_perm in H.
  apply entries_read_back in H as (ms & Hc & Hv & Hd). exists ms.
  split; [simpl; by rewrite Hc|]. split; [done|].
  unfold Decode.into_map. rewrite kind_of_object, pieces_object by done.
  simpl. by rewrite Hd, map_now_done, foldl_insert_entries.
Qed.

Lemma ok_map_entries {A} (ok : A → bool) (m : gmap string A) :
  ok_map ok (Some m) = true →
  empty_map (Some m) = false
  ∧ Forall (λ kv, valid_utf8 kv.1 = true ∧ ok kv.2 = true) (map_to_list m).
Proof.
  unfold ok_map, empty_map. intros [He Hf]%andb_true_iff. split.
  - by destruct (bool_decide (m = ∅)).
  - apply Forall_forall. intros kv Hin. apply andb_true_iff.
    apply (proj1 (forallb_forall _ _) Hf). by apply list_elem_of_In.
Qed.

(** *** The two containers *)

Lemma container_reads_back {T} (field : string) (enc : T → result string)
    (dec : string → T → decoded T) (zero : T) (ok : T → bool) (c : Container T) :
  (∀ x, ok x = true → reads_back_object enc dec zero x) →
  one_slot ok c = true →
  ∃ t, match DataArray c with
       | Some _ => marshal_slice enc (DataArray c)
       | None => marshal_ptr enc (DataObject c)
       end = Ok t
       ∧ value_text t ∧ compact t = Some t
       ∧ ((∃ ms, t = object_text ms)
           ∧ DataArray c = None
           ∧ Decode.Unmarshal (Decode.into_ptr zero dec) t None
             = (DataObject c, None)
          ∨ (∃ ts, t = array_text ts)
            ∧ DataObject c = None
            ∧ Decode.Unmarshal (Decode.into_slice field zero dec) t None
              = (DataArray c, None)).
Proof.
  intros Hok Hc. destruct c as [[x|] [xs|]]; try discriminate Hc;
    unfold one_slot in Hc; simpl in Hc.
  - destruct (Hok x Hc) as (ms & He & Hv & Hd). exists (object_text ms).
    cbn [DataArray DataObject]. split; [done|].
    split; [by apply value_text_object|].
    split; [by apply object_top_level|]. left.
    split; [by exists ms|]. split; [done|].
    rewrite Unmarshal_value;
      [|by apply value_text_object|by apply object_top_level].
    by rewrite (into_ptr_object _ _ _ x Hd).
  - assert (Hxs : Forall (reads_back enc dec zero) xs).
    { apply Forall_forall. intros x Hx. apply reads_back_object_value, Hok.
      apply (proj1 (forallb_forall _ _) Hc). by apply list_elem_of_In. }
    destruct (slice_reads_back field enc dec zero xs Hxs) as (ts & He & Hv & Hd).
    exists (array_text ts). cbn [DataArray DataObject]. split; [done|].
    split; [by apply value_text_array|].
    split; [by apply array_top_level|]. right.
    split; [by exists ts|]. split; [done|].
    rewrite Unmarshal_value;
      [|by apply value_text_array|by apply array_top_level].
    by rewrite Hd.
Qed.

Lemma into_unmarshaler_fresh {A} (zero : A)
    (UnmarshalJSON : A → string → A * option error) (t : string) (c : A) :
  (∃ ms, t = object_text ms) ∨ (∃ ts, t = array_text ts) →
  UnmarshalJSON zero t = (c, None) →
  Decode.into_unmarshaler zero UnmarshalJSON t None = Decode.done (Some c).
Proof.
  intros Ht Hu. unfold Decode.into_unmarshaler.
  assert (Hk : Decode.kind_of t = Decode.KObject ∨ Decode.kind_of t = Decode.KArray)
    by (destruct Ht as [[ms ->]|[ts ->]]; [by left|by right]).
  cbn [default]. rewrite Hu. by destruct Hk as [-> | ->].
Qed.

(** *** [Links] and [RelationshipData] *)

Lemma Links_reads_back (l : Links) :
  valid_Links l = true → reads_back_object marshal_Links into_Links zero_Links l.
Proof.
  intros Hl.
  assert (Hf : Forall (λ kv : string * string, valid_utf8 kv.2 = true) (Links_fields l)).
  { apply Forall_forall. intros kv Hin.
    apply (proj1 (forallb_forall _ _) Hl). by apply list_elem_of_In. }
  eexists. split; [apply marshal_Links_members|].
  split; [apply Links_values|]. by apply into_Links_round_trip.
Qed.

Lemma RelationshipData_reads_back (r : RelationshipData) :
  valid_RelationshipData r = true →
  reads_back_object marshal_RelationshipData into_RelationshipData
    zero_RelationshipData r.
Proof.
  intros Hr. exists [("type", quote (RType r)); ("id", quote (RID r))].
  split; [reflexivity|].
  split; [repeat (apply List.Forall_cons; [apply value_text_quote|]); constructor|].
  by apply into_RelationshipData_round_trip.
Qed.

Lemma RelationshipDataContainer_reads_back (c : RelationshipDataContainer) :
  one_slot valid_RelationshipData c = true →
  ∃ t, RelationshipDataContainer_MarshalJSON c = Ok t
       ∧ value_text t ∧ compact t = Some t
       ∧ ((∃ ms, t = object_text ms) ∨ (∃ ts, t = array_text ts))
       ∧ RelationshipDataContainer_UnmarshalJSON zero_Container t = (c, None).
Proof.
  intros Hc.
  destruct (container_reads_back "RelationshipData" marshal_RelationshipData
              into_RelationshipData zero_RelationshipData valid_RelationshipData c
              RelationshipData_reads_back Hc)
    as (t & He & Hv & Hcomp & Hdec).
  exists t. split; [exact He|]. split; [done|]. split; [done|].
  unfold RelationshipDataContainer_UnmarshalJSON. cbn [DataObject DataArray zero_Container].
  destruct Hdec as [([ms ->] & Ha & Hu) | ([ts ->] & Ho & Hu)].
  - split; [left; by exists ms|].
    rewrite HasPrefix_object, Hu. destruct c; simpl in *; by subst.
  - split; [right; by exists ts|].
    rewrite (proj1 (HasPrefix_array _)), (proj2 (HasPrefix_array _)), Hu.
    destruct c; simpl in *; by subst.
Qed.

Section ReadBackFacts.

Context {any : Type}.
Variable marshal_any : any → result string.
Variable unmarshal_any : string → any.
Variable ok_any : any → bool.

(** The dynamic values that pass [ok_any] have an encoding, and
    [json.Unmarshal] makes the same value of it. *)
Hypothesis any_reads_back :
  ∀ v, ok_any v = true →
    ∃ t, marshal_any v = Ok t ∧ value_text t ∧ unmarshal_any t = v.

Lemma meta_reads_back (m : gmap string any) :
  ok_map ok_any (Some m) = true →
  reads_back_object (marshal_map marshal_any) (into_meta unmarshal_any) None (Some m).
Proof.
  intros [_ Hm]%ok_map_entries.
  apply (map_reads_back "meta" marshal_any (into_any unmarshal_any)
           (unmarshal_any "null") m).
  eapply Forall_impl; [exact Hm|]. intros kv [Hk Hv]. split; [done|].
  destruct (any_reads_back _ Hv) as (t & He & Ht & Hu). exists t.
  split; [done|]. split; [done|]. unfold into_any. by rewrite Hu.
Qed.

(** *** [Relationship] *)

Lemma Relationship_reads_back (r : Relationship any) :
  ok_Relationship ok_any r = true →
  reads_back_object (marshal_Relationship marshal_any)
    (into_Relationship unmarshal_any) zero_Relationship r.
Proof.
  intros [[Hl Hc]%andb_true_iff Hm]%andb_true_iff.
  apply (members_struct "Relationship"). destruct r as [l c m].
  unfold Relationship_members. cbn [RelLinks RelData RelMeta] in *.
  apply members_app with (a' := {| RelLinks := l; RelData := None; RelMeta := None |}).
  { destruct l as [l|]; [|apply members_omitted].
    destruct (Links_reads_back l Hl) as (ms & He & Hv & Hd).
    apply members_written with (t := object_text ms);
      [exact He|by apply value_text_object|reflexivity|].
    unfold Relationship_set.
    change (Decode.field_of ["links"; "data"; "meta"] "links") with (Some "links").
    cbv iota beta. cbn [RelLinks RelData RelMeta zero_Relationship].
    by rewrite (into_ptr_object _ _ _ l Hd). }
  apply members_app with (a' := {| RelLinks := l; RelData := c; RelMeta := None |}).
  { destruct c as [c|]; [|apply members_omitted].
    destruct (RelationshipDataContainer_reads_back c Hc)
      as (t & He & Hv & Hcomp & Ht & Hu).
    apply members_written with (t := t); [|done|reflexivity|].
    - rewrite He. unfold marshaler. by rewrite Hcomp.
    - unfold Relationship_set.
      change (Decode.field_of ["links"; "data"; "meta"] "data") with (Some "data").
      cbv iota beta. cbn [RelLinks RelData RelMeta].
      by rewrite (into_unmarshaler_fresh _ _ t c Ht Hu). }
  destruct m as [m|]; [|apply members_omitted].
  destruct (ok_map_entries _ _ Hm) as [-> _].
  destruct (meta_reads_back m Hm) as (ms & He & Hv & Hd).
  apply members_written with (t := object_text ms);
    [exact He|by apply value_text_object|reflexivity|].
  unfold Relationship_set.
  change (Decode.field_of ["links"; "data"; "meta"] "meta") with (Some "meta").
  cbv iota beta. cbn [RelLinks RelData RelMeta]. by rewrite Hd.
Qed.

(** *** [Data] *)

Lemma Data_reads_back (d : Data any) :
  ok_Data ok_any d = true →
  reads_back_object (marshal_Data marshal_any) (into_Data unmarshal_any) zero_Data d.
Proof.
  intros [[[[Ht Hi]%andb_true_iff Ha]%andb_true_iff Hr]%andb_true_iff Hl]%andb_true_iff.
  apply (members_struct "Data"). destruct d as [ty id attrs rs l].
  unfold Data_members. cbn [DType DID Attributes Relationships DLinks] in *.
  destruct attrs as [a|]; [|discriminate Ha].
  apply members_app with
    (a' := {| DType := ty; DID := ""; Attributes := None; Relationships := None;
              DLinks := None |}).
  { apply members_written with (t := quote ty);
      [reflexivity|apply value_text_quote|reflexivity|].
    unfold Data_set.
    change (Decode.field_of ["type"; "id"; "attributes"; "relationships"; "links"] "type")
      with (Some "type").
    cbv iota beta. by rewrite (into_string_quote _ _ _ Ht). }
  apply members_app with
    (a' := {| DType := ty; DID := id; Attributes := None; Relationships := None;
              DLinks := None |}).
  { apply members_written with (t := quote id);
      [reflexivity|apply value_text_quote|reflexivity|].
    unfold Data_set.
    change (Decode.field_of ["type"; "id"; "attributes"; "relationships"; "links"] "id")
      with (Some "id").
    cbv iota beta. by rewrite (into_string_quote _ _ _ Hi). }
  apply members_app with
    (a' := {| DType := ty; DID := id; Attributes := Some a; Relationships := None;
              DLinks := None |}).
  { apply members_written with (t := a);
      [|by apply canonical_value_text|reflexivity|].
    - unfold marshaler, RawMessage_MarshalJSON.
      by rewrite (canonical_value_compact a Ha).
    - unfold Data_set.
      change (Decode.field_of ["type"; "id"; "attributes"; "relationships"; "links"]
                "attributes") with (Some "attributes").
      cbv iota beta. reflexivity. }
  apply members_app with
    (a' := {| DType := ty; DID := id; Attributes := Some a; Relationships := rs;
              DLinks := None |}).
  { destruct rs as [rs|]; [|apply members_omitted].
    destruct (ok_map_entries _ _ Hr) as [-> Hrs].
    assert (Hrb : reads_back_object (marshal_map (marshal_Relationship marshal_any))
                    (Decode.into_map "relationships" zero_Relationship
                       (into_Relationship unmarshal_any)) None (Some rs)).
    { apply map_reads_back. eapply Forall_impl; [exact Hrs|].
      intros kv [Hk Hv]. split; [done|].
      by apply reads_back_object_value, Relationship_reads_back. }
    destruct Hrb as (ms & He & Hv & Hd).
    apply members_written with (t := object_text ms);
      [exact He|by apply value_text_object|reflexivity|].
    unfold Data_set.
    change (Decode.field_of ["type"; "id"; "attributes"; "relationships"; "links"]
              "relationships") with (Some "relationships").
    cbv iota beta. cbn [DType DID Attributes Relationships DLinks]. by rewrite Hd. }
  destruct l as [l|]; [|apply members_omitted].
  destruct (Links_reads_back l Hl) as (ms & He & Hv & Hd).
  apply members_written with (t := object_text ms);
    [exact He|by apply value_text_object|reflexivity|].
  unfold Data_set.
  change (Decode.field_of ["type"; "id"; "attributes"; "relationships"; "links"] "links")
    with (Some "links").
  cbv iota beta. cbn [DType DID Attributes Relationships DLinks].
  by rewrite (into_ptr_object _ _ _ l Hd).
Qed.

Lemma DataContainer_reads_back (c : DataContainer any) :
  one_slot (ok_Data ok_any) c = true →
  ∃ t, DataContainer_MarshalJSON marshal_any c = Ok t
       ∧ value_text t ∧ compact t = Some t
       ∧ ((∃ ms, t = object_text ms) ∨ (∃ ts, t = array_text ts))
       ∧ DataContainer_UnmarshalJSON unmarshal_any zero_Container t = (c, None).
Proof.
  intros Hc.
  destruct (container_reads_back "Data" (marshal_Data marshal_any)
              (into_Data unmarshal_any) zero_Data (ok_Data ok_any) c
              Data_reads_back Hc)
    as (t & He & Hv & Hcomp & Hdec).
  exists t. split; [exact He|]. split; [done|]. split; [done|].
  unfold DataContainer_UnmarshalJSON. cbn [DataObject DataArray zero_Container].
  destruct Hdec as [([ms ->] & Ha & Hu) | ([ts ->] & Ho & Hu)].
  - split; [left; by exists ms|].
    rewrite HasPrefix_object, Hu. destruct c; simpl in *; by subst.
  - split; [right; by exists ts|].
    rewrite (proj1 (HasPrefix_array _)), (proj2 (HasPrefix_array _)), Hu.
    destruct c; simpl in *; by subst.
Qed.

(** *** [Document] *)


Lemma reads_back_Unmarshal {A} (enc : A → result string)
    (dec : string → A → decoded A) (zero x : A) :
  reads_back_object enc dec zero x →
  ∃ text, enc x = Ok text ∧ Decode.Unmarshal dec text zero = (x, None).
Proof.
  intros (ms & He & Hv & Hd). exists (object_text ms). split; [done|].
  rewrite Unmarshal_value; [|by apply value_text_object|by apply object_top_level].
  by rewrite Hd.
Qed.

End ReadBackFacts.

End RecordFacts.

(** ** Round trips of the records *)

(** A dynamic value given by its JSON text in compact form is written as
    that text and read back as it. *)
Lemma text_reads_back (v : string) :
  Quiet.canonical_value v = true →
  ∃ t, marshal_text v = Ok t ∧ value_text t ∧ unmarshal_text t = v.
Proof.
  intros Hv. exists v. unfold marshal_text, marshaler.
  rewrite (FrameFacts.canonical_value_compact v Hv).
  split; [done|]. split; [by apply FrameFacts.canonical_value_text|done].
Qed.

(** X15.  A [Relationship] is read back from its encoding when its
    strings and keys are well-formed UTF-8, its [Data] container, if any,
    has exactly one field set, its [Meta] is nil or has an entry, and the
    dynamic values of [Meta] are read back as they are written. *)
Theorem Relationship_round_trip {any : Type}
    (marshal_any : any → result string) (unmarshal_any : string → any)
    (ok_any : any → bool)
    (Hany : ∀ v, ok_any v = true →
              ∃ t, marshal_any v = Ok t ∧ value_text t ∧ unmarshal_any t = v)
    (r : Relationship any) (Hr : ok_Relationship ok_any r = true) :
  ∃ text, marshal_Relationship marshal_any r = Ok text ∧
          Decode.Unmarshal (into_Relationship unmarshal_any) text zero_Relationship
          = (r, None).
Proof.
  apply RecordFacts.reads_back_Unmarshal.
  by apply (RecordFacts.Relationship_reads_back marshal_any unmarshal_any ok_any).
Qed.

Lemma Relationship_round_trip_witness :
  ∃ text,
    marshal_Relationship marshal_text
      {| RelLinks := None;
         RelData := Some {| DataObject := Some {| RType := "people"; RID := "9" |};
                            DataArray := None |};
         RelMeta := Some {[ "verified" := "true" ]} |} = Ok text ∧
    Decode.Unmarshal (into_Relationship unmarshal_text) text zero_Relationship
    = ({| RelLinks := None;
          RelData := Some {| DataObject := Some {| RType := "people"; RID := "9" |};
                             DataArray := None |};
          RelMeta := Some {[ "verified" := "true" ]} |}, None).
Proof.
  apply (Relationship_round_trip marshal_text unmarshal_text Quiet.canonical_value
           text_reads_back).
  vm_compute. reflexivity.
Defined.

(** X16.  A [Data] is read back from its encoding when its strings and
    keys are well-formed UTF-8, its [Attributes] are set to a JSON value
    in compact form, its [Relationships] are nil or have an entry, and
    each of them is read back. *)
Theorem Data_round_trip {any : Type}
    (marshal_any : any → result string) (unmarshal_any : string → any)
    (ok_any : any → bool)
    (Hany : ∀ v, ok_any v = true →
              ∃ t, marshal_any v = Ok t ∧ value_text t ∧ unmarshal_any t = v)
    (d : Data any) (Hd : ok_Data ok_any d = true) :
  ∃ text, marshal_Data marshal_any d = Ok text ∧
          Decode.Unmarshal (into_Data unmarshal_any) text zero_Data = (d, None).
Proof.
  apply RecordFacts.reads_back_Unmarshal.
  by apply (RecordFacts.Data_reads_back marshal_any unmarshal_any ok_any).
Qed.

Lemma Data_round_trip_witness :
  ∃ text, marshal_Data marshal_text sample_article = Ok text ∧
          Decode.Unmarshal (into_Data unmarshal_text) text zero_Data
          = (sample_article, None).
Proof.
  apply (Data_round_trip marshal_text unmarshal_text Quiet.canonical_value
           text_reads_back).
  vm_compute. reflexivity.
Defined.

(** X17.  A [DataContainer] with exactly one field set, to resources that
    are read back, is read back from its own [MarshalJSON] by its own
    [UnmarshalJSON]: a single resource comes back in [DataObject], a
    sequence, also the empty one, in [DataArray]. *)
Theorem DataContainer_round_trip {any : Type}
    (marshal_any : any → result string) (unmarshal_any : string → any)
    (ok_any : any → bool)
    (Hany : ∀ v, ok_any v = true →
              ∃ t, marshal_any v = Ok t ∧ value_text t ∧ unmarshal_any t = v)
    (c : DataContainer any) (Hc : one_slot (ok_Data ok_any) c = true) :
  ∃ text, DataContainer_MarshalJSON marshal_any c = Ok text ∧
          DataContainer_UnmarshalJSON unmarshal_any zero_Container text = (c, None).
Proof.
  destruct (RecordFacts.DataContainer_reads_back marshal_any unmarshal_any ok_any
              Hany c Hc) as (t & He & _ & _ & _ & Hu).
  by exists t.
Qed.

Lemma DataContainer_round_trip_witness :
  ∃ text,
    DataContainer_MarshalJSON marshal_text
      {| DataObject := None; DataArray := Some [sample_article; sample_person] |}
    = Ok text ∧
    DataContainer_UnmarshalJSON unmarshal_text zero_Container text
    = ({| DataObject := None; DataArray := Some [sample_article; sample_person] |},
       None).
Proof.
  apply (DataContainer_round_trip marshal_text unmarshal_text Quiet.canonical_value
           text_reads_back).
  vm_compute. reflexivity.
Defined.



(** X19.  Nil [Attributes] are not read back as nil: they are written as
    [null], and decoding stores that text, so a resource that otherwise
    is read back comes back with [Attributes] set to the four bytes
    [null]. *)
Theorem nil_Attributes_read_back_as_null {any : Type}
    (marshal_any : any → result string) (unmarshal_any : string → any)
    (ok_any : any → bool)
    (Hany : ∀ v, ok_any v = true →
              ∃ t, marshal_any v = Ok t ∧ value_text t ∧ unmarshal_any t = v)
    (type id : string) (relationships : option (gmap string (Relationship any)))
    (links : option Links)
    (Hd : ok_Data ok_any
            {| DType := type; DID := id; Attributes := Some "null";
               Relationships := relationships; DLinks := links |} = true) :
  ∃ text,
    marshal_Data marshal_any
      {| DType := type; DID := id; Attributes := None;
         Relationships := relationships; DLinks := links |} = Ok text ∧
    Decode.Unmarshal (into_Data unmarshal_any) text zero_Data
    = ({| DType := type; DID := id; Attributes := Some "null";
          Relationships := relationships; DLinks := links |}, None).
Proof.
  change (marshal_Data marshal_any
            {| DType := type; DID := id; Attributes := None;
               Relationships := relationships; DLinks := links |})
    with (marshal_Data marshal_any
            {| DType := type; DID := id; Attributes := Some "null";
               Relationships := relationships; DLinks := links |}).
  apply RecordFacts.reads_back_Unmarshal.
  by apply (RecordFacts.Data_reads_back marshal_any unmarshal_any ok_any).
Qed.

Lemma nil_Attributes_read_back_as_null_witness :
  ∃ text,
    marshal_Data marshal_text
      {| DType := "people"; DID := "9"; Attributes := None;
         Relationships := None; DLinks := None |} = Ok text ∧
    Decode.Unmarshal (into_Data unmarshal_text) text zero_Data
    = ({| DType := "people"; DID := "9"; Attributes := Some "null";
          Relationships := None; DLinks := None |}, None).
Proof.
  apply (nil_Attributes_read_back_as_null marshal_text unmarshal_text
           Quiet.canonical_value text_reads_back).
  vm_compute. reflexivity.
Defined.

(** ** What a document writes *)

(** C7.  A document that encodes is written as an object whose members
    are, in this order: [links] when [Links] is not nil; [data], always,
    with [null] for a nil [Data] pointer and for a container with
    neither field set; [included] when [Included] has an element;
    [meta] when [Meta] has an entry; each with the encoding of its
    field, and no other member.  When the values written are JSON
    values, these are the members a reader of the text finds: an absent
    [included] or [meta] has no key in it.  A [Links] writes the keys of
    its non-empty strings and no others, each with its string quoted: an
    empty string is left out, not written as an empty literal. *)
Theorem Document_writes_data_omits_absent :
  (∀ any (marshal_any : any → result string) (d : Document any) (text : string),
     marshal_Document marshal_any d = Ok text →
     ∃ links data included meta : list (string * string),
       text = Encode.object_text (links ++ data ++ included ++ meta) ∧
       match DocLinks d with
       | None => links = []
       | Some l => ∃ v, marshal_Links l = Ok v ∧ links = [("links", v)]
       end ∧
       match DocData d with
       | None => data = [("data", "null")]
       | Some c =>
           ∃ v, marshaler (DataContainer_MarshalJSON marshal_any c) = Ok v
                ∧ data = [("data", v)]
                ∧ (c = zero_Container → v = "null")
       end ∧
       match Included d with
       | None => included = []
       | Some [] => included = []
       | Some (x :: xs) =>
           ∃ v, Encode.marshal_slice (marshal_Data marshal_any) (Some (x :: xs)) = Ok v
                ∧ included = [("included", v)]
       end ∧
       match Meta d with
       | None => meta = []
       | Some m =>
           if bool_decide (m = ∅) then meta = []
           else ∃ v, Encode.marshal_map marshal_any (Some m) = Ok v
                     ∧ meta = [("meta", v)]
       end ∧
       (Forall (λ kv : string * string, value_text kv.2)
          (links ++ data ++ included ++ meta) →
        Scanner.pairs (Scanner.pieces text)
        = map (λ kv : string * string, (Encode.quote kv.1, kv.2))
            (links ++ data ++ included ++ meta))) ∧
  (∀ l : Links,
     marshal_Links l
     = Ok (Encode.object_text
             (map (λ kv, (kv.1, Encode.quote kv.2))
                  (List.filter (λ kv, negb (is_empty_string kv.2)) (Links_fields l))))).
Proof.
  split.
  - intros any marshal_any d text. unfold marshal_Document, marshal_struct.
    destruct (collect (Document_members marshal_any d)) as [ms|e] eqn:E; simpl; [|done].
    intros [= <-]. unfold Document_members in E.
    apply collect_app in E as (m1 & m234 & H1 & E & ->).
    apply collect_app in E as (m2 & m34 & H2 & E & ->).
    apply collect_app in E as (m3 & m4 & H3 & H4 & ->).
    apply collect_member in H1, H2, H3, H4.
    exists m1, m2, m3, m4. split; [done|].
    split; [|split; [|split; [|split]]].
    + destruct (DocLinks d) as [l|]; simpl in H1.
      * destruct H1 as [[? _] | (_ & v & Hv & ->)]; [done|]. by exists v.
      * by destruct H1 as [[_ ->] | [? _]].
    + destruct H2 as [[? _] | (_ & v & Hv & ->)]; [done|].
      destruct (DocData d) as [c|].
      * exists v. split; [done|]. split; [done|]. intros ->.
        vm_compute in Hv. by injection Hv as <-.
      * by injection Hv as <-.
    + destruct (Included d) as [[|x xs]|]; simpl in H3.
      * by destruct H3 as [[_ ->] | [? _]].
      * destruct H3 as [[? _] | (_ & v & Hv & ->)]; [done|]. by exists v.
      * by destruct H3 as [[_ ->] | [? _]].
    + destruct (Meta d) as [m|]; simpl in H4.
      * destruct (bool_decide (m = ∅)).
        -- by destruct H4 as [[_ ->] | [? _]].
        -- destruct H4 as [[? _] | (_ & v & Hv & ->)]; [done|]. by exists v.
      * by destruct H4 as [[_ ->] | [? _]].
    + intros Hv. by apply PieceFacts.pieces_object.
  - intros [[|] [|] [|] [|] [|] [|]]; reflexivity.
Qed.

Lemma Document_writes_data_omits_absent_witness :
  ∃ links data included meta : list (string * string),
    "{" +:+ quoted "data" +:+ ":null}"
    = Encode.object_text (links ++ data ++ included ++ meta) ∧
    match DocLinks absent_document with
    | None => links = []
    | Some l => ∃ v, marshal_Links l = Ok v ∧ links = [("links", v)]
    end ∧
    match DocData absent_document with
    | None => data = [("data", "null")]
    | Some c =>
        ∃ v, marshaler (DataContainer_MarshalJSON marshal_text c) = Ok v
             ∧ data = [("data", v)]
             ∧ (c = zero_Container → v = "null")
    end ∧
    match Included absent_document with
    | None => included = []
    | Some [] => included = []
    | Some (x :: xs) =>
        ∃ v, Encode.marshal_slice (marshal_Data marshal_text) (Some (x :: xs)) = Ok v
             ∧ included = [("included", v)]
    end ∧
    match Meta absent_document with
    | None => meta = []
    | Some m =>
        if bool_decide (m = ∅) then meta = []
        else ∃ v, Encode.marshal_map marshal_text (Some m) = Ok v
                  ∧ meta = [("meta", v)]
    end ∧
    (Forall (λ kv : string * string, value_text kv.2)
       (links ++ data ++ included ++ meta) →
     Scanner.pairs (Scanner.pieces ("{" +:+ quoted "data" +:+ ":null}"))
     = map (λ kv : string * string, (Encode.quote kv.1, kv.2))
         (links ++ data ++ included ++ meta)).
Proof.
  apply (proj1 Document_writes_data_omits_absent string marshal_text absent_document).
  vm_compute. reflexivity.
Defined.
